(** * Agent-Git: checkpoint diffing and the session / checkpoint repositories

    A shallow embedding of

    - [agentgit/database/models.py]       (the four tables and their constraints),
    - [agentgit/database/db_config.py]    ([get_db_connection], engines and paths),
    - [agentgit/database/repositories/external_session_repository.py],
    - [agentgit/database/repositories/internal_session_repository.py],
    - [agentgit/database/repositories/checkpoint_repository.py],
    - [agentgit/checkpoints/diff.py],

    followed by the properties of the specification that concern them, and
    by further properties of the code.

    Conventions.  Primary keys and Python [int]s are [Z]; a nullable column or
    an [Optional] attribute is an [option]; a [datetime] is the number of
    microseconds since the epoch, so that [<=] on datetimes is [<=] on [Z]
    (whether it is aware or naive is said where it is rendered or loaded);
    a Python [dict] with string keys is a [gmap string _]; a table is a
    [gmap] from primary key to row. *)

From stdpp Require Import gmap strings list fin_maps sorting pretty.
From Stdlib Require Import ZArith Lia.

#[local] Set Warnings "-register-all".

(** ** JSON values *)

Inductive json : Type :=
| JNone
| JBool (b : bool)
| JInt (z : Z)
| JStr (s : string)
| JList (l : list json)
| JDict (d : gmap string json).

Abbreviation dict := (gmap string json).
Abbreviation datetime := Z (only parsing).

(** [d.get(k, default)] *)
Definition dict_get (d : dict) (k : string) (dflt : json) : json :=
  default dflt (d !! k).

(** Truth value of an [Optional[int]]: [None] and [0] are falsy. *)
Definition truthy_id (i : option Z) : bool :=
  match i with
  | Some z => negb (z =? 0)%Z
  | None => false
  end.

(** A Python [datetime] is aware, here always with [tzinfo=timezone.utc],
    or naive.  An attribute that holds one is modelled by its instant;
    where the code renders a datetime, or the store gives one back, the
    model says which of the two it is. *)
Inductive tzinfo := Naive | UTC.

(** [datetime.isoformat()]: the date and the time, to which an aware
    datetime adds its offset from UTC. *)
Class Isoformat := isoformat_naive : datetime → string.

Definition isoformat `{Isoformat} (tz : tzinfo) (ts : datetime) : string :=
  match tz with
  | Naive => isoformat_naive ts
  | UTC => isoformat_naive ts +:+ "+00:00"
  end.

(** The stores that db_config.py supports.  SQLite keeps no offset: what a
    session writes to a [DateTime(timezone=True)] column as an aware
    datetime, a later session loads as a naive one.  PostgreSQL, taken with
    its time zone set to UTC, gives it back aware. *)
Inductive Backend := SQLite | PostgreSQL.
Existing Class Backend.

Definition loaded_tzinfo (backend : Backend) : tzinfo :=
  match backend with
  | SQLite => Naive
  | PostgreSQL => UTC
  end.

(** ** models.py *)

Module ExternalSessionModel.
Record t := mk {
  user_id : Z;
  session_name : string;
  created_at : datetime;
  updated_at : option datetime;
  is_active : bool;
  data : dict;
  session_metadata : dict;
  branch_count : Z;
  total_checkpoints : Z }.

Definition set_data (d : dict) (r : t) : t :=
  mk (user_id r) (session_name r) (created_at r) (updated_at r) (is_active r) d
     (session_metadata r) (branch_count r) (total_checkpoints r).
End ExternalSessionModel.

Module InternalSessionModel.
Record t := mk {
  external_session_id : Z;
  langgraph_session_id : string;
  state_data : dict;
  conversation_history : list json;
  created_at : datetime;
  is_current : bool;
  checkpoint_count : Z;
  parent_session_id : option Z;
  branch_point_checkpoint_id : option Z;
  tool_invocation_count : Z;
  session_metadata : dict }.

Definition set_is_current (b : bool) (r : t) : t :=
  mk (external_session_id r) (langgraph_session_id r) (state_data r)
     (conversation_history r) (created_at r) b (checkpoint_count r)
     (parent_session_id r) (branch_point_checkpoint_id r)
     (tool_invocation_count r) (session_metadata r).

Definition set_branch_point_checkpoint_id (c : option Z) (r : t) : t :=
  mk (external_session_id r) (langgraph_session_id r) (state_data r)
     (conversation_history r) (created_at r) (is_current r) (checkpoint_count r)
     (parent_session_id r) c
     (tool_invocation_count r) (session_metadata r).

Definition set_parent_session_id (p : option Z) (r : t) : t :=
  mk (external_session_id r) (langgraph_session_id r) (state_data r)
     (conversation_history r) (created_at r) (is_current r) (checkpoint_count r)
     p (branch_point_checkpoint_id r)
     (tool_invocation_count r) (session_metadata r).

Definition set_tool_invocation_count (n : Z) (r : t) : t :=
  mk (external_session_id r) (langgraph_session_id r) (state_data r)
     (conversation_history r) (created_at r) (is_current r) (checkpoint_count r)
     (parent_session_id r) (branch_point_checkpoint_id r)
     n (session_metadata r).
End InternalSessionModel.

Module CheckpointModel.
Record t := mk {
  internal_session_id : Z;
  checkpoint_name : option string;
  checkpoint_data : dict;
  is_auto : bool;
  created_at : datetime;
  user_id : option Z }.

Definition set_checkpoint_data (d : dict) (r : t) : t :=
  mk (internal_session_id r) (checkpoint_name r) d (is_auto r)
     (created_at r) (user_id r).
End CheckpointModel.

(** The database.  Of [users] only the keys matter to the three
    repositories modelled here (they are the target of foreign keys). *)
Record Database := mkDatabase {
  users : gset Z;
  external_sessions : gmap Z ExternalSessionModel.t;
  internal_sessions : gmap Z InternalSessionModel.t;
  checkpoints : gmap Z CheckpointModel.t }.

Definition with_external_sessions (m : gmap Z ExternalSessionModel.t) (d : Database) : Database :=
  mkDatabase (users d) m (internal_sessions d) (checkpoints d).

Definition with_internal_sessions (m : gmap Z InternalSessionModel.t) (d : Database) : Database :=
  mkDatabase (users d) (external_sessions d) m (checkpoints d).

Definition with_checkpoints (m : gmap Z CheckpointModel.t) (d : Database) : Database :=
  mkDatabase (users d) (external_sessions d) (internal_sessions d) m.

(** [autoincrement=True] on an integer primary key: one more than the largest
    key in use, starting at 1. *)
Definition next_id {A} (m : gmap Z A) : Z :=
  (1 + foldr Z.max 0 (map_to_list m).*1)%Z.

(** A nullable foreign key is satisfied by [NULL]. *)
Definition fk_ok {A} (ref : option Z) (m : gmap Z A) : bool :=
  match ref with
  | None => true
  | Some k => bool_decide (is_Some (m !! k))
  end.

(** [ondelete="SET NULL"]: a reference into the deleted rows becomes [NULL]. *)
Definition null_if_gone {A} (gone : gmap Z A) (ref : option Z) : option Z :=
  match ref with
  | Some k => if bool_decide (is_Some (gone !! k)) then None else ref
  | None => None
  end.

(** [DELETE FROM checkpoints WHERE P], with the number of rows deleted;
    [internal_sessions.branch_point_checkpoint_id] is [SET NULL]. *)
Definition delete_checkpoints (P : Z * CheckpointModel.t → Prop) `{!∀ x, Decision (P x)}
    (d : Database) : Z * Database :=
  let gone := filter P (checkpoints d) in
  (Z.of_nat (size gone),
   mkDatabase (users d) (external_sessions d)
     ((λ r, InternalSessionModel.set_branch_point_checkpoint_id
              (null_if_gone gone (InternalSessionModel.branch_point_checkpoint_id r)) r)
        <$> internal_sessions d)
     (filter (λ x, ¬ P x) (checkpoints d))).

(** [DELETE FROM internal_sessions WHERE P]: the checkpoints of the deleted
    rows go with them ([CASCADE]); [parent_session_id] is [SET NULL]. *)
Definition delete_internal_sessions (P : Z * InternalSessionModel.t → Prop)
    `{!∀ x, Decision (P x)} (d : Database) : Database :=
  let gone := filter P (internal_sessions d) in
  let d1 :=
    (delete_checkpoints
       (λ x, is_Some (gone !! CheckpointModel.internal_session_id x.2)) d).2 in
  with_internal_sessions
    ((λ r, InternalSessionModel.set_parent_session_id
             (null_if_gone gone (InternalSessionModel.parent_session_id r)) r)
       <$> filter (λ x, ¬ P x) (internal_sessions d1)) d1.

(** [DELETE FROM external_sessions WHERE id = k]: its internal sessions go
    with it ([CASCADE]). *)
Definition delete_external_session (k : Z) (d : Database) : Database :=
  let d1 :=
    delete_internal_sessions (λ x, InternalSessionModel.external_session_id x.2 = k) d in
  with_external_sessions (delete k (external_sessions d1)) d1.

(** ** db_config.py *)

Inductive exn := IntegrityError | OperationalError.

Inductive outcome (A : Type) :=
| Ok (a : A)
| Raise (e : exn).
Arguments Ok {A} a.
Arguments Raise {A} e.

(** The body of a [with get_db_connection(...) as db_session:] block works on
    the session's view of the database; it ends with a value or raises. *)
Definition Tx (A : Type) : Type := Database → outcome (A * Database).

(** What a database session does when it ends. *)
Inductive event := Commit | Rollback | Close.

(** What a repository call runs against: the committed database; for each
    database session still to be opened, whether the store fails it
    ([session.commit()] raising; a missing entry means no failure); and the
    record of how the sessions so far have ended. *)
Record World := mkWorld {
  db : Database;
  faults : list bool;
  log : list event }.

Definition next_fault (w : World) : bool := default false (head (faults w)).

Definition Repo (A : Type) : Type := World → outcome A * World.

#[global] Instance repo_ret : MRet Repo := λ A a w, (Ok a, w).
#[global] Instance repo_bind : MBind Repo := λ A B f m w,
  match m w with
  | (Ok a, w') => f a w'
  | (Raise e, w') => (Raise e, w')
  end.

(** [get_db_connection]: [yield session], then [commit()]; on any exception
    [rollback()] and re-raise; [close()] in all cases. *)
Definition get_db_connection {A} (body : Tx A) : Repo A := λ w,
  let rolled_back := mkWorld (db w) (tail (faults w)) (log w ++ [Rollback; Close]) in
  match body (db w) with
  | Raise e => (Raise e, rolled_back)
  | Ok (a, d') =>
      if next_fault w then (Raise OperationalError, rolled_back)
      else (Ok a, mkWorld d' (tail (faults w)) (log w ++ [Commit; Close]))
  end.

(** *** Engines, URLs and paths *)

Module DbConfig.

(** [str.lower()], on a string given by its UTF-8 bytes: the ASCII capitals
    are lowered.  The results are only compared with the ASCII literals
    below, to none of which a string with a character outside ASCII
    lowers. *)
Definition lower_char (c : Ascii.ascii) : Ascii.ascii :=
  let n := Ascii.N_of_ascii c in
  if (65 <=? n)%N && (n <=? 90)%N then Ascii.ascii_of_N (n + 32) else c.

Fixpoint lower (s : string) : string :=
  match s with
  | EmptyString => EmptyString
  | String c s => String (lower_char c) (lower s)
  end.

(** [s.startswith(prefix)], [sub in s] *)
Definition startswith (s prefix : string) : bool := String.prefix prefix s.
Definition contains (sub s : string) : bool := bool_decide (is_Some (String.index 0 sub s)).

(** The two [ValueError]s, with the value their message shows. *)
Inductive ValueError :=
| UnsupportedDatabaseType (db_type : string)
| UnsupportedDatabaseSchema (db_path : string).

(** What the functions of db_config.py raise: their own [ValueError]s, the
    [IndexError] of an index out of range, the [OSError] of [os.makedirs],
    and whatever [sqlalchemy.create_engine] raises. *)
Inductive Exception (E : Type) :=
| RaisedValueError (e : ValueError)
| IndexError
| OSError
| RaisedByCreateEngine (e : E).
Arguments RaisedValueError {E} e.
Arguments IndexError {E}.
Arguments OSError {E}.
Arguments RaisedByCreateEngine {E} e.

(** The keyword arguments of the two calls of [create_engine]: for SQLite
    [echo=False], [check_same_thread=False] and a [StaticPool], with
    [PRAGMA foreign_keys=ON] set on connect; for PostgreSQL [echo=False]
    and [pool_pre_ping=True]. *)
Inductive EngineOptions := SqliteOptions | PostgresOptions.

Section environment.
(** [sqlalchemy.create_engine] is not part of the repository: it gives an
    engine or raises (an [ArgumentError] for a URL it cannot parse, a
    [NoSuchModuleError] for a dialect it does not know). *)
Context {Engine SQLAlchemyError : Type}.
Variable create_engine : string → EngineOptions → SQLAlchemyError + Engine.

(** A call of [create_engine] inside a function of db_config.py: what it
    raises is passed on. *)
Definition call_create_engine (database_url : string) (options : EngineOptions) :
    Exception SQLAlchemyError + Engine :=
  match create_engine database_url options with
  | inl e => inl (RaisedByCreateEngine e)
  | inr engine => inr engine
  end.

Definition _create_db_engine (database_url db_type : string) :
    Exception SQLAlchemyError + Engine :=
  let db_type := lower db_type in
  if bool_decide (db_type = "sqlite") then call_create_engine database_url SqliteOptions
  else if bool_decide (db_type = "postgres" ∨ db_type = "postgresql")
  then call_create_engine database_url PostgresOptions
  else inl (RaisedValueError (UnsupportedDatabaseType db_type)).

(** [os.path.abspath] *)
Variable abspath : string → string.

Definition _normalize_db_url (db_path : string) : ValueError + string * string :=
  if contains "://" db_path then
    let url_lower := lower db_path in
    if startswith url_lower "sqlite://" then inr (db_path, "sqlite")
    else if startswith url_lower "postgresql://" || startswith url_lower "postgres://"
    then inr (db_path, "postgres")
    else inl (UnsupportedDatabaseSchema db_path)
  else
    let abs_path := abspath db_path in
    let sqlite_url := "sqlite:///" +:+ abs_path in
    inr (sqlite_url, "sqlite").


(** [str.strip()] and [os.getenv]; the path
    [os.path.join(data_dir, "rollback_agent.db")] of the default branch of
    [get_database_path]; and whether [os.makedirs(data_dir, exist_ok=True)]
    raises there. *)
Variable strip : string → string.
Variable getenv : string → option string.
Variable default_database_path : string.
Variable makedirs_raises : bool.

(** [s[n:]] *)
Fixpoint slice_from (n : nat) (s : string) : string :=
  match n, s with
  | S n, String _ s => slice_from n s
  | _, _ => s
  end.

(** [s.split(sep, 1)[1]]: what follows the first [sep]; [None] is the
    [IndexError] of a string without [sep]. *)
Definition after_first (sep s : string) : option string :=
  i ← String.index 0 sep s; Some (slice_from (i + String.length sep) s).

(** [os.getenv("DATABASE", "sqlite").strip().lower()] *)
Definition database_type : string := lower (strip (default "sqlite" (getenv "DATABASE"))).

Definition get_database_path (db_path : option string) :
    Exception SQLAlchemyError + string :=
  match db_path with
  | Some (String c s) => inr (String c s)
  | _ =>
      let db_type := database_type in
      let db_url := strip (default "" (getenv "DATABASE_URL")) in
      if bool_decide (db_type = "postgres") then inr db_url
      else if bool_decide (db_url ≠ "") && startswith (lower db_url) "sqlite://" then
        let lower_url := lower db_url in
        if startswith lower_url "sqlite:///"
        then inr (slice_from (String.length "sqlite:///") db_url)
        else
          match after_first "://" db_url with
          | Some path => inr path
          | None => inl IndexError
          end
      else if makedirs_raises then inl OSError
      else inr default_database_path
  end.

(** [_get_engine], from the engine in the global [_engine], if any: the
    engine returned, which is also the new value of [_engine]. *)
Definition _get_engine (_engine : option Engine) : Exception SQLAlchemyError + Engine :=
  match _engine with
  | Some engine => inr engine
  | None =>
      let db_type := database_type in
      match get_database_path None with
      | inl e => inl e
      | inr path_or_dsn =>
          if bool_decide (db_type = "postgres")
          then _create_db_engine path_or_dsn "postgres"
          else
            let sqlite_url := "sqlite:///" +:+ path_or_dsn in
            _create_db_engine sqlite_url "sqlite"
      end
  end.

End environment.
End DbConfig.

(** ** external_session_repository.py *)

(** Modelled from the spec: the class
    [agentgit.sessions.external_session.ExternalSession] is not among the
    sources.  The record has the attributes the specification gives an
    External Session (§3), which are also the keys of the dict built in
    [_row_to_session]; the methods the repository calls are parameters. *)
Module ExternalSession.
Record t := mk {
  id : option Z;
  user_id : Z;
  session_name : string;
  created_at : option datetime;
  updated_at : option datetime;
  is_active : bool;
  internal_session_ids : list string;
  current_internal_session_id : option string;
  metadata : dict;
  branch_count : Z;
  total_checkpoints : Z }.

Definition set_id (i : option Z) (s : t) : t :=
  mk i (user_id s) (session_name s) (created_at s) (updated_at s) (is_active s)
     (internal_session_ids s) (current_internal_session_id s) (metadata s)
     (branch_count s) (total_checkpoints s).

Definition set_created_at (c : option datetime) (s : t) : t :=
  mk (id s) (user_id s) (session_name s) c (updated_at s) (is_active s)
     (internal_session_ids s) (current_internal_session_id s) (metadata s)
     (branch_count s) (total_checkpoints s).

Definition set_updated_at (u : option datetime) (s : t) : t :=
  mk (id s) (user_id s) (session_name s) (created_at s) u (is_active s)
     (internal_session_ids s) (current_internal_session_id s) (metadata s)
     (branch_count s) (total_checkpoints s).

Definition set_is_active (b : bool) (s : t) : t :=
  mk (id s) (user_id s) (session_name s) (created_at s) (updated_at s) b
     (internal_session_ids s) (current_internal_session_id s) (metadata s)
     (branch_count s) (total_checkpoints s).

(** The methods the repository calls.  [set_current_internal_session]
    returns a boolean and the object as it leaves it. *)
Class Methods := {
  to_dict : t → dict;
  from_dict : dict → t;
  add_internal_session : string → t → t;
  set_current_internal_session : string → t → bool * t }.
End ExternalSession.

Module ExternalSessionRepository.
Import ExternalSessionModel.

Section repository.
(** [backend] is the store behind the [db_path] of the repository. *)
Context {backend : Backend} `{Isoformat, ExternalSession.Methods}.

(** [db_session.add(row); db_session.flush()] under the foreign key on
    [user_id]. *)
Definition add_flush (row : ExternalSessionModel.t) : Tx Z := λ d,
  if bool_decide (user_id row ∈ users d)
  then
    let new_id := next_id (external_sessions d) in
    Ok (new_id, with_external_sessions (<[new_id := row]> (external_sessions d)) d)
  else Raise IntegrityError.

(** At commit the session writes back the attributes it knows to be
    modified; a JSON dict mutated in place is known to be so only once
    [flag_modified] has been called on it. *)
Definition write_back (i : Z) (data : dict) (flagged : bool) (d : Database) : Database :=
  if flagged
  then with_external_sessions (alter (set_data data) i (external_sessions d)) d
  else d.

(** [now] is the value of the column default [datetime.now(timezone.utc)] at
    the flush, an aware datetime: it is what [db_external_session.created_at]
    holds in this session, whatever the store keeps of it. *)
Definition create (session : ExternalSession.t) (now : datetime) : Repo ExternalSession.t :=
  let session_dict := ExternalSession.to_dict session in
  get_db_connection (λ d,
    let db_external_session :=
      mk (ExternalSession.user_id session) (ExternalSession.session_name session)
         now None (ExternalSession.is_active session) session_dict
         (ExternalSession.metadata session) (ExternalSession.branch_count session)
         (ExternalSession.total_checkpoints session) in
    match add_flush db_external_session d with
    | Raise e => Raise e
    | Ok (new_id, d1) =>
        let session' :=
          ExternalSession.set_created_at (Some (created_at db_external_session))
            (ExternalSession.set_id (Some new_id) session) in
        let data' :=
          <["created_at" := JStr (isoformat UTC (created_at db_external_session))]>
            (data db_external_session) in
        Ok (session', write_back new_id data' true d1)
    end).

(** The seven assignments of [update] on the row found. *)
Definition assign (session : ExternalSession.t) (session_dict : dict)
    (r : ExternalSessionModel.t) : ExternalSessionModel.t :=
  mk (user_id r) (ExternalSession.session_name session) (created_at r)
     (ExternalSession.updated_at session) (ExternalSession.is_active session)
     session_dict (ExternalSession.metadata session)
     (ExternalSession.branch_count session) (ExternalSession.total_checkpoints session).

(** [now] is the value of [datetime.now(timezone.utc)]. *)
Definition update (session : ExternalSession.t) (now : datetime) : Repo bool :=
  match ExternalSession.id session with
  | Some session_id =>
      if (session_id =? 0)%Z then mret false
      else
        let session := ExternalSession.set_updated_at (Some now) session in
        let session_dict := ExternalSession.to_dict session in
        get_db_connection (λ d,
          match external_sessions d !! session_id with
          | Some r =>
              Ok (true, with_external_sessions
                          (<[session_id := assign session session_dict r]>
                             (external_sessions d)) d)
          | None => Ok (false, d)
          end)
  | None => mret false
  end.

(** [db_sess] is a row that this session has loaded: its datetimes are
    aware or naive as the store gives them back. *)
Definition _row_to_session (db_sess : Z * ExternalSessionModel.t) : ExternalSession.t :=
  let r := db_sess.2 in
  let session_dict : dict :=
    if bool_decide (data r ≠ ∅) then data r
    else
      <["id" := JInt db_sess.1]>
      (<["user_id" := JInt (user_id r)]>
      (<["session_name" := JStr (session_name r)]>
      (<["created_at" := JStr (isoformat (loaded_tzinfo backend) (created_at r))]>
      (<["updated_at" :=
           from_option (λ u, JStr (isoformat (loaded_tzinfo backend) u)) JNone
             (updated_at r)]>
      (<["is_active" := JBool (is_active r)]>
      (<["internal_session_ids" := JList []]>
      (<["current_internal_session_id" := JNone]>
      (<["metadata" := JDict ∅]>
      (<["branch_count" := JInt 0]>
      (<["total_checkpoints" := JInt 0]> ∅)))))))))) in
  let session_dict :=
    if bool_decide (session_metadata r ≠ ∅)
    then <["metadata" := JDict (session_metadata r)]> session_dict
    else session_dict in
  let session_dict := <["branch_count" := JInt (branch_count r)]> session_dict in
  let session_dict := <["total_checkpoints" := JInt (total_checkpoints r)]> session_dict in
  ExternalSession.set_id (Some db_sess.1) (ExternalSession.from_dict session_dict).

Definition get_by_id (session_id : Z) : Repo (option ExternalSession.t) :=
  get_db_connection (λ d,
    Ok ((λ r, _row_to_session (session_id, r)) <$> external_sessions d !! session_id, d)).

Definition add_internal_session (external_session_id : Z) (langgraph_session_id : string)
    (now : datetime) : Repo bool :=
  session ← get_by_id external_session_id;
  match session with
  | None => mret false
  | Some session =>
      update (ExternalSession.add_internal_session langgraph_session_id session) now
  end.

Definition set_current_internal_session (external_session_id : Z)
    (langgraph_session_id : string) (now : datetime) : Repo bool :=
  session ← get_by_id external_session_id;
  match session with
  | None => mret false
  | Some session =>
      let '(found, session) :=
        ExternalSession.set_current_internal_session langgraph_session_id session in
      if found then update session now else mret false
  end.

(** [now] and [now'] are the two readings of the clock, in [deactivate] and
    in the [update] it calls. *)
Definition deactivate (session_id : Z) (now now' : datetime) : Repo bool :=
  session ← get_by_id session_id;
  match session with
  | None => mret false
  | Some session =>
      update (ExternalSession.set_updated_at (Some now)
                (ExternalSession.set_is_active false session)) now'
  end.

Definition delete (session_id : Z) : Repo bool :=
  get_db_connection (λ d,
    match external_sessions d !! session_id with
    | Some _ => Ok (true, delete_external_session session_id d)
    | None => Ok (false, d)
    end).

Definition count_user_sessions (u : Z) (active_only : bool) : Repo Z :=
  get_db_connection (λ d,
    Ok (Z.of_nat (size (filter (λ x, user_id x.2 = u
                                     ∧ (active_only = true → is_active x.2 = true))
                               (external_sessions d))), d)).

Definition check_ownership (session_id u : Z) : Repo bool :=
  get_db_connection (λ d,
    Ok (bool_decide (0 < size (filter (λ x, x.1 = session_id ∧ user_id x.2 = u)
                                     (external_sessions d))), d)).

(** [ORDER BY created_at DESC]: sessions created at the same instant come
    in an order of the database's choosing. *)
Definition created_at_desc (x y : Z * ExternalSessionModel.t) : Prop :=
  (created_at y.2 ≤ created_at x.2)%Z.

#[global] Instance external_created_at_desc_dec x y : Decision (created_at_desc x y).
Proof. unfold created_at_desc. apply _. Defined.

Definition of_user (u : Z) (active_only : bool) (x : Z * ExternalSessionModel.t) : Prop :=
  user_id x.2 = u ∧ (active_only = true → is_active x.2 = true).

#[global] Instance of_user_dec u a x : Decision (of_user u a x).
Proof. unfold of_user. apply _. Defined.

Definition get_user_sessions (u : Z) (active_only : bool) : Repo (list ExternalSession.t) :=
  get_db_connection (λ d,
    Ok (_row_to_session
          <$> merge_sort created_at_desc
                (filter (of_user u active_only) (map_to_list (external_sessions d))),
        d)).

(** The rows of [query(ExternalSessionModel).all()] come in an order of the
    database's choosing, here that of [map_to_list]; the loop returns the
    first session that lists [langgraph_session_id]. *)
Definition get_by_internal_session (langgraph_session_id : string) :
    Repo (option ExternalSession.t) :=
  get_db_connection (λ d,
    Ok (head (filter (λ session,
                        langgraph_session_id ∈ ExternalSession.internal_session_ids session)
                     (_row_to_session <$> map_to_list (external_sessions d))),
        d)).

End repository.
End ExternalSessionRepository.

(** ** internal_session_repository.py *)

(** Modelled from the spec: the class
    [agentgit.sessions.internal_session.InternalSession] is not among the
    sources.  Of the attributes the specification gives an Internal Session
    (§3) the record has those the repository reads or writes, under the
    names of the constructor call in [_row_to_session]. *)
Module InternalSession.
Record t := mk {
  id : option Z;
  external_session_id : Z;
  langgraph_session_id : string;
  session_state : dict;
  conversation_history : list json;
  created_at : option datetime;
  is_current : bool;
  checkpoint_count : Z;
  parent_session_id : option Z;
  branch_point_checkpoint_id : option Z;
  tool_invocation_count : Z;
  metadata : dict }.

Definition set_id_created_at (i : option Z) (c : option datetime) (s : t) : t :=
  mk i (external_session_id s) (langgraph_session_id s) (session_state s)
     (conversation_history s) c (is_current s) (checkpoint_count s)
     (parent_session_id s) (branch_point_checkpoint_id s)
     (tool_invocation_count s) (metadata s).
End InternalSession.

Module InternalSessionRepository.
Import InternalSessionModel.

(** [db_session.add(row); db_session.flush()]: the INSERT, subject to the
    constraints declared in models.py (foreign keys, unique
    [langgraph_session_id]); yields the allocated primary key. *)
Definition add_flush (row : InternalSessionModel.t) : Tx Z := λ d,
  if bool_decide (is_Some (external_sessions d !! external_session_id row))
     && bool_decide (map_Forall (λ _ r, langgraph_session_id r ≠ langgraph_session_id row)
                                (internal_sessions d))
     && fk_ok (parent_session_id row) (internal_sessions d)
     && fk_ok (branch_point_checkpoint_id row) (checkpoints d)
  then
    let new_id := next_id (internal_sessions d) in
    Ok (new_id, with_internal_sessions (<[new_id := row]> (internal_sessions d)) d)
  else Raise IntegrityError.

(** The rows selected by [_mark_all_not_current]: those of the external
    session, minus [exclude_id] when it is truthy. *)
Definition marked (ext : Z) (exclude_id : option Z) (i : Z) (r : t) : bool :=
  (external_session_id r =? ext)%Z
  && (if truthy_id exclude_id then negb (bool_decide (Some i = exclude_id)) else true).

Definition mark_rows (ext : Z) (exclude_id : option Z)
    (m : gmap Z InternalSessionModel.t) : gmap Z InternalSessionModel.t :=
  map_imap (λ i r, Some (if marked ext exclude_id i r then set_is_current false r else r)) m.

Definition _mark_all_not_current (ext : Z) (exclude_id : option Z) : Repo () :=
  get_db_connection (λ d,
    Ok ((), with_internal_sessions (mark_rows ext exclude_id (internal_sessions d)) d)).

(** [created_at] is the instant of the column.  The datetime that a
    session loads there is aware or naive as the store gives it back, while
    the one that [create] puts into the session it returns is aware: on
    SQLite the two are never [==], which the instant does not show. *)
Definition _row_to_session (i : Z) (r : InternalSessionModel.t) : InternalSession.t :=
  InternalSession.mk (Some i) (external_session_id r) (langgraph_session_id r)
    (state_data r) (conversation_history r) (Some (created_at r)) (is_current r)
    (checkpoint_count r) (parent_session_id r) (branch_point_checkpoint_id r)
    (tool_invocation_count r) (session_metadata r).

(** The [InternalSessionModel(...)] that [create] builds; [now] is the value
    the column default [datetime.now(timezone.utc)] takes at the flush. *)
Definition row_of (session : InternalSession.t) (now : datetime) : InternalSessionModel.t :=
  mk (InternalSession.external_session_id session)
     (InternalSession.langgraph_session_id session)
     (InternalSession.session_state session)
     (InternalSession.conversation_history session)
     now
     (InternalSession.is_current session)
     (InternalSession.checkpoint_count session)
     (InternalSession.parent_session_id session)
     (InternalSession.branch_point_checkpoint_id session)
     (InternalSession.tool_invocation_count session)
     (InternalSession.metadata session).

Definition create (session : InternalSession.t) (now : datetime) : Repo InternalSession.t :=
  (if InternalSession.is_current session
   then _mark_all_not_current (InternalSession.external_session_id session) None
   else mret ());;
  get_db_connection (λ d,
    let db_internal_session := row_of session now in
    match add_flush db_internal_session d with
    | Raise e => Raise e
    | Ok (new_id, d') =>
        Ok (InternalSession.set_id_created_at
              (Some new_id) (Some (created_at db_internal_session)) session, d')
    end).

(** The six assignments of [update] on the row found. *)
Definition assign (session : InternalSession.t) (r : t) : t :=
  mk (external_session_id r) (langgraph_session_id r)
     (InternalSession.session_state session)
     (InternalSession.conversation_history session)
     (created_at r)
     (InternalSession.is_current session)
     (InternalSession.checkpoint_count session)
     (parent_session_id r) (branch_point_checkpoint_id r)
     (InternalSession.tool_invocation_count session)
     (InternalSession.metadata session).

Definition update (session : InternalSession.t) : Repo bool :=
  match InternalSession.id session with
  | Some session_id =>
      if (session_id =? 0)%Z then mret false
      else
        (if InternalSession.is_current session
         then _mark_all_not_current (InternalSession.external_session_id session)
                                    (Some session_id)
         else mret ());;
        get_db_connection (λ d,
          match internal_sessions d !! session_id with
          | Some r =>
              Ok (true, with_internal_sessions
                          (<[session_id := assign session r]> (internal_sessions d)) d)
          | None => Ok (false, d)
          end)
  | None => mret false
  end.

Definition get_by_id (session_id : Z) : Repo (option InternalSession.t) :=
  get_db_connection (λ d,
    Ok (_row_to_session session_id <$> internal_sessions d !! session_id, d)).

Definition set_current_session (session_id : Z) : Repo bool :=
  session ← get_by_id session_id;
  match session with
  | None => mret false
  | Some session =>
      _mark_all_not_current (InternalSession.external_session_id session) None;;
      get_db_connection (λ d,
        match internal_sessions d !! session_id with
        | Some r =>
            Ok (true, with_internal_sessions
                        (<[session_id := set_is_current true r]> (internal_sessions d)) d)
        | None => Ok (false, d)
        end)
  end.

Definition delete (session_id : Z) : Repo bool :=
  get_db_connection (λ d,
    match internal_sessions d !! session_id with
    | Some _ => Ok (true, delete_internal_sessions (λ x, x.1 = session_id) d)
    | None => Ok (false, d)
    end).

(** [tool_invocation_count or 0] is the count itself: the column is always
  written by [create]. *)
Definition update_tool_count (session_id increment : Z) : Repo bool :=
  get_db_connection (λ d,
    match internal_sessions d !! session_id with
    | Some r =>
        Ok (true, with_internal_sessions
                    (<[session_id := set_tool_invocation_count
                                       (tool_invocation_count r + increment) r]>
                       (internal_sessions d)) d)
    | None => Ok (false, d)
    end).
(** A query without [ORDER BY]: the rows come in an order of the
    database's choosing, here that of [map_to_list]. *)
Definition rows_where (P : Z * InternalSessionModel.t → Prop) `{!∀ x, Decision (P x)}
    (d : Database) : list (Z * InternalSessionModel.t) :=
  filter P (map_to_list (internal_sessions d)).

(** [ORDER BY created_at DESC]: rows created at the same instant come in an
    order of the database's choosing. *)
Definition created_at_desc (x y : Z * InternalSessionModel.t) : Prop :=
  (created_at y.2 ≤ created_at x.2)%Z.

#[global] Instance created_at_desc_dec x y : Decision (created_at_desc x y).
Proof. unfold created_at_desc. apply _. Defined.

Definition order_by_created_at_desc :
    list (Z * InternalSessionModel.t) → list (Z * InternalSessionModel.t) :=
  merge_sort created_at_desc.

Definition get_by_langgraph_session_id (langgraph_session_id' : string) :
    Repo (option InternalSession.t) :=
  get_db_connection (λ d,
    Ok (uncurry _row_to_session
          <$> head (rows_where (λ x, langgraph_session_id x.2 = langgraph_session_id') d),
        d)).

Definition get_by_external_session (external_session_id' : Z) :
    Repo (list InternalSession.t) :=
  get_db_connection (λ d,
    Ok (uncurry _row_to_session
          <$> order_by_created_at_desc
                (rows_where (λ x, external_session_id x.2 = external_session_id') d),
        d)).

Definition get_current_session (external_session_id' : Z) :
    Repo (option InternalSession.t) :=
  get_db_connection (λ d,
    Ok (uncurry _row_to_session
          <$> head (rows_where (λ x, external_session_id x.2 = external_session_id'
                                     ∧ is_current x.2 = true) d),
        d)).

Definition count_sessions (external_session_id' : Z) : Repo Z :=
  get_db_connection (λ d,
    Ok (Z.of_nat (size (filter (λ x, external_session_id x.2 = external_session_id')
                               (internal_sessions d))), d)).

Definition get_branch_sessions (parent_session_id' : Z) : Repo (list InternalSession.t) :=
  get_db_connection (λ d,
    Ok (uncurry _row_to_session
          <$> order_by_created_at_desc
                (rows_where (λ x, parent_session_id x.2 = Some parent_session_id') d),
        d)).

(** The loop of [get_session_lineage], run for at most [fuel] turns: [None]
    when it is still running after them. *)
Fixpoint lineage_loop (fuel : nat) (lineage : list InternalSession.t)
    (current_id : option Z) : Repo (option (list InternalSession.t)) :=
  match fuel with
  | O => mret None
  | S fuel =>
      if truthy_id current_id then
        session ← get_by_id (default 0%Z current_id);
        match session with
        | None => mret (Some lineage)
        | Some session =>
            lineage_loop fuel (lineage ++ [session]) (InternalSession.parent_session_id session)
        end
      else mret (Some lineage)
  end.

Definition get_session_lineage (fuel : nat) (session_id : Z) :
    Repo (option (list InternalSession.t)) :=
  lineage ← lineage_loop fuel [] (Some session_id);
  mret (reverse <$> lineage).

End InternalSessionRepository.

(** ** checkpoint_repository.py *)

(** Modelled from the spec: the class
    [agentgit.checkpoints.checkpoint.Checkpoint] is not among the sources.
    Of the attributes the specification gives a Checkpoint (§3) the record
    has those the repository reads or writes; its methods [to_dict] and
    [from_dict] are parameters. *)
Module Checkpoint.
Record t := mk {
  id : option Z;
  internal_session_id : option Z;
  checkpoint_name : option string;
  is_auto : bool;
  created_at : option datetime;
  user_id : option Z;
  metadata : dict }.

Definition set_id (i : option Z) (c : t) : t :=
  mk i (internal_session_id c) (checkpoint_name c) (is_auto c) (created_at c)
     (user_id c) (metadata c).

Definition set_created_at (ts : option datetime) (c : t) : t :=
  mk (id c) (internal_session_id c) (checkpoint_name c) (is_auto c) ts
     (user_id c) (metadata c).

Definition set_metadata (m : dict) (c : t) : t :=
  mk (id c) (internal_session_id c) (checkpoint_name c) (is_auto c) (created_at c)
     (user_id c) m.

(** The methods the repository calls. *)
Class Methods := {
  to_dict : t → dict;
  from_dict : dict → t }.
End Checkpoint.

Module CheckpointRepository.
Import CheckpointModel.

Section repository.
Context `{Isoformat, Checkpoint.Methods}.

(** [db_session.add(row); db_session.flush()] under the foreign keys of the
    [checkpoints] table. *)
Definition add_flush (row : CheckpointModel.t) : Tx Z := λ d,
  if bool_decide (is_Some (internal_sessions d !! internal_session_id row))
     && match user_id row with
        | Some u => bool_decide (u ∈ users d)
        | None => true
        end
  then
    let new_id := next_id (checkpoints d) in
    Ok (new_id, with_checkpoints (<[new_id := row]> (checkpoints d)) d)
  else Raise IntegrityError.

(** At commit the session writes back the attributes it knows to be
    modified.  A JSON dict mutated in place is known to be so only once
    [flag_modified] has been called on it. *)
Definition write_back (i : Z) (data : dict) (flagged : bool) (d : Database) : Database :=
  if flagged
  then with_checkpoints (alter (set_checkpoint_data data) i (checkpoints d)) d
  else d.

(** [now] is the value of the column default [datetime.now(timezone.utc)] at
    the flush, an aware datetime: it is what [db_checkpoint.created_at]
    holds in this session, whatever the store keeps of it.  Being a
    [datetime] it is truthy, so the guard [if db_checkpoint.created_at:] is
    taken.  A checkpoint without [internal_session_id] violates
    [nullable=False]. *)
Definition create (checkpoint : Checkpoint.t) (now : datetime) : Repo Checkpoint.t :=
  let checkpoint_dict := Checkpoint.to_dict checkpoint in
  get_db_connection (λ d,
    match Checkpoint.internal_session_id checkpoint with
    | None => Raise IntegrityError
    | Some s =>
        let db_checkpoint :=
          mk s (Checkpoint.checkpoint_name checkpoint) checkpoint_dict
             (Checkpoint.is_auto checkpoint) now (Checkpoint.user_id checkpoint) in
        match add_flush db_checkpoint d with
        | Raise e => Raise e
        | Ok (new_id, d1) =>
            let checkpoint' :=
              Checkpoint.set_created_at (Some (created_at db_checkpoint))
                (Checkpoint.set_id (Some new_id) checkpoint) in
            let data' :=
              <["created_at" := JStr (isoformat UTC (created_at db_checkpoint))]>
                (checkpoint_data db_checkpoint) in
            Ok (checkpoint', write_back new_id data' true d1)
        end
    end).

Definition _row_to_checkpoint (db_cp : Z * CheckpointModel.t) : Checkpoint.t :=
  Checkpoint.set_id (Some db_cp.1) (Checkpoint.from_dict (checkpoint_data db_cp.2)).

(** [ORDER BY created_at DESC, id DESC] *)
Definition newer_first (x y : Z * CheckpointModel.t) : Prop :=
  (created_at y.2 < created_at x.2
   ∨ (created_at x.2 = created_at y.2 ∧ y.1 ≤ x.1))%Z.

#[global] Instance newer_first_dec x y : Decision (newer_first x y).
Proof. unfold newer_first. apply _. Defined.

Definition order_by_created_at_desc_id_desc :
    list (Z * CheckpointModel.t) → list (Z * CheckpointModel.t) :=
  merge_sort newer_first.

(** [.limit(n)], [.first()] *)
Definition limit {A} (n : nat) (rows : list A) : list A := take n rows.
Definition first {A} (rows : list A) : option A := head (limit 1 rows).

Definition of_session (s : Z) (auto_only : bool) (x : Z * CheckpointModel.t) : Prop :=
  internal_session_id x.2 = s ∧ (auto_only = true → is_auto x.2 = true).

#[global] Instance of_session_dec s a x : Decision (of_session s a x).
Proof. unfold of_session. apply _. Defined.

Definition rows_by_internal_session (s : Z) (auto_only : bool) (d : Database) :
    list (Z * CheckpointModel.t) :=
  order_by_created_at_desc_id_desc (filter (of_session s auto_only) (map_to_list (checkpoints d))).

Definition get_by_id (checkpoint_id : Z) : Repo (option Checkpoint.t) :=
  get_db_connection (λ d,
    Ok ((λ r, _row_to_checkpoint (checkpoint_id, r)) <$> checkpoints d !! checkpoint_id, d)).

Definition get_by_internal_session (s : Z) (auto_only : bool) : Repo (list Checkpoint.t) :=
  get_db_connection (λ d,
    Ok (_row_to_checkpoint <$> rows_by_internal_session s auto_only d, d)).

Definition get_latest_checkpoint (s : Z) : Repo (option Checkpoint.t) :=
  get_db_connection (λ d,
    Ok (_row_to_checkpoint <$> first (rows_by_internal_session s false d), d)).

Definition rows_by_user (u : Z) (lim : option nat) (d : Database) :
    list (Z * CheckpointModel.t) :=
  let rows :=
    order_by_created_at_desc_id_desc
      (filter (λ x, user_id x.2 = Some u) (map_to_list (checkpoints d))) in
  match lim with
  | Some (S n) => limit (S n) rows
  | _ => rows
  end.

Definition get_by_user (u : Z) (lim : option nat) : Repo (list Checkpoint.t) :=
  get_db_connection (λ d, Ok (_row_to_checkpoint <$> rows_by_user u lim d, d)).

Definition delete (checkpoint_id : Z) : Repo bool :=
  get_db_connection (λ d,
    match checkpoints d !! checkpoint_id with
    | Some _ => Ok (true, (delete_checkpoints (λ x, x.1 = checkpoint_id) d).2)
    | None => Ok (false, d)
    end).

(** [keep_latest] is an [int] that is never negative in the callers;
    [LIMIT] with a negative count depends on the backend. *)
Definition delete_auto_checkpoints (s : Z) (keep_latest : nat) : Repo Z :=
  get_db_connection (λ d,
    let keep_checkpoints := limit keep_latest (rows_by_internal_session s true d) in
    let keep_ids := keep_checkpoints.*1 in
    if bool_decide (keep_ids ≠ [])
    then Ok (delete_checkpoints (λ x, internal_session_id x.2 = s ∧ is_auto x.2 = true
                                ∧ x.1 ∉ keep_ids) d)
    else Ok (delete_checkpoints (λ x, internal_session_id x.2 = s ∧ is_auto x.2 = true) d)).

Definition update_checkpoint_metadata (checkpoint_id : Z) (metadata : dict) : Repo bool :=
  checkpoint ← get_by_id checkpoint_id;
  match checkpoint with
  | None => mret false
  | Some checkpoint =>
      let checkpoint :=
        Checkpoint.set_metadata (metadata ∪ Checkpoint.metadata checkpoint) checkpoint in
      let checkpoint_dict := Checkpoint.to_dict checkpoint in
      get_db_connection (λ d,
        match checkpoints d !! checkpoint_id with
        | Some r =>
            Ok (true, with_checkpoints
                        (<[checkpoint_id := set_checkpoint_data checkpoint_dict r]>
                           (checkpoints d)) d)
        | None => Ok (false, d)
        end)
  end.

Definition count_checkpoints (s : Z) : Repo dict :=
  get_db_connection (λ d,
    let total :=
      Z.of_nat (size (filter (λ x, internal_session_id x.2 = s) (checkpoints d))) in
    let auto :=
      Z.of_nat (size (filter (λ x, internal_session_id x.2 = s ∧ is_auto x.2 = true)
                             (checkpoints d))) in
    let manual := (total - auto)%Z in
    Ok (<["total" := JInt total]> (<["auto" := JInt auto]> (<["manual" := JInt manual]> ∅)),
        d)).

End repository.
End CheckpointRepository.

(** ** diff.py *)

Module Diff.

Inductive ChangeType := ADDED | REMOVED | MODIFIED.

Record StateChange := mkStateChange {
  path : string;
  change_type : ChangeType;
  old_value : json;
  new_value : json }.

Record ToolInvocationChange := mkToolInvocationChange {
  index : Z;
  tool_name : json;
  args : json;
  result : json;
  success : json;
  error_message : json }.

Module DiffReport.
Record t := mk {
  checkpoint_a_id : option Z;
  checkpoint_b_id : option Z;
  state_changes : list StateChange;
  tool_invocations : list ToolInvocationChange;
  conversation_diff : dict;
  metadata_diff : dict }.
End DiffReport.

(** Modelled from the spec: the two arguments of [compare_checkpoints] are
    instances of the class [agentgit.checkpoints.checkpoint.Checkpoint],
    which is not among the sources.  The record has the attributes that
    [compare_checkpoints] reads; each may be [None] (or, for [id] and
    [created_at], absent). *)
Record checkpoint := mkCheckpoint {
  id : option Z;
  created_at : option datetime;
  session_state : option dict;
  conversation_history : option (list json);
  tool_invocations : option (list dict);
  metadata : option dict }.

(** The change recorded for the tool record [tool_inv] at position [idx]. *)
Definition tool_change (idx : Z) (tool_inv : dict) : ToolInvocationChange :=
  mkToolInvocationChange idx
    (dict_get tool_inv "tool_name" (dict_get tool_inv "tool" (JStr "unknown")))
    (dict_get tool_inv "args" (JDict ∅))
    (dict_get tool_inv "result" JNone)
    (dict_get tool_inv "success" (JBool true))
    (dict_get tool_inv "error_message" JNone).

Definition _compare_tool_invocations (old_tools new_tools : list dict) :
    list ToolInvocationChange :=
  let old_count := length old_tools in
  let new_tools_after := drop old_count new_tools in
  imap (λ i tool_inv, tool_change (Z.of_nat (old_count + i)) tool_inv) new_tools_after.

Definition _compare_conversations (old_history new_history : list json) : dict :=
  let old_count := length old_history in
  let new_count := length new_history in
  <["old_length" := JInt (Z.of_nat old_count)]>
  (<["new_length" := JInt (Z.of_nat new_count)]>
  (<["messages_added" := JInt (Z.of_nat new_count - Z.of_nat old_count)]>
  (<["new_messages" :=
       JList (if bool_decide (old_count < new_count)
              then drop old_count new_history else [])]> ∅))).

Definition _order_checkpoints (checkpoint_a checkpoint_b : checkpoint) :
    checkpoint * checkpoint :=
  match created_at checkpoint_a, created_at checkpoint_b with
  | Some created_a, Some created_b =>
      if (created_a <=? created_b)%Z then (checkpoint_a, checkpoint_b)
      else (checkpoint_b, checkpoint_a)
  | _, _ =>
  match id checkpoint_a, id checkpoint_b with
  | Some id_a, Some id_b =>
      if (id_a <=? id_b)%Z then (checkpoint_a, checkpoint_b)
      else (checkpoint_b, checkpoint_a)
  | _, _ =>
  let history_a := default [] (conversation_history checkpoint_a) in
  let history_b := default [] (conversation_history checkpoint_b) in
  if negb (length history_a =? length history_b) then
    if length history_a <=? length history_b then (checkpoint_a, checkpoint_b)
    else (checkpoint_b, checkpoint_a)
  else
  let tools_a := default [] (tool_invocations checkpoint_a) in
  let tools_b := default [] (tool_invocations checkpoint_b) in
  if negb (length tools_a =? length tools_b) then
    if length tools_a <=? length tools_b then (checkpoint_a, checkpoint_b)
    else (checkpoint_b, checkpoint_a)
  else (checkpoint_a, checkpoint_b)
  end end.

Section compare.
(** [_compare_dicts] enters [compare_checkpoints] only through the
    [state_changes] of the report. *)
Variable _compare_dicts : dict → dict → list StateChange.

Definition compare_checkpoints (checkpoint_a checkpoint_b : checkpoint) : DiffReport.t :=
  let '(older, newer) := _order_checkpoints checkpoint_a checkpoint_b in
  let old_state := default ∅ (session_state older) in
  let new_state := default ∅ (session_state newer) in
  let old_tools := default [] (tool_invocations older) in
  let new_tools := default [] (tool_invocations newer) in
  let old_conv := default [] (conversation_history older) in
  let new_conv := default [] (conversation_history newer) in
  let old_meta := default ∅ (metadata older) in
  let new_meta := default ∅ (metadata newer) in
  DiffReport.mk (id older) (id newer)
    (_compare_dicts old_state new_state)
    (_compare_tool_invocations old_tools new_tools)
    (_compare_conversations old_conv new_conv)
    (<["old_metadata" := JDict old_meta]> (<["new_metadata" := JDict new_meta]> ∅)).
End compare.

End Diff.

(** *** The comparison of session states *)

(** What [_compare_dicts] needs of the values that are not dicts: [None],
    and [==]. *)
Class PyValue (V : Type) := {
  py_none : V;
  py_eq : V → V → bool }.

Module StateDiff.
Import Diff.

(** [sorted] on strings: code point order, which on UTF-8 is the order of the
    bytes. *)
Definition str_le (a b : string) : Prop := String.leb a b = true.

#[global] Instance str_le_dec a b : Decision (str_le a b).
Proof. unfold str_le. apply _. Defined.

Definition str_lt (a b : string) : Prop := String.ltb a b = true.

Definition sorted (keys : gset string) : list string := merge_sort str_le (elements keys).

Section values.
Context {V : Type}.

(** A value of a state dict: a dict, given by its items in insertion order
    (the order in which [for k, v in d.items()] meets them), or a value of
    another type. *)
Inductive value :=
| Other (v : V)
| Nested (d : list (string * value)).

(** [dict(items)]: a later item replaces an earlier one with the same key.
    Of the flattened dict only the keys and their values are used, so it is
    a [gmap]. *)
Definition dict_of_items (items : list (string * V)) : gmap string V :=
  foldl (λ m kv, <[kv.1 := kv.2]> m) ∅ items.

(** [f"{parent_key}{sep}{k}" if parent_key else k] *)
Definition new_key (parent_key sep k : string) : string :=
  if bool_decide (parent_key = "") then k else parent_key +:+ sep +:+ k.

(** What one turn of the loop of [_flatten_dict] adds to [items] for a value
    [v] met under [new_key]. *)
Fixpoint flatten_value (v : value) (new_key' sep : string) : list (string * V) :=
  match v with
  | Nested d =>
      map_to_list
        (dict_of_items
           (flat_map (λ kv, flatten_value kv.2 (new_key new_key' sep kv.1) sep) d))
  | Other x => [(new_key', x)]
  end.

Definition _flatten_dict (d : list (string * value)) (parent_key sep : string) :
    gmap string V :=
  dict_of_items
    (flat_map (λ kv, flatten_value kv.2 (new_key parent_key sep kv.1) sep) d).

(** The path of [k] under the parent key [p]. *)
Definition under (p sep k : string) : string := p +:+ sep +:+ k.

(** No key of the dict is the empty string, at any depth. *)
Fixpoint nonempty_keys (v : value) : Prop :=
  match v with
  | Nested d => Forall (λ kv, kv.1 ≠ "") d ∧ foldr (λ kv P, nonempty_keys kv.2 ∧ P) True d
  | Other _ => True
  end.

Record StateChange := mkStateChange {
  path : string;
  change_type : ChangeType;
  old_value : V;
  new_value : V }.

Context `{!PyValue V}.

(** [d.get(key)] *)
Definition get (d : gmap string V) (key : string) : V := default py_none (d !! key).

(** The body of the loop of [_compare_dicts] for one key: the change it
    appends, if any. *)
Definition change_at (old_flat new_flat : gmap string V) (key : string) : option StateChange :=
  let old_val := get old_flat key in
  let new_val := get new_flat key in
  if bool_decide (old_flat !! key = None) then
    Some (mkStateChange key ADDED py_none new_val)
  else if bool_decide (new_flat !! key = None) then
    Some (mkStateChange key REMOVED old_val py_none)
  else if negb (py_eq old_val new_val) then
    Some (mkStateChange key MODIFIED old_val new_val)
  else None.

Definition _compare_dicts (old new : list (string * value)) : list StateChange :=
  let old_flat := _flatten_dict old "" "." in
  let new_flat := _flatten_dict new "" "." in
  let all_keys := dom old_flat ∪ dom new_flat in
  omap (change_at old_flat new_flat) (sorted all_keys).

(** A change read from the newer state to the older one. *)
Definition reverse_change (c : StateChange) : StateChange :=
  mkStateChange (path c)
    (match change_type c with
     | ADDED => REMOVED
     | REMOVED => ADDED
     | MODIFIED => MODIFIED
     end)
    (new_value c) (old_value c).

End values.
Arguments value : clear implicits.
Arguments StateChange : clear implicits.
End StateDiff.

(** * Vocabulary of the properties *)

Module DiffSpec.
Import Diff.

(** The ordering rule in the words of the specification: the keys
    [created_at], [id], [len(conversation_history)], [len(tool_invocations)]
    are tried in turn; a key decides when it compares the two checkpoints
    strictly, otherwise the next one is tried; a full tie gives the first
    argument. *)
Definition strict_on (ka kb : option Z) : option bool :=
  match ka, kb with
  | Some x, Some y =>
      if (x <? y)%Z then Some true else if (y <? x)%Z then Some false else None
  | _, _ => None
  end.

Definition history_length (c : checkpoint) : option Z :=
  Some (Z.of_nat (length (default [] (conversation_history c)))).

Definition tools_length (c : checkpoint) : option Z :=
  Some (Z.of_nat (length (default [] (tool_invocations c)))).

Fixpoint cascade (keys : list (checkpoint → option Z)) (a b : checkpoint) :
    checkpoint * checkpoint :=
  match keys with
  | [] => (a, b)
  | key :: keys' =>
      match strict_on (key a) (key b) with
      | Some true => (a, b)
      | Some false => (b, a)
      | None => cascade keys' a b
      end
  end.

Definition spec_order (a b : checkpoint) : checkpoint * checkpoint :=
  cascade [created_at; id; history_length; tools_length] a b.

(** The available key on which the two checkpoints tie, if any: both
    [created_at] present and equal or, failing a [created_at] on either side,
    both [id] present and equal. *)
Definition tie_on_available_key (a b : checkpoint) : bool :=
  match created_at a, created_at b with
  | Some x, Some y => (x =? y)%Z
  | _, _ =>
      match id a, id b with
      | Some x, Some y => (x =? y)%Z
      | _, _ => false
      end
  end.


(** *** What a change shows of a tool record *)

(** [v] is the value of the record under [key], or [dflt] when the record
    has no such key. *)
Definition shows (record : dict) (key : string) (dflt v : json) : Prop :=
  match record !! key with
  | Some x => v = x
  | None => v = dflt
  end.

(** The change is the tool record [record], found at [position]: its name
    is the record's ["tool_name"], else its ["tool"], else ["unknown"]; its
    other fields are the record's, with [{}] for missing arguments, [True]
    for a missing success flag and [None] for a missing result or error
    message. *)
Definition is_record_at (c : ToolInvocationChange) (position : nat) (record : dict) : Prop :=
  index c = Z.of_nat position
  ∧ match record !! "tool_name", record !! "tool" with
    | Some name, _ => tool_name c = name
    | None, Some name => tool_name c = name
    | None, None => tool_name c = JStr "unknown"
    end
  ∧ shows record "args" (JDict ∅) (args c)
  ∧ shows record "result" JNone (result c)
  ∧ shows record "success" (JBool true) (success c)
  ∧ shows record "error_message" JNone (error_message c).

End DiffSpec.

Module Transactions.

(** A Hoare triple for repository calls: from a committed database
    satisfying [P], a call that returns [a] leaves a database satisfying
    [Q a], and a call that raises leaves one satisfying [E]; whatever the
    store failures. *)
Definition hoare {A} (P : Database → Prop) (m : Repo A)
    (Q : A → Database → Prop) (E : Database → Prop) : Prop :=
  ∀ w, P (db w) →
    match m w with
    | (Ok a, w') => Q a (db w')
    | (Raise _, w') => E (db w')
    end.

(** A call that raises leaves the database as it found it. *)
Definition atomic_on_error {A} (m : Repo A) : Prop :=
  ∀ w e w', m w = (Raise e, w') → db w' = db w.

(** A call that raises leaves the database as it found it, or as [partial]
    relates it to what it found. *)
Definition atomic_up_to {A} (partial : Database → Database → Prop) (m : Repo A) : Prop :=
  ∀ w e w', m w = (Raise e, w') → db w' = db w ∨ partial (db w) (db w').

(** A call that writes nothing. *)
Definition read_only {A} (m : Repo A) : Prop := ∀ w, db (m w).2 = db w.

End Transactions.

Module InternalSessionSpec.
Import InternalSessionModel InternalSessionRepository.

(** The current sessions of an external session. *)
Definition currents (e : Z) (d : Database) : gmap Z InternalSessionModel.t :=
  filter (λ x, external_session_id x.2 = e ∧ is_current x.2 = true) (internal_sessions d).

(** Current uniqueness. *)
Definition current_unique (d : Database) : Prop := ∀ e, size (currents e d) ≤ 1.

(** The same, row by row. *)
Definition at_most_one_current (m : gmap Z InternalSessionModel.t) : Prop :=
  ∀ i j ri rj, m !! i = Some ri → m !! j = Some rj →
    external_session_id ri = external_session_id rj →
    is_current ri = true → is_current rj = true → i = j.

(** The database once [_mark_all_not_current] has committed. *)
Definition marked_db (ext : Z) (exclude_id : option Z) (d : Database) : Database :=
  with_internal_sessions (mark_rows ext exclude_id (internal_sessions d)) d.

(** The database once the last session of [update] or of
    [set_current_session] has committed: [f] applied to the row [k], if
    there is one. *)
Definition assigned_db (k : Z) (f : InternalSessionModel.t → InternalSessionModel.t)
    (d : Database) : Database :=
  match internal_sessions d !! k with
  | Some r => with_internal_sessions (<[k := f r]> (internal_sessions d)) d
  | None => d
  end.

(** The database once the first session of [create] or [update] is over:
    siblings cleared when the session passed in is current. *)
Definition cleared_db (session : InternalSession.t) (exclude_id : option Z)
    (d : Database) : Database :=
  if InternalSession.is_current session
  then marked_db (InternalSession.external_session_id session) exclude_id d
  else d.

(** The session id that [update] acts on, if any: [None] and [0] are
    refused. *)
Definition updatable (session : InternalSession.t) : option Z :=
  match InternalSession.id session with
  | Some session_id => if (session_id =? 0)%Z then None else Some session_id
  | None => None
  end.

(** The session passed to [update] names the external session of the row it
    is stored in. *)
Definition coherent (session : InternalSession.t) (d : Database) : Prop :=
  ∀ session_id r,
    InternalSession.id session = Some session_id →
    internal_sessions d !! session_id = Some r →
    external_session_id r = InternalSession.external_session_id session.

(** A sequence of calls of [create], [update] and [set_current_session],
    each running whether or not the one before it raised. *)
Inductive call :=
| Create (session : InternalSession.t) (now : datetime)
| Update (session : InternalSession.t)
| SetCurrent (session_id : Z).

Definition exec (c : call) (w : World) : World :=
  match c with
  | Create session now => (create session now w).2
  | Update session => (update session w).2
  | SetCurrent session_id => (set_current_session session_id w).2
  end.

Definition run (cs : list call) (w : World) : World := foldl (λ w c, exec c w) w cs.

(** Every [update] of the sequence is passed a session coherent with the
    database it meets. *)
Fixpoint coherent_calls (cs : list call) (w : World) : Prop :=
  match cs with
  | [] => True
  | c :: cs' =>
      match c with
      | Update session => coherent session (db w)
      | _ => True
      end
      ∧ coherent_calls cs' (exec c w)
  end.

(** The columns [update] never assigns. *)
Definition identity_kept (r r' : InternalSessionModel.t) : Prop :=
  langgraph_session_id r' = langgraph_session_id r
  ∧ external_session_id r' = external_session_id r
  ∧ parent_session_id r' = parent_session_id r
  ∧ branch_point_checkpoint_id r' = branch_point_checkpoint_id r
  ∧ created_at r' = created_at r.

(** No row appears or disappears; the target row keeps its identity columns;
    any other row is as before, or as before with [is_current] cleared. *)
Definition frame_rows (target : option Z) (m m' : gmap Z InternalSessionModel.t) : Prop :=
  ∀ k,
    match m !! k, m' !! k with
    | Some r, Some r' =>
        if decide (target = Some k) then identity_kept r r'
        else r' = r ∨ r' = set_is_current false r
    | None, None => True
    | _, _ => False
    end.

(** What is left of [create], [update] and [set_current_session] when they
    raise after their first writing session: the siblings cleared. *)
Definition siblings_cleared (ext : Z) (exclude_id : option Z) (d d' : Database) : Prop :=
  d' = marked_db ext exclude_id d.

End InternalSessionSpec.

Module CheckpointSpec.
Import CheckpointModel CheckpointRepository.

(** [(created_at DESC, id DESC)], strictly: a later row is older, or as old
    with a smaller id. *)
Definition strictly_newer (x y : Z * CheckpointModel.t) : Prop :=
  (created_at y.2 < created_at x.2
   ∨ (created_at x.2 = created_at y.2 ∧ y.1 < x.1))%Z.

(** [Ok] results mapped, exceptions passed on. *)
Definition outcome_map {A B} (f : A → B) (o : outcome A) : outcome B :=
  match o with
  | Ok a => Ok (f a)
  | Raise e => Raise e
  end.

(** *** Column and payload [created_at] *)

Section coherence.
Context `{Isoformat}.

(** The payload carries the ISO form of the column, as a session on
    [backend] that loads the row renders it. *)
Definition payload_coherent (backend : Backend) (r : CheckpointModel.t) : Prop :=
  checkpoint_data r !! "created_at"
  = Some (JStr (isoformat (loaded_tzinfo backend) (created_at r))).

Definition coherence (backend : Backend) (d : Database) : Prop :=
  map_Forall (λ _ r, payload_coherent backend r) (checkpoints d).

(** The checkpoint satisfies the constraints of the [checkpoints] table: its
    internal session is stored, and so is its user when it names one. *)
Definition insertable (c : Checkpoint.t) (d : Database) : Prop :=
  (∃ s, Checkpoint.internal_session_id c = Some s ∧ is_Some (internal_sessions d !! s))
  ∧ (∀ u, Checkpoint.user_id c = Some u → u ∈ users d).

End coherence.

(** *** Pruning *)

(** The auto-checkpoints of [s]. *)
Definition auto_of (s : Z) (x : Z * CheckpointModel.t) : Prop :=
  internal_session_id x.2 = s ∧ is_auto x.2 = true.

#[global] Instance auto_of_dec s x : Decision (auto_of s x).
Proof. unfold auto_of. apply _. Defined.
#[global] Typeclasses Opaque auto_of.

Definition auto_checkpoints (s : Z) (d : Database) : gmap Z CheckpointModel.t :=
  filter (auto_of s) (checkpoints d).

#[global] Instance strictly_newer_dec x y : Decision (strictly_newer x y).
Proof. unfold strictly_newer. apply _. Defined.

(** The number of auto-checkpoints of [s] that are more recent than [x] by
    [(created_at DESC, id DESC)]. *)
Definition more_recent (s : Z) (d : Database) (x : Z * CheckpointModel.t) : nat :=
  size (filter (λ y, strictly_newer y x) (auto_checkpoints s d)).

(** The rows to prune: the auto-checkpoints of [s] other than its [n] most
    recent, that is, those with [n] or more auto-checkpoints of [s] more
    recent than they are. *)
Definition pruned (s : Z) (n : nat) (d : Database) (x : Z * CheckpointModel.t) : Prop :=
  auto_of s x ∧ n ≤ more_recent s d x.

#[global] Instance pruned_dec s n d x : Decision (pruned s n d x).
Proof. unfold pruned. apply _. Defined.

End CheckpointSpec.

Module InternalSessionQuerySpec.
Import InternalSessionModel InternalSessionRepository.

(** A branch is younger than the session it was branched from. *)
Definition older_parent (i : Z) (r : InternalSessionModel.t) : Prop :=
  from_option (λ p, (p < i)%Z) True (parent_session_id r).

#[global] Instance older_parent_dec i r : Decision (older_parent i r).
Proof. unfold older_parent. destruct (parent_session_id r); cbn; apply _. Defined.

Definition parents_older (d : Database) : Prop :=
  map_Forall older_parent (internal_sessions d).

(** The session is the stored row [i]. *)
Definition stored (d : Database) (session : InternalSession.t) : Prop :=
  ∃ i r, internal_sessions d !! i = Some r ∧ session = _row_to_session i r.

(** The constraints of the [internal_sessions] table on a new row: its
    external session is stored, no stored row has its
    [langgraph_session_id], and its parent session and branch point are
    stored when it names them. *)
Definition insertable (row : InternalSessionModel.t) (d : Database) : Prop :=
  is_Some (external_sessions d !! external_session_id row)
  ∧ (∀ j rj, internal_sessions d !! j = Some rj →
       langgraph_session_id rj ≠ langgraph_session_id row)
  ∧ fk_ok (parent_session_id row) (internal_sessions d) = true
  ∧ fk_ok (branch_point_checkpoint_id row) (checkpoints d) = true.

(** The rows that the loop of [get_session_lineage] visits from
    [current_id] on, in at most [fuel] turns. *)
Fixpoint visited (fuel : nat) (m : gmap Z InternalSessionModel.t) (current_id : option Z) :
    list (Z * InternalSessionModel.t) :=
  match fuel with
  | O => []
  | S fuel =>
      if truthy_id current_id then
        match m !! default 0%Z current_id with
        | Some r => (default 0%Z current_id, r) :: visited fuel m (parent_session_id r)
        | None => []
        end
      else []
  end.

(** The number of rows with an id up to that of [current_id]. *)
Definition rows_up_to (m : gmap Z InternalSessionModel.t) (current_id : option Z) : nat :=
  match current_id with
  | Some i => size (filter (λ x, (x.1 ≤ i)%Z) m)
  | None => 0
  end.

End InternalSessionQuerySpec.

Module ExternalSessionSpec.
Import ExternalSessionModel.

Section coherence.
Context `{Isoformat}.

(** The payload carries the ISO form of the [created_at] column, as a
    session on [backend] that loads the row renders it. *)
Definition payload_coherent (backend : Backend) (r : ExternalSessionModel.t) : Prop :=
  data r !! "created_at" = Some (JStr (isoformat (loaded_tzinfo backend) (created_at r))).

End coherence.

(** The columns that [update] never assigns. *)
Definition identity_kept (r r' : ExternalSessionModel.t) : Prop :=
  user_id r' = user_id r ∧ created_at r' = created_at r.

End ExternalSessionSpec.

Module IntegritySpec.
Import Transactions.

(** The foreign keys of models.py: every reference names a stored row. *)
Definition referential_integrity (d : Database) : Prop :=
  map_Forall (λ _ r, ExternalSessionModel.user_id r ∈ users d) (external_sessions d)
  ∧ map_Forall
      (λ _ r,
         is_Some (external_sessions d !! InternalSessionModel.external_session_id r)
         ∧ fk_ok (InternalSessionModel.parent_session_id r) (internal_sessions d) = true
         ∧ fk_ok (InternalSessionModel.branch_point_checkpoint_id r) (checkpoints d) = true)
      (internal_sessions d)
  ∧ map_Forall
      (λ _ c,
         is_Some (internal_sessions d !! CheckpointModel.internal_session_id c)
         ∧ from_option (λ u, u ∈ users d) True (CheckpointModel.user_id c))
      (checkpoints d).

#[global] Instance referential_integrity_dec d : Decision (referential_integrity d).
Proof.
  assert (∀ (u : option Z), Decision (from_option (λ u, u ∈ users d) True u))
    by (intros [u|]; cbn; apply _).
  unfold referential_integrity. apply _.
Defined.

(** A call that keeps an invariant of the database, whether it returns or
    raises. *)
Definition keeps {A} (I : Database → Prop) (m : Repo A) : Prop :=
  hoare I m (λ _, I) I.

End IntegritySpec.

(** * Sample data *)

Module DiffSamples.

Definition bare (i : option Z) (ts : option datetime) (history : list json)
    (tools : list dict) : Diff.checkpoint :=
  Diff.mkCheckpoint i ts None (Some history) (Some tools) None.

(** Two checkpoints created at the same instant, the second argument with
    the smaller id. *)
Definition tie_a : Diff.checkpoint := bare (Some 2%Z) (Some 5%Z) [] [].
Definition tie_b : Diff.checkpoint := bare (Some 1%Z) (Some 5%Z) [] [].


(** A checkpoint after one tool call, and a later one after three. *)
Definition tool (name : string) : dict := <["tool_name" := JStr name]> ∅.

Definition one_tool : Diff.checkpoint := bare (Some 1%Z) (Some 1%Z) [] [tool "read_file"].
Definition three_tools : Diff.checkpoint :=
  bare (Some 2%Z) (Some 2%Z) [] [tool "read_file"; tool "write_file"; tool "delete_file"].

Definition no_state_changes : dict → dict → list Diff.StateChange := λ _ _, [].

End DiffSamples.

Module RepoSamples.

(** One user with two external sessions, nothing else. *)
Definition chat (name : string) : ExternalSessionModel.t :=
  ExternalSessionModel.mk 1 name 0 None true ∅ ∅ 0 0.

Definition db0 : Database :=
  mkDatabase {[1%Z]} (<[1%Z := chat "first"]> (<[2%Z := chat "second"]> ∅)) ∅ ∅.
Definition w0 : World := mkWorld db0 [] [].

(** A fresh session of external session 1. *)
Definition session (langgraph_session_id : string) (is_current : bool) : InternalSession.t :=
  InternalSession.mk None 1 langgraph_session_id ∅ [] None is_current 0 None None 0 ∅.

(** The database after [create(session("lg-a", True))] and
    [create(session("lg-b", False))]: rows 1 and 2 of external session 1,
    row 1 current. *)
Definition w2 : World :=
  (InternalSessionRepository.create (session "lg-b" false) 20
     (InternalSessionRepository.create (session "lg-a" true) 10 w0).2).2.

(** Row 2 as an object whose [external_session_id] is not the one stored. *)
Definition stale : InternalSession.t :=
  InternalSession.mk (Some 2%Z) 2 "lg-b" ∅ [] None true 0 None None 0 ∅.

(** Stand-ins for the methods that the repositories take as given. *)
Definition sample_isoformat : Isoformat := λ ts, pretty ts.

Definition sample_checkpoint_methods : Checkpoint.Methods := {|
  Checkpoint.to_dict c :=
    <["checkpoint_name" := from_option JStr JNone (Checkpoint.checkpoint_name c)]>
    (<["is_auto" := JBool (Checkpoint.is_auto c)]>
    (<["created_at" := from_option (λ ts, JStr (pretty ts)) JNone (Checkpoint.created_at c)]>
    (<["metadata" := JDict (Checkpoint.metadata c)]> ∅)));
  Checkpoint.from_dict d :=
    Checkpoint.mk None None
      (match d !! "checkpoint_name" with Some (JStr s) => Some s | _ => None end)
      (match d !! "is_auto" with Some (JBool b) => b | _ => false end)
      None None
      (match d !! "metadata" with Some (JDict m) => m | _ => ∅ end) |}.

Definition sample_external_session_methods : ExternalSession.Methods := {|
  ExternalSession.to_dict s := <["session_name" := JStr (ExternalSession.session_name s)]> ∅;
  ExternalSession.from_dict d :=
    ExternalSession.mk None 1
      (match d !! "session_name" with Some (JStr s) => s | _ => "" end)
      None None true [] None ∅ 0 0;
  ExternalSession.add_internal_session lg s :=
    ExternalSession.mk (ExternalSession.id s) (ExternalSession.user_id s)
      (ExternalSession.session_name s) (ExternalSession.created_at s)
      (ExternalSession.updated_at s) (ExternalSession.is_active s)
      (ExternalSession.internal_session_ids s ++ [lg]) (Some lg)
      (ExternalSession.metadata s) (ExternalSession.branch_count s)
      (ExternalSession.total_checkpoints s);
  ExternalSession.set_current_internal_session lg s :=
    (bool_decide (lg ∈ ExternalSession.internal_session_ids s), s) |}.

(** A checkpoint of internal session 1, by user 1. *)
Definition checkpoint (name : string) (is_auto : bool) : Checkpoint.t :=
  Checkpoint.mk None (Some 1%Z) (Some name) is_auto None (Some 1%Z) ∅.

(** [w2] after a manual checkpoint at 30 and automatic ones at 40, 40 and
    50: rows 1 to 4 of [checkpoints]. *)
Definition w6 : World :=
  let create := @CheckpointRepository.create sample_isoformat sample_checkpoint_methods in
  (create (checkpoint "auto-3" true) 50%Z
     (create (checkpoint "auto-2" true) 40%Z
        (create (checkpoint "auto-1" true) 40%Z
           (create (checkpoint "manual" false) 30%Z w2).2).2).2).2.

End RepoSamples.

Module StateSamples.
Import StateDiff.

(** States whose values other than dicts are integers or [None], compared
    by equality. *)
#[export] Instance int_or_none : PyValue (option Z) := {|
  py_none := None;
  py_eq a b := bool_decide (a = b) |}.

Definition state : Type := list (string * value (option Z)).

Definition user (name : Z) : state :=
  [("name", Other (Some name)); ("prefs", Nested [("theme", Other (Some 0%Z))])].

(** A state with a nested dict, and a later one: the counter has moved on,
    the user has another name, and there is a new key. *)
Definition old_state : state := [("counter", Other (Some 1%Z)); ("user", Nested (user 7))].
Definition new_state : state :=
  [("counter", Other (Some 2%Z)); ("user", Nested (user 8)); ("done", Other None)].

End StateSamples.

Module BranchSamples.

(** A current session of external session 1, branched from row 2. *)
Definition branch : InternalSession.t :=
  InternalSession.mk None 1 "lg-c" ∅ [] None true 0 (Some 2%Z) None 0 ∅.

(** [RepoSamples.w2] after [create(branch)]: row 3, the only current one,
    with row 2 as its parent. *)
Definition w3 : World := (InternalSessionRepository.create branch 30 RepoSamples.w2).2.

(** A session of user 1 to be created. *)
Definition notes : ExternalSession.t :=
  ExternalSession.mk None 1 "notes" None None true [] None ∅ 0 0.

End BranchSamples.

Module EnvironmentSamples.
Import DbConfig.

(** [os.path.abspath] in the working directory [/srv/agentgit]. *)
Definition sample_abspath (path : string) : string := "/srv/agentgit/" +:+ path.

(** A stand-in for [create_engine]: the engine is the URL with its
    options; the dialect name before [://] is looked up as it is written,
    and only [sqlite] and [postgresql] are known. *)
Inductive sample_error := ArgumentError | NoSuchModuleError.

Definition sample_create_engine (url : string) (options : EngineOptions) :
    sample_error + string * EngineOptions :=
  if startswith url "sqlite://" || startswith url "postgresql://" then inr (url, options)
  else if contains "://" url then inl NoSuchModuleError
  else inl ArgumentError.

(** An environment with [DATABASE=postgres] and no [DATABASE_URL]; the
    values need no stripping. *)
Definition sample_getenv (name : string) : option string :=
  if bool_decide (name = "DATABASE") then Some "postgres" else None.

Definition sample_strip (s : string) : string := s.

End EnvironmentSamples.

(** * Properties *)

(** ** diff.py *)

Module DiffFacts.
Import Diff DiffSpec.

Lemma strict_on_lt x y : (x < y)%Z → strict_on (Some x) (Some y) = Some true.
Proof. intros. unfold strict_on. case_match; [done | lia]. Qed.

Lemma strict_on_gt x y : (y < x)%Z → strict_on (Some x) (Some y) = Some false.
Proof. intros. unfold strict_on. repeat case_match; try done; lia. Qed.

Lemma strict_on_eq x : strict_on (Some x) (Some x) = None.
Proof. unfold strict_on. repeat case_match; try done; lia. Qed.

Lemma strict_on_None_l kb : strict_on None kb = None.
Proof. done. Qed.

Lemma strict_on_None_r ka : strict_on ka None = None.
Proof. by destruct ka. Qed.

(** Both present: equal keys give the first argument, distinct keys the
    strict comparison. *)
Ltac decide_key x y :=
  destruct (Z.eqb_spec x y) as [->|?];
  [ by rewrite Z.leb_refl
  | destruct (Z.leb_spec x y);
    [ rewrite strict_on_lt | rewrite strict_on_gt ]; first [ done | lia ] ].

(** The two length keys: the code and the cascade agree on them. *)
Lemma order_by_lengths (a b : checkpoint) :
  cascade [history_length; tools_length] a b =
  let la := length (default [] (conversation_history a)) in
  let lb := length (default [] (conversation_history b)) in
  let ta := length (default [] (tool_invocations a)) in
  let tb := length (default [] (tool_invocations b)) in
  if negb (la =? lb) then if la <=? lb then (a, b) else (b, a)
  else if negb (ta =? tb) then if ta <=? tb then (a, b) else (b, a)
  else (a, b).
Proof.
  unfold cascade, strict_on, history_length, tools_length.
  generalize (length (default [] (conversation_history a))) as la.
  generalize (length (default [] (conversation_history b))) as lb.
  generalize (length (default [] (tool_invocations a))) as ta.
  generalize (length (default [] (tool_invocations b))) as tb.
  intros tb ta lb la. cbv zeta.
  destruct (Nat.eqb_spec la lb), (Nat.eqb_spec ta tb),
    (Nat.leb_spec la lb), (Nat.leb_spec ta tb);
    repeat match goal with
    | |- context [(?x <? ?y)%Z] => destruct (Z.ltb_spec x y)
    end; simpl; first [done | lia].
Qed.

(** [_order_checkpoints] returns its two arguments, in one order or the
    other. *)
Lemma order_checkpoints_cases a b :
  _order_checkpoints a b = (a, b) ∨ _order_checkpoints a b = (b, a).
Proof. unfold _order_checkpoints. repeat case_match; auto. Qed.

(** C3 (amended).  [_order_checkpoints] follows the cascade [created_at],
    [id], [len(conversation_history)], [len(tool_invocations)] of the
    specification, except that a tie on an available [created_at] (or, when a
    [created_at] is missing, on an available [id]) is not passed on to the
    next key: it resolves at once to the first argument.  The cascade moves
    past [created_at] or [id] only when that attribute is missing on either
    side, and past a length only when the two lengths are equal. *)
Theorem order_checkpoints_cascade (a b : checkpoint) :
  _order_checkpoints a b =
  if tie_on_available_key a b then (a, b) else spec_order a b.
Proof.
  unfold spec_order, tie_on_available_key, _order_checkpoints.
  change (cascade [created_at; id; history_length; tools_length] a b)
    with (match strict_on (created_at a) (created_at b) with
          | Some true => (a, b) | Some false => (b, a)
          | None => match strict_on (id a) (id b) with
                    | Some true => (a, b) | Some false => (b, a)
                    | None => cascade [history_length; tools_length] a b
                    end
          end).
  rewrite order_by_lengths. cbv zeta.
  destruct (created_at a) as [ca|], (created_at b) as [cb|];
    rewrite ?strict_on_None_l, ?strict_on_None_r;
    [ decide_key ca cb | | | ];
    (destruct (id a) as [ia|], (id b) as [ib|];
     rewrite ?strict_on_None_l, ?strict_on_None_r; [ decide_key ia ib | done .. ]).
Qed.

(** C3, as stated, fails: with equal [created_at] the code does not go on to
    compare the ids. *)
Lemma order_checkpoints_not_cascade :
  _order_checkpoints DiffSamples.tie_a DiffSamples.tie_b
  ≠ spec_order DiffSamples.tie_a DiffSamples.tie_b.
Proof. vm_compute. discriminate. Qed.

Lemma dict_get_shows (record : dict) key dflt : shows record key dflt (dict_get record key dflt).
Proof. unfold shows, dict_get. by destruct (record !! key). Qed.

Lemma tool_change_is_record_at (position : nat) (record : dict) :
  is_record_at (tool_change (Z.of_nat position) record) position record.
Proof.
  unfold is_record_at, tool_change. cbn. split_and!; try apply dict_get_shows; [done |].
  unfold dict_get. by destruct (record !! "tool_name"), (record !! "tool").
Qed.

Section compare.
Variable _compare_dicts : dict → dict → list StateChange.
#[local] Abbreviation compare := (compare_checkpoints _compare_dicts).


Lemma compare_checkpoints_unfold a b :
  compare a b =
  let older := (_order_checkpoints a b).1 in
  let newer := (_order_checkpoints a b).2 in
  DiffReport.mk (id older) (id newer)
    (_compare_dicts (default ∅ (session_state older)) (default ∅ (session_state newer)))
    (_compare_tool_invocations (default [] (tool_invocations older))
                               (default [] (tool_invocations newer)))
    (_compare_conversations (default [] (conversation_history older))
                            (default [] (conversation_history newer)))
    (<["old_metadata" := JDict (default ∅ (metadata older))]>
       (<["new_metadata" := JDict (default ∅ (metadata newer))]> ∅)).
Proof. unfold compare_checkpoints. by destruct (_order_checkpoints a b). Qed.



(** C7.  The [tool_invocations] of the report are the records of the newer
    checkpoint at the positions from [len(older.tool_invocations)] up to
    [len(newer.tool_invocations)], in that order: the entry at [j] shows the
    record at position [len(older.tool_invocations) + j], field by field,
    with that position as its [index], and there is no entry beyond
    them. *)
Theorem tool_invocations_window (a b : checkpoint) :
  let old_tools := default [] (tool_invocations (_order_checkpoints a b).1) in
  let new_tools := default [] (tool_invocations (_order_checkpoints a b).2) in
  let section := DiffReport.tool_invocations (compare a b) in
  length section = length new_tools - length old_tools
  ∧ (∀ j : nat,
       section !! j
       = tool_change (Z.of_nat (length old_tools + j))
           <$> new_tools !! (length old_tools + j)%nat)
  ∧ (∀ (j : nat) c, section !! j = Some c → index c = Z.of_nat (length old_tools + j))
  ∧ (∀ j : nat,
       match new_tools !! (length old_tools + j)%nat with
       | Some record =>
           ∃ c, section !! j = Some c ∧ is_record_at c (length old_tools + j) record
       | None => section !! j = None
       end).
Proof.
  intros old_tools new_tools section.
  assert (section = _compare_tool_invocations old_tools new_tools) as ->.
  { unfold section. by rewrite compare_checkpoints_unfold. }
  unfold _compare_tool_invocations.
  assert (∀ j : nat,
    imap (λ i tool_inv, tool_change (Z.of_nat (length old_tools + i)) tool_inv)
      (drop (length old_tools) new_tools) !! j
    = tool_change (Z.of_nat (length old_tools + j))
        <$> new_tools !! (length old_tools + j)%nat) as Hlookup.
  { intros j. by rewrite list_lookup_imap, lookup_drop. }
  split_and!.
  - by rewrite length_imap, length_drop.
  - done.
  - intros j c. rewrite Hlookup. intros [t [_ ->]]%fmap_Some. done.
  - intros j. rewrite Hlookup.
    destruct (new_tools !! (length old_tools + j)%nat) as [record|]; [| done].
    eexists. split; [done |]. apply tool_change_is_record_at.
Qed.

End compare.



Lemma tool_invocations_window_witness :
  let section :=
    DiffReport.tool_invocations
      (compare_checkpoints DiffSamples.no_state_changes
         DiffSamples.three_tools DiffSamples.one_tool) in
  ∃ c, section !! 1 = Some c
       ∧ index c = 2%Z ∧ tool_name c = JStr "delete_file" ∧ args c = JDict ∅
       ∧ success c = JBool true.
Proof.
  cbv zeta.
  pose proof (proj2 (proj2 (proj2 (tool_invocations_window DiffSamples.no_state_changes
                         DiffSamples.three_tools DiffSamples.one_tool))) 1) as Hentry.
  cbn in Hentry. destruct Hentry as (c & Hc & Hindex & Hname & Hargs & _ & Hsuccess & _).
  exists c. split_and!; [exact Hc | exact Hindex | exact Hname | exact Hargs | exact Hsuccess].
Defined.

End DiffFacts.

(** ** Datetimes *)

Module DatetimeFacts.

Lemma string_length_app (s1 s2 : string) :
  String.length (s1 +:+ s2) = String.length s1 + String.length s2.
Proof.
  induction s1 as [|c s1 IH]; [done |].
  change (S (String.length (s1 +:+ s2)) = S (String.length s1 + String.length s2)).
  by rewrite IH.
Qed.

(** An aware datetime and a naive one never render alike. *)
Lemma isoformat_aware_naive `{Isoformat} (ts : datetime) :
  isoformat UTC ts ≠ isoformat Naive ts.
Proof.
  cbn. intros Heq. apply (f_equal String.length) in Heq.
  rewrite string_length_app in Heq. cbn in Heq. lia.
Qed.

Lemma isoformat_loaded_sqlite `{Isoformat} (ts : datetime) :
  isoformat (loaded_tzinfo SQLite) ts ≠ isoformat UTC ts.
Proof. intros Heq. by apply (isoformat_aware_naive ts). Qed.

End DatetimeFacts.

(** ** Database sessions *)

Module TransactionFacts.
Import Transactions.

Lemma hoare_ret {A} (P : Database → Prop) (a : A) (Q : A → Database → Prop) E :
  (∀ d, P d → Q a d) → hoare P (mret a) Q E.
Proof. intros HPQ w Hw. by apply HPQ. Qed.

Lemma hoare_bind {A B} P (m : Repo A) (f : A → Repo B) Q R E :
  hoare P m Q E → (∀ a, hoare (Q a) (f a) R E) → hoare P (m ≫= f) R E.
Proof.
  intros Hm Hf w Hw. unfold mbind, repo_bind.
  specialize (Hm w Hw). destruct (m w) as [[a|e] w']; [| done].
  by apply Hf.
Qed.

Lemma hoare_consequence {A} (P P' : Database → Prop) (m : Repo A)
    (Q Q' : A → Database → Prop) (E E' : Database → Prop) :
  hoare P' m Q' E' → (∀ d, P d → P' d) → (∀ a d, Q' a d → Q a d) →
  (∀ d, E' d → E d) → hoare P m Q E.
Proof.
  intros Hm HP HQ HE w Hw. specialize (Hm w (HP _ Hw)).
  destruct (m w) as [[a|e] w']; auto.
Qed.

Lemma hoare_assume {A} (P : Database → Prop) (φ : Prop) (m : Repo A) Q E :
  (φ → hoare P m Q E) → hoare (λ d, P d ∧ φ) m Q E.
Proof. intros Hm w [Hw Hφ]. by apply Hm. Qed.

(** The rule of [get_db_connection]: what the block leaves is committed, and
    when the block or the commit raises, the database of before the block
    is what remains. *)
Lemma hoare_connection {A} (P : Database → Prop) (body : Tx A)
    (Q : A → Database → Prop) (E : Database → Prop) :
  (∀ d, P d → E d) →
  (∀ d a d', P d → body d = Ok (a, d') → Q a d') →
  hoare P (get_db_connection body) Q E.
Proof.
  intros HE HQ w Hw. unfold get_db_connection.
  destruct (body (db w)) as [[a d']|e] eqn:Hbody; cbn.
  - destruct (next_fault w); cbn; eauto.
  - eauto.
Qed.

(** A session that raises leaves the database as it found it. *)
Lemma get_db_connection_raise {A} (body : Tx A) w e w' :
  get_db_connection body w = (Raise e, w') → db w' = db w.
Proof.
  unfold get_db_connection. intros Hrun.
  destruct (body (db w)) as [[a d']|e'];
    [destruct (next_fault w) |]; by simplify_eq.
Qed.

(** A session that returns has run its block and committed what it left. *)
Lemma get_db_connection_ok {A} (body : Tx A) w a w' :
  get_db_connection body w = (Ok a, w') →
  body (db w) = Ok (a, db w') ∧ next_fault w = false.
Proof.
  unfold get_db_connection. intros Hrun.
  destruct (body (db w)) as [[a' d']|e'];
    [destruct (next_fault w) |]; by simplify_eq.
Qed.

Lemma get_db_connection_returns {A} (body : Tx A) w a :
  (get_db_connection body w).1 = Ok a →
  body (db w) = Ok (a, db (get_db_connection body w).2) ∧ next_fault w = false.
Proof.
  intros Hrun. apply get_db_connection_ok. rewrite <- Hrun.
  by destruct (get_db_connection body w).
Qed.

(** Every session ends by closing, after a commit when it returns and a
    rollback when it raises. *)
Lemma get_db_connection_log {A} (body : Tx A) w :
  log (get_db_connection body w).2
  = log w ++ [match (get_db_connection body w).1 with
              | Ok _ => Commit
              | Raise _ => Rollback
              end; Close].
Proof.
  unfold get_db_connection.
  destruct (body (db w)) as [[a d']|e]; [destruct (next_fault w) |]; done.
Qed.

(** The key allocated to a new row is not in use. *)
Lemma next_id_fresh {A} (m : gmap Z A) : m !! next_id m = None.
Proof.
  destruct (m !! next_id m) as [x|] eqn:Hx; [exfalso | done].
  assert (∀ (l : list Z) k, k ∈ l → (k ≤ foldr Z.max 0 l)%Z) as Hmax.
  { induction l as [|y l IH]; intros k; [by rewrite elem_of_nil |].
    rewrite elem_of_cons. intros [->|Hk]; cbn; [lia |]. specialize (IH k Hk). lia. }
  assert (next_id m ∈ (map_to_list m).*1) as Hin.
  { apply list_elem_of_fmap. exists (next_id m, x). split; [done |].
    by apply elem_of_map_to_list. }
  apply Hmax in Hin. unfold next_id in Hin at 1. unfold next_id in Hin. lia.
Qed.

(** Without a store failure the session returns what its block returns. *)
Lemma get_db_connection_no_fault {A} (body : Tx A) w :
  next_fault w = false →
  get_db_connection body w =
  match body (db w) with
  | Ok (a, d') => (Ok a, mkWorld d' (tail (faults w)) (log w ++ [Commit; Close]))
  | Raise e => (Raise e, mkWorld (db w) (tail (faults w)) (log w ++ [Rollback; Close]))
  end.
Proof. unfold get_db_connection. intros ->. by destruct (body (db w)) as [[]|]. Qed.

(** Reading a triple at one run. *)
Lemma hoare_run {A} (m : Repo A) (Q : A → Database → Prop) (E : Database → Prop) w :
  hoare (λ d, d = db w) m Q E →
  match (m w).1 with
  | Ok a => Q a (db (m w).2)
  | Raise _ => E (db (m w).2)
  end.
Proof. intros Hm. specialize (Hm w eq_refl). by destruct (m w) as [[a|e] w']. Qed.

End TransactionFacts.

(** ** internal_session_repository.py *)

Module InternalSessionFacts.
Import InternalSessionModel InternalSessionRepository.
Import Transactions TransactionFacts InternalSessionSpec.

Lemma current_unique_alt d :
  current_unique d ↔ at_most_one_current (internal_sessions d).
Proof.
  unfold current_unique, currents. split.
  - intros Hsize i j ri rj Hi Hj Hext Hci Hcj.
    destruct (decide (i = j)) as [|Hne]; [done | exfalso].
    specialize (Hsize (external_session_id ri)).
    set (cs := filter _ _) in Hsize.
    assert (cs !! i = Some ri) as Hi' by (by apply map_lookup_filter_Some).
    assert (base.delete i cs !! j = Some rj) as Hj'.
    { rewrite lookup_delete_ne by done. by apply map_lookup_filter_Some. }
    pose proof (map_size_delete_Some i cs (ltac:(eauto))) as Hsz.
    assert (size (base.delete i cs) ≠ 0) as Hnz.
    { apply map_size_non_empty_iff. intros Hempty.
      by rewrite Hempty, lookup_empty in Hj'. }
    lia.
  - intros Hone e. set (cs := filter _ _).
    destruct (map_choose_or_empty cs) as [(i & ri & Hi)|Hempty];
      [| rewrite Hempty, map_size_empty; lia].
    assert (cs = {[i := ri]}) as ->; [| by rewrite map_size_singleton].
    apply map_eq. intros j. destruct (decide (j = i)) as [->|Hne].
    + by rewrite lookup_singleton_eq.
    + rewrite lookup_singleton_ne by done.
      destruct (cs !! j) as [rj|] eqn:Hj; [exfalso | done].
      apply map_lookup_filter_Some in Hi as (Hi & <- & Hci).
      apply map_lookup_filter_Some in Hj as (Hj & Hext & Hcj).
      apply Hne. symmetry. eapply Hone; eauto.
Qed.

Lemma lookup_mark_rows ext exclude_id m i :
  mark_rows ext exclude_id m !! i
  = (λ r, if marked ext exclude_id i r then set_is_current false r else r) <$> m !! i.
Proof. unfold mark_rows. rewrite map_lookup_imap. by destruct (m !! i). Qed.

Lemma mark_rows_at_most_one ext exclude_id m :
  at_most_one_current m → at_most_one_current (mark_rows ext exclude_id m).
Proof.
  intros Hone i j ri rj. rewrite !lookup_mark_rows.
  intros (ri' & Hi & ->)%fmap_Some (rj' & Hj & ->)%fmap_Some.
  destruct (marked _ _ i ri'), (marked _ _ j rj'); cbn; try done.
  by eapply Hone.
Qed.

(** After [_mark_all_not_current(ext)] no session of [ext] is current. *)
Lemma mark_rows_none_current ext m i r :
  mark_rows ext None m !! i = Some r →
  external_session_id r = ext → is_current r = false.
Proof.
  rewrite lookup_mark_rows. intros (r' & Hi & ->)%fmap_Some.
  unfold marked. cbn. destruct (Z.eqb_spec (external_session_id r') ext); cbn; [done |].
  done.
Qed.

Lemma mark_all_not_current_spec ext exclude_id d0 :
  hoare (λ d, d = d0) (_mark_all_not_current ext exclude_id)
    (λ _ d, d = marked_db ext exclude_id d0) (λ d, d = d0).
Proof.
  apply hoare_connection; [done |].
  intros d [] d' -> [= <-]. done.
Qed.

Lemma clear_siblings_spec session exclude_id d0 :
  hoare (λ d, d = d0)
    (if InternalSession.is_current session
     then _mark_all_not_current (InternalSession.external_session_id session) exclude_id
     else mret ())
    (λ _ d, d = cleared_db session exclude_id d0) (λ d, d = d0).
Proof.
  unfold cleared_db. destruct (InternalSession.is_current session).
  - apply mark_all_not_current_spec.
  - by apply hoare_ret.
Qed.

Lemma get_by_id_spec session_id d0 :
  hoare (λ d, d = d0) (get_by_id session_id)
    (λ o d, d = d0 ∧ o = _row_to_session session_id <$> internal_sessions d0 !! session_id)
    (λ d, d = d0).
Proof.
  apply hoare_connection; [done |].
  intros d o d' -> [= <- <-]. done.
Qed.

(** What [create] leaves behind: on return, the row inserted after the
    siblings were cleared (when the new session is current); on an
    exception, the database as it was or, when the session that clears the
    siblings had committed already, with the siblings cleared. *)
Lemma create_spec session now d0 :
  hoare (λ d, d = d0) (create session now)
    (λ session' d, ∃ new_id,
       add_flush (row_of session now) (cleared_db session None d0) = Ok (new_id, d)
       ∧ session' = InternalSession.set_id_created_at (Some new_id) (Some now) session)
    (λ d, d = d0 ∨ d = cleared_db session None d0).
Proof.
  unfold create.
  eapply hoare_bind with (Q := λ _ d, d = cleared_db session None d0).
  { eapply hoare_consequence; [apply clear_siblings_spec | naive_solver ..]. }
  intros _. apply hoare_connection; [auto |].
  intros d session' d' ->. fold (row_of session now).
  destruct (add_flush (row_of session now) _) as [[new_id d'']|] eqn:Hadd; [| done].
  intros [= <- <-]. eauto.
Qed.

Lemma update_spec session d0 :
  hoare (λ d, d = d0) (update session)
    (λ b d,
       match updatable session with
       | Some session_id =>
           let d1 := cleared_db session (Some session_id) d0 in
           d = assigned_db session_id (assign session) d1
           ∧ b = bool_decide (is_Some (internal_sessions d1 !! session_id))
       | None => b = false ∧ d = d0
       end)
    (λ d, d = d0
          ∨ ∃ session_id, updatable session = Some session_id
                          ∧ d = cleared_db session (Some session_id) d0).
Proof.
  unfold update, updatable.
  destruct (InternalSession.id session) as [session_id|]; [| by apply hoare_ret].
  destruct (session_id =? 0)%Z; [by apply hoare_ret |].
  eapply hoare_bind with (Q := λ _ d, d = cleared_db session (Some session_id) d0).
  { eapply hoare_consequence; [apply clear_siblings_spec | naive_solver ..]. }
  intros _. apply hoare_connection; [eauto |].
  intros d b d' ->. unfold assigned_db. cbv zeta.
  destruct (internal_sessions _ !! session_id) as [r|]; intros [= <- <-]; done.
Qed.

Lemma set_current_session_spec session_id d0 :
  hoare (λ d, d = d0) (set_current_session session_id)
    (λ b d,
       match internal_sessions d0 !! session_id with
       | Some r0 =>
           d = assigned_db session_id (set_is_current true)
                 (marked_db (external_session_id r0) None d0)
           ∧ b = true
       | None => b = false ∧ d = d0
       end)
    (λ d, d = d0
          ∨ ∃ r0, internal_sessions d0 !! session_id = Some r0
                  ∧ d = marked_db (external_session_id r0) None d0).
Proof.
  unfold set_current_session.
  eapply hoare_bind with
    (Q := λ o d, d = d0
                 ∧ o = _row_to_session session_id <$> internal_sessions d0 !! session_id).
  { eapply hoare_consequence; [apply get_by_id_spec | naive_solver ..]. }
  intros o. apply hoare_assume. intros ->.
  destruct (internal_sessions d0 !! session_id) as [r0|] eqn:Hrow; cbn [fmap option_fmap option_map].
  - eapply hoare_bind with (Q := λ _ d, d = marked_db (external_session_id r0) None d0).
    { eapply hoare_consequence; [apply mark_all_not_current_spec | naive_solver ..]. }
    intros _. apply hoare_connection; [eauto |].
    intros d b d' ->. unfold assigned_db.
    assert (is_Some (internal_sessions (marked_db (external_session_id r0) None d0)
                       !! session_id)) as [r1 Hr1].
    { cbn. rewrite lookup_mark_rows, Hrow. eauto. }
    cbn in Hr1 |- *. rewrite Hr1. intros [= <- <-]. done.
  - by apply hoare_ret.
Qed.

(** *** Current uniqueness is kept by [create] and [set_current_session],
    and by [update] when the session passed in belongs to the external
    session of the stored row. *)

Lemma mark_rows_excluding ext k m i r :
  k ≠ 0%Z → mark_rows ext (Some k) m !! i = Some r → i ≠ k →
  external_session_id r = ext → is_current r = false.
Proof.
  intros Hk. rewrite lookup_mark_rows. intros (r' & Hi & ->)%fmap_Some Hik.
  unfold marked, truthy_id.
  destruct (Z.eqb_spec k 0) as [|_]; [done |]. cbn.
  rewrite bool_decide_eq_false_2 by congruence. cbn.
  destruct (Z.eqb_spec (external_session_id r') ext); cbn; done.
Qed.

Lemma mark_rows_excluded ext k m :
  k ≠ 0%Z → mark_rows ext (Some k) m !! k = m !! k.
Proof.
  intros Hk. rewrite lookup_mark_rows. destruct (m !! k) as [r|]; [| done]. cbn.
  unfold marked, truthy_id.
  destruct (Z.eqb_spec k 0) as [|_]; [done |]. cbn.
  rewrite bool_decide_eq_true_2 by done. cbn. by rewrite andb_false_r.
Qed.

Lemma insert_at_most_one k r m :
  at_most_one_current m →
  (is_current r = true → ∀ j rj, m !! j = Some rj → j ≠ k →
     external_session_id rj = external_session_id r → is_current rj = false) →
  at_most_one_current (<[k := r]> m).
Proof.
  intros Hone Hothers i j ri rj Hi Hj Hext Hci Hcj.
  destruct (decide (i = k)) as [->|Hik], (decide (j = k)) as [->|Hjk]; [done | | |].
  - rewrite lookup_insert_eq in Hi. rewrite lookup_insert_ne in Hj by done.
    simplify_eq. specialize (Hothers Hci j rj Hj Hjk (eq_sym Hext)). congruence.
  - rewrite lookup_insert_eq in Hj. rewrite lookup_insert_ne in Hi by done.
    simplify_eq. specialize (Hothers Hcj i ri Hi Hik Hext). congruence.
  - rewrite lookup_insert_ne in Hi, Hj by done. by eapply Hone.
Qed.

Lemma cleared_db_at_most_one session exclude_id d :
  at_most_one_current (internal_sessions d) →
  at_most_one_current (internal_sessions (cleared_db session exclude_id d)).
Proof.
  unfold cleared_db. destruct (InternalSession.is_current session); [| done].
  apply mark_rows_at_most_one.
Qed.

Lemma add_flush_internal_sessions row d new_id d' :
  add_flush row d = Ok (new_id, d') →
  internal_sessions d' = <[new_id := row]> (internal_sessions d).
Proof. unfold add_flush. case_match; [| done]. by intros [= <- <-]. Qed.

Lemma create_current_unique session now w :
  current_unique (db w) → current_unique (db (create session now w).2).
Proof.
  rewrite !current_unique_alt. intros Hone.
  pose proof (hoare_run _ _ _ w (create_spec session now (db w))) as Hrun.
  destruct (create session now w).1 as [session'|e].
  - destruct Hrun as (new_id & Hadd%add_flush_internal_sessions & _). rewrite Hadd.
    apply insert_at_most_one; [by apply cleared_db_at_most_one |].
    cbn. unfold cleared_db. intros Hcur j rj Hj _ Hext.
    rewrite Hcur in Hj. cbn in Hj. by eapply mark_rows_none_current.
  - destruct Hrun as [->| ->]; [done | by apply cleared_db_at_most_one].
Qed.

Lemma assigned_db_internal_sessions k f d r :
  internal_sessions d !! k = Some r →
  internal_sessions (assigned_db k f d) = <[k := f r]> (internal_sessions d).
Proof. unfold assigned_db. by intros ->. Qed.

Lemma set_current_session_current_unique session_id w :
  current_unique (db w) → current_unique (db (set_current_session session_id w).2).
Proof.
  rewrite !current_unique_alt. intros Hone.
  pose proof (hoare_run _ _ _ w (set_current_session_spec session_id (db w))) as Hrun.
  destruct (set_current_session session_id w).1 as [b|e].
  - destruct (internal_sessions (db w) !! session_id) as [r0|] eqn:Hrow;
      [| by destruct Hrun as [_ ->]].
    destruct Hrun as [-> _].
    assert (internal_sessions (marked_db (external_session_id r0) None (db w)) !! session_id
            = Some (set_is_current false r0)) as Hr1.
    { cbn. rewrite lookup_mark_rows, Hrow. cbn. unfold marked. cbn.
      by rewrite Z.eqb_refl. }
    rewrite (assigned_db_internal_sessions _ _ _ _ Hr1).
    apply insert_at_most_one; [by apply mark_rows_at_most_one |].
    cbn. intros _ j rj Hj _ Hext. by eapply mark_rows_none_current.
  - destruct Hrun as [->|(r0 & _ & ->)]; [done | by apply mark_rows_at_most_one].
Qed.

Lemma update_current_unique session w :
  coherent session (db w) →
  current_unique (db w) → current_unique (db (update session w).2).
Proof.
  rewrite !current_unique_alt. intros Hcoh Hone.
  pose proof (hoare_run _ _ _ w (update_spec session (db w))) as Hrun.
  destruct (update session w).1 as [b|e].
  - destruct (updatable session) as [session_id|] eqn:Hid; [| by destruct Hrun as [_ ->]].
    destruct Hrun as [-> _].
    assert (InternalSession.id session = Some session_id ∧ session_id ≠ 0%Z) as [Hsid Hnz].
    { unfold updatable in Hid. destruct (InternalSession.id session) as [k|]; [| done].
      destruct (Z.eqb_spec k 0); by simplify_eq. }
    unfold assigned_db.
    destruct (internal_sessions (cleared_db session (Some session_id) (db w)) !! session_id)
      as [r|] eqn:Hr; [| by apply cleared_db_at_most_one].
    cbn. apply insert_at_most_one; [by apply cleared_db_at_most_one |].
    cbn. intros Hcur j rj Hj Hjk Hext.
    revert Hr Hj. unfold cleared_db. rewrite Hcur. cbn.
    rewrite mark_rows_excluded by done. intros Hr Hj.
    eapply mark_rows_excluding; [exact Hnz | exact Hj | done |].
    rewrite Hext. by eapply Hcoh.
  - destruct Hrun as [->|(session_id & _ & ->)]; [done | by apply cleared_db_at_most_one].
Qed.

(** [set_current_session] on a stored session makes it current and leaves
    no other session of its external session current. *)
Lemma set_current_session_makes_current session_id w r0 :
  internal_sessions (db w) !! session_id = Some r0 →
  (set_current_session session_id w).1 = Ok true →
  let m' := internal_sessions (db (set_current_session session_id w).2) in
  m' !! session_id = Some (set_is_current true r0)
  ∧ ∀ j rj, m' !! j = Some rj →
      external_session_id rj = external_session_id r0 → is_current rj = true →
      j = session_id.
Proof.
  intros Hrow Hok.
  pose proof (hoare_run _ _ _ w (set_current_session_spec session_id (db w))) as Hrun.
  rewrite Hok, Hrow in Hrun. destruct Hrun as [-> _].
  assert (internal_sessions (marked_db (external_session_id r0) None (db w)) !! session_id
          = Some (set_is_current false r0)) as Hr1.
  { cbn. rewrite lookup_mark_rows, Hrow. cbn. unfold marked. cbn.
    by rewrite Z.eqb_refl. }
  cbn zeta. rewrite (assigned_db_internal_sessions _ _ _ _ Hr1). split.
  - by rewrite lookup_insert_eq.
  - intros j rj Hj Hext Hcur. destruct (decide (j = session_id)) as [|Hne]; [done |].
    rewrite lookup_insert_ne in Hj by done.
    apply mark_rows_none_current in Hj; [congruence | done].
Qed.

(** Current uniqueness holds after any sequence of calls in which every
    [update] is passed a coherent session. *)
Lemma current_unique_run cs w :
  current_unique (db w) → coherent_calls cs w → current_unique (db (run cs w)).
Proof.
  revert w. induction cs as [|c cs IH]; intros w Hunique Hcalls; [done |].
  destruct Hcalls as [Hc Hcalls]. cbn. apply IH; [| done].
  destruct c as [session now|session|session_id]; cbn.
  - by apply create_current_unique.
  - by apply update_current_unique.
  - by apply set_current_session_current_unique.
Qed.

(** C1.  Current uniqueness does not survive [update]: the siblings it
    clears are those of the external session named by the object passed in,
    not those of the external session the stored row belongs to.  After
    [create(a)] (current) and [create(b)] (not current) in external session
    1, [update] of row 2 with [is_current = True] and
    [external_session_id = 2] leaves rows 1 and 2 both current in external
    session 1. *)
Theorem update_breaks_current_uniqueness :
  current_unique (db RepoSamples.w2)
  ∧ (update RepoSamples.stale RepoSamples.w2).1 = Ok true
  ∧ size (currents 1 (db (update RepoSamples.stale RepoSamples.w2).2)) = 2
  ∧ ¬ current_unique (db (update RepoSamples.stale RepoSamples.w2).2).
Proof.
  assert (size (currents 1 (db (update RepoSamples.stale RepoSamples.w2).2)) = 2) as Hsize
    by (by vm_compute).
  split_and!.
  - unfold RepoSamples.w2. do 2 apply create_current_unique.
    intros e. unfold currents. cbn. rewrite map_filter_empty, map_size_empty. lia.
  - by vm_compute.
  - exact Hsize.
  - intros Hunique. specialize (Hunique 1%Z). rewrite Hsize in Hunique. lia.
Qed.

(** *** The frame of [update] *)

Lemma identity_kept_refl r : identity_kept r r.
Proof. by repeat split. Qed.

Lemma frame_rows_refl target m : frame_rows target m m.
Proof.
  intros k. destruct (m !! k); [| done].
  case_decide; [apply identity_kept_refl | by left].
Qed.

Lemma frame_rows_cleared session session_id d :
  updatable session = Some session_id →
  frame_rows (Some session_id) (internal_sessions d)
    (internal_sessions (cleared_db session (Some session_id) d)).
Proof.
  intros Hid. unfold cleared_db.
  destruct (InternalSession.is_current session); [| apply frame_rows_refl].
  assert (session_id ≠ 0%Z) as Hnz.
  { unfold updatable in Hid. destruct (InternalSession.id session) as [k|]; [| done].
    destruct (Z.eqb_spec k 0); by simplify_eq. }
  intros k. cbn. case_decide as Hk.
  - simplify_eq. rewrite mark_rows_excluded by done.
    destruct (internal_sessions d !! k); [apply identity_kept_refl | done].
  - rewrite lookup_mark_rows. destruct (internal_sessions d !! k) as [r|]; [| done].
    cbn. destruct (marked _ _ k r); auto.
Qed.

Lemma frame_rows_assign session session_id m m1 r1 :
  frame_rows (Some session_id) m m1 → m1 !! session_id = Some r1 →
  frame_rows (Some session_id) m (<[session_id := assign session r1]> m1).
Proof.
  intros Hframe Hr1 k. specialize (Hframe k).
  destruct (decide (k = session_id)) as [->|Hne].
  - rewrite lookup_insert_eq. rewrite Hr1 in Hframe.
    destruct (m !! session_id) as [r|]; [| done].
    rewrite decide_True in Hframe |- * by done.
    destruct Hframe as (? & ? & ? & ? & ?). repeat split; cbn; congruence.
  - by rewrite lookup_insert_ne.
Qed.

(** C10.  [update(session)] leaves the other tables alone, adds and removes
    no row of [internal_sessions], leaves [langgraph_session_id],
    [external_session_id], [parent_session_id],
    [branch_point_checkpoint_id] and [created_at] of the target row as they
    were, and changes any other row at most by clearing its [is_current];
    whether it returns or raises. *)
Theorem update_frame (session : InternalSession.t) (w : World) :
  let d := db w in
  let d' := db (update session w).2 in
  users d' = users d
  ∧ external_sessions d' = external_sessions d
  ∧ checkpoints d' = checkpoints d
  ∧ frame_rows (InternalSession.id session) (internal_sessions d) (internal_sessions d').
Proof.
  intros d d'.
  assert (d' = d
          ∨ ∃ session_id, updatable session = Some session_id
              ∧ (d' = cleared_db session (Some session_id) d
                 ∨ d' = assigned_db session_id (assign session)
                          (cleared_db session (Some session_id) d))) as Hcases.
  { pose proof (hoare_run _ _ _ w (update_spec session (db w))) as Hrun.
    fold d d' in Hrun. destruct (update session w).1 as [b|e].
    - destruct (updatable session) as [session_id|]; [| by left; destruct Hrun].
      right. exists session_id. destruct Hrun as [-> _]. auto.
    - destruct Hrun as [|(session_id & ? & ?)]; eauto. }
  destruct Hcases as [->|(session_id & Hid & Hd')];
    [by split_and!; [..| apply frame_rows_refl] |].
  assert (InternalSession.id session = Some session_id) as ->.
  { unfold updatable in Hid. destruct (InternalSession.id session) as [k|]; [| done].
    destruct (k =? 0)%Z; by simplify_eq. }
  pose proof (frame_rows_cleared session session_id d Hid) as Hframe.
  assert (∀ x : Database, x = cleared_db session (Some session_id) d →
            users x = users d ∧ external_sessions x = external_sessions d
            ∧ checkpoints x = checkpoints d) as Hothers.
  { intros x ->. unfold cleared_db. by destruct (InternalSession.is_current session). }
  destruct Hd' as [->| ->]; [by destruct (Hothers _ eq_refl) as (? & ? & ?) |].
  unfold assigned_db.
  destruct (internal_sessions (cleared_db session (Some session_id) d) !! session_id)
    as [r1|] eqn:Hr1; [| by destruct (Hothers _ eq_refl) as (? & ? & ?)].
  cbn. destruct (Hothers _ eq_refl) as (? & ? & ?). split_and!; try done.
  by apply frame_rows_assign.
Qed.

End InternalSessionFacts.

(** ** checkpoint_repository.py *)

Module CheckpointFacts.
Import CheckpointModel CheckpointRepository.
Import Transactions DatetimeFacts TransactionFacts CheckpointSpec.

#[local] Instance newer_first_total : Total newer_first.
Proof. intros x y. unfold newer_first. lia. Qed.

#[local] Instance newer_first_trans : Transitive newer_first.
Proof. intros x y z. unfold newer_first. lia. Qed.

Lemma order_by_sorted rows :
  StronglySorted newer_first (order_by_created_at_desc_id_desc rows).
Proof. apply StronglySorted_merge_sort; apply _. Qed.

Lemma order_by_elem_of rows x :
  x ∈ order_by_created_at_desc_id_desc rows ↔ x ∈ rows.
Proof. unfold order_by_created_at_desc_id_desc. by rewrite merge_sort_Permutation. Qed.

Lemma order_by_length rows :
  length (order_by_created_at_desc_id_desc rows) = length rows.
Proof. unfold order_by_created_at_desc_id_desc. by rewrite merge_sort_Permutation. Qed.

(** Rows with distinct keys that are sorted are strictly sorted. *)
Lemma sorted_strictly rows :
  NoDup rows.*1 → StronglySorted newer_first rows → StronglySorted strictly_newer rows.
Proof.
  induction rows as [|x rows IH]; [constructor |].
  rewrite fmap_cons, NoDup_cons. intros [Hx Hdup] Hsorted.
  apply StronglySorted_inv in Hsorted as [Hsorted Hall].
  constructor; [by apply IH |].
  rewrite Forall_forall in Hall |- *. intros y Hy.
  assert (y.1 ≠ x.1) as Hne.
  { intros Heq. apply Hx. rewrite <- Heq. by apply list_elem_of_fmap_2. }
  specialize (Hall y Hy). unfold newer_first in Hall. unfold strictly_newer. lia.
Qed.

Lemma strictly_sorted_take n rows :
  StronglySorted strictly_newer rows → StronglySorted strictly_newer (take n rows).
Proof.
  intros Hsorted. revert n. induction Hsorted as [|x rows Hs IH Hall]; intros [|n]; cbn;
    try constructor; [by apply IH | by apply Forall_take].
Qed.

Section facts.
Context `{Isoformat, Checkpoint.Methods}.

Lemma rows_by_internal_session_elem_of s auto_only d x :
  x ∈ rows_by_internal_session s auto_only d
  ↔ checkpoints d !! x.1 = Some x.2 ∧ of_session s auto_only x.
Proof.
  unfold rows_by_internal_session.
  rewrite order_by_elem_of, list_elem_of_filter, elem_of_map_to_list'. tauto.
Qed.

Lemma rows_by_internal_session_NoDup s auto_only d :
  NoDup (rows_by_internal_session s auto_only d).*1.
Proof.
  unfold rows_by_internal_session, order_by_created_at_desc_id_desc.
  rewrite merge_sort_Permutation.
  eapply sublist_NoDup; [apply (NoDup_fst_map_to_list (checkpoints d)) |].
  apply fmap_sublist, sublist_filter.
Qed.

Lemma rows_by_internal_session_sorted s auto_only d :
  StronglySorted strictly_newer (rows_by_internal_session s auto_only d).
Proof.
  apply sorted_strictly; [apply rows_by_internal_session_NoDup |].
  apply order_by_sorted.
Qed.

Lemma rows_by_user_sorted u lim d :
  StronglySorted strictly_newer (rows_by_user u lim d).
Proof.
  assert (StronglySorted strictly_newer
            (order_by_created_at_desc_id_desc
               (filter (λ x, user_id x.2 = Some u) (map_to_list (checkpoints d))))) as Hs.
  { apply sorted_strictly; [| apply order_by_sorted].
    unfold order_by_created_at_desc_id_desc. rewrite merge_sort_Permutation.
    eapply sublist_NoDup; [apply (NoDup_fst_map_to_list (checkpoints d)) |].
    apply fmap_sublist, sublist_filter. }
  unfold rows_by_user. destruct lim as [[|n]|]; try done.
  by apply strictly_sorted_take.
Qed.

Lemma rows_by_user_elem_of u lim d x :
  x ∈ rows_by_user u lim d → checkpoints d !! x.1 = Some x.2 ∧ user_id x.2 = Some u.
Proof.
  assert (x ∈ order_by_created_at_desc_id_desc
                (filter (λ x, user_id x.2 = Some u) (map_to_list (checkpoints d)))
          → checkpoints d !! x.1 = Some x.2 ∧ user_id x.2 = Some u) as Hall.
  { rewrite order_by_elem_of, list_elem_of_filter, elem_of_map_to_list'. tauto. }
  unfold rows_by_user, limit. destruct lim as [[|n]|]; try done.
  intros Hx. apply Hall. eapply elem_of_sublist; [exact Hx | apply sublist_take].
Qed.

Lemma row_to_checkpoint_id x : Checkpoint.id (_row_to_checkpoint x) = Some x.1.
Proof. done. Qed.

(** C8.  [get_by_internal_session] (with or without [auto_only]) and
    [get_by_user] return when the store does not fail, and what they return
    is the conversion, row by row, of a list of rows strictly sorted by
    [(created_at DESC, id DESC)]: the checkpoints of the session (the
    automatic ones with [auto_only]), or checkpoints of the user. *)
Theorem listings_sorted (w : World) (s : Z) (auto_only : bool) (u : Z) (lim : option nat) :
  let by_session := get_by_internal_session s auto_only w in
  let by_user := get_by_user u lim w in
  (next_fault w = false → (∃ cps, by_session.1 = Ok cps) ∧ (∃ cps, by_user.1 = Ok cps))
  ∧ (∀ cps, by_session.1 = Ok cps →
       ∃ rows, cps = _row_to_checkpoint <$> rows
         ∧ Checkpoint.id <$> cps = Some <$> rows.*1
         ∧ StronglySorted strictly_newer rows
         ∧ ∀ x, x ∈ rows ↔ checkpoints (db w) !! x.1 = Some x.2 ∧ of_session s auto_only x)
  ∧ (∀ cps, by_user.1 = Ok cps →
       ∃ rows, cps = _row_to_checkpoint <$> rows
         ∧ Checkpoint.id <$> cps = Some <$> rows.*1
         ∧ StronglySorted strictly_newer rows
         ∧ ∀ x, x ∈ rows → checkpoints (db w) !! x.1 = Some x.2 ∧ user_id x.2 = Some u).
Proof.
  intros by_session by_user. split_and!.
  - intros Hfault. unfold by_session, by_user, get_by_internal_session, get_by_user.
    rewrite !get_db_connection_no_fault by done. cbn. eauto.
  - intros cps Hrun. unfold by_session, get_by_internal_session in Hrun.
    apply get_db_connection_returns in Hrun as [[= <- _] _].
    exists (rows_by_internal_session s auto_only (db w)). split_and!.
    + done.
    + rewrite <- !list_fmap_compose. done.
    + apply rows_by_internal_session_sorted.
    + apply rows_by_internal_session_elem_of.
  - intros cps Hrun. unfold by_user, get_by_user in Hrun.
    apply get_db_connection_returns in Hrun as [[= <- _] _].
    exists (rows_by_user u lim (db w)). split_and!.
    + done.
    + rewrite <- !list_fmap_compose. done.
    + apply rows_by_user_sorted.
    + apply rows_by_user_elem_of.
Qed.

(** C9.  [get_latest_checkpoint(s)] is the first element of
    [get_by_internal_session(s)], [None] when that list is empty and only
    then; the two calls raise together. *)
Theorem latest_checkpoint_is_head (s : Z) (w : World) :
  get_latest_checkpoint s w
  = (outcome_map head (get_by_internal_session s false w).1,
     (get_by_internal_session s false w).2)
  ∧ ∀ cps, (get_by_internal_session s false w).1 = Ok cps →
      ((get_latest_checkpoint s w).1 = Ok None ↔ cps = []).
Proof.
  assert (∀ rows : list (Z * CheckpointModel.t),
            _row_to_checkpoint <$> first rows = head (_row_to_checkpoint <$> rows)) as Hfirst.
  { intros [|x rows]; done. }
  assert (get_latest_checkpoint s w
          = (outcome_map head (get_by_internal_session s false w).1,
             (get_by_internal_session s false w).2)) as Heq.
  { unfold get_latest_checkpoint, get_by_internal_session, get_db_connection.
    rewrite Hfirst. by destruct (next_fault w). }
  split; [done |].
  intros cps Hcps. rewrite Heq, Hcps. cbn. destruct cps; naive_solver.
Qed.

Lemma add_flush_checkpoints row d new_id d1 :
  add_flush row d = Ok (new_id, d1) →
  d1 = with_checkpoints (<[new_id := row]> (checkpoints d)) d.
Proof. unfold add_flush. case_match; [| done]. by intros [= <- <-]. Qed.

(** After [create(c)], which returns when the store does not fail and the
    foreign keys of [c] are satisfied, the row stored under the returned id
    has the instant of the flush as its [created_at] column, and as payload
    the dict of [c] with ["created_at"] set to the ISO form of the aware
    datetime of the flush, the [created_at] of the checkpoint returned.  A
    later session renders the column like that on PostgreSQL, and otherwise
    on SQLite, which gives the column back without its offset. *)
Lemma create_payload (c : Checkpoint.t) (now : datetime) (w : World) :
  let run := create c now w in
  (next_fault w = false → insertable c (db w) → ∃ c', run.1 = Ok c')
  ∧ ∀ c', run.1 = Ok c' →
      ∃ new_id r,
        Checkpoint.id c' = Some new_id
        ∧ checkpoints (db run.2) !! new_id = Some r
        ∧ created_at r = now
        ∧ Checkpoint.created_at c' = Some now
        ∧ checkpoint_data r
          = <["created_at" := JStr (isoformat UTC now)]> (Checkpoint.to_dict c)
        ∧ payload_coherent PostgreSQL r
        ∧ ¬ payload_coherent SQLite r
        ∧ (coherence PostgreSQL (db w) → coherence PostgreSQL (db run.2)).
Proof.
  intros run. split.
  - intros Hfault [(s & Hs & Hrow) Huser]. unfold run, create.
    rewrite get_db_connection_no_fault by done. rewrite Hs. unfold add_flush. cbn.
    rewrite bool_decide_eq_true_2 by done.
    destruct (Checkpoint.user_id c) as [u|]; cbn; [| by eauto].
    rewrite bool_decide_eq_true_2 by auto. cbn. by eauto.
  - intros c' Hrun. unfold run in *. clear run.
    remember (db (create c now w).2) as d' eqn:Hd'.
    unfold create in Hrun. apply get_db_connection_returns in Hrun as [Hbody _].
    change (db (get_db_connection _ w).2) with (db (create c now w).2) in Hbody.
    rewrite <- Hd' in Hbody. clear Hd'.
    destruct (Checkpoint.internal_session_id c) as [s|]; [| done].
    destruct (add_flush _ (db w)) as [[new_id d1]|] eqn:Hadd; [| done].
    apply add_flush_checkpoints in Hadd as ->.
    injection Hbody as <- <-. cbn. rewrite alter_insert_eq. cbn.
    eexists new_id, _.
    split_and!; [done | apply lookup_insert_eq | done | done | done | | |].
    + unfold payload_coherent. cbn. apply lookup_insert_eq.
    + unfold payload_coherent. cbn. rewrite lookup_insert_eq. intros [= Heq].
      by apply (isoformat_aware_naive now).
    + intros Hcoh. apply map_Forall_insert_2; [| done].
      unfold payload_coherent. cbn. apply lookup_insert_eq.
Qed.

(** Deleting checkpoints keeps payload and column in agreement on the rows
    that stay. *)
Lemma delete_checkpoints_coherence (backend : Backend) (P : Z * CheckpointModel.t → Prop)
    `{!∀ x, Decision (P x)} d :
  coherence backend d → coherence backend (delete_checkpoints P d).2.
Proof.
  intros Hcoh i r [Hr _]%map_lookup_filter_Some. by apply (Hcoh i r).
Qed.

(** Had the patched dict not been flagged, the commit would have left the
    payload as [to_dict] made it. *)
Remark unflagged_patch_is_lost new_id data' d1 : write_back new_id data' false d1 = d1.
Proof. done. Qed.

Lemma delete_checkpoints_ext (P Q : Z * CheckpointModel.t → Prop)
    `{!∀ x, Decision (P x), !∀ x, Decision (Q x)} d :
  (∀ i r, checkpoints d !! i = Some r → P (i, r) ↔ Q (i, r)) →
  delete_checkpoints P d = delete_checkpoints Q d.
Proof.
  intros HPQ. unfold delete_checkpoints.
  assert (filter P (checkpoints d) = filter Q (checkpoints d)) as ->
    by (by apply map_filter_ext).
  assert (filter (λ x, ¬ P x) (checkpoints d) = filter (λ x, ¬ Q x) (checkpoints d)) as ->.
  { apply map_filter_ext. intros i r Hr. by rewrite (HPQ i r Hr). }
  done.
Qed.

(** *** Pruning *)

Lemma strictly_newer_irrefl x : ¬ strictly_newer x x.
Proof. unfold strictly_newer. lia. Qed.

Lemma strictly_newer_asym x y : strictly_newer x y → ¬ strictly_newer y x.
Proof. unfold strictly_newer. lia. Qed.

(** In a strictly sorted list the rows more recent than a row are those
    before it. *)
Lemma strictly_sorted_rank rows k x :
  StronglySorted strictly_newer rows → rows !! k = Some x →
  length (filter (λ y, strictly_newer y x) rows) = k.
Proof.
  intros Hsorted. revert k. induction Hsorted as [|h rows Hsorted IH Hall]; intros k; [done |].
  rewrite Forall_forall in Hall. destruct k as [|k]; intros Hk; cbn in Hk.
  - injection Hk as ->. rewrite filter_cons_False by apply strictly_newer_irrefl.
    apply length_zero_iff_nil.
    clear IH Hsorted. induction rows as [|y rows IHrows]; [done |].
    rewrite filter_cons_False.
    + apply IHrows. intros z Hz. apply Hall. by right.
    + apply strictly_newer_asym, Hall. by left.
  - rewrite filter_cons_True.
    + cbn. f_equal. by apply IH.
    + apply Hall. by eapply list_elem_of_lookup_2.
Qed.

(** A list without duplicates that holds the rows of a table with a
    property is as long as the table filtered by that property is large. *)
Lemma length_rows_size {A} (P : Z * A → Prop) `{!∀ x, Decision (P x)} (m : gmap Z A) rows :
  NoDup rows → (∀ x, x ∈ rows ↔ m !! x.1 = Some x.2 ∧ P x) →
  length rows = size (filter P m).
Proof.
  intros Hdup Hrows. rewrite <- length_map_to_list. apply Permutation_length.
  apply NoDup_Permutation; [done | apply NoDup_map_to_list |].
  intros [i r]. rewrite Hrows, elem_of_map_to_list, map_lookup_filter_Some. done.
Qed.

Lemma NoDup_fst {A B} (l : list (A * B)) : NoDup l.*1 → NoDup l.
Proof. apply NoDup_fmap_1. Qed.

Section rank.
Context (s : Z) (d : Database).

Let rows := rows_by_internal_session s true d.

Lemma auto_rows_elem_of x :
  x ∈ rows ↔ checkpoints d !! x.1 = Some x.2 ∧ auto_of s x.
Proof.
  unfold rows. rewrite rows_by_internal_session_elem_of. unfold of_session, auto_of.
  split; intros (Hx & Hs & Hauto); auto.
Qed.

Lemma auto_rows_length : length rows = size (auto_checkpoints s d).
Proof.
  apply length_rows_size; [apply NoDup_fst, rows_by_internal_session_NoDup |].
  apply auto_rows_elem_of.
Qed.

(** The position of an auto-checkpoint in the listing of the code is the
    number of auto-checkpoints more recent than it. *)
Lemma auto_rows_rank k x : rows !! k = Some x → more_recent s d x = k.
Proof.
  intros Hk. rewrite <- (strictly_sorted_rank rows k x);
    [| apply rows_by_internal_session_sorted | done].
  unfold more_recent, auto_checkpoints. rewrite map_filter_filter. symmetry.
  apply length_rows_size.
  - apply NoDup_filter, NoDup_fst, rows_by_internal_session_NoDup.
  - intros y. rewrite list_elem_of_filter, auto_rows_elem_of. cbn. tauto.
Qed.

Lemma auto_rows_take n x :
  x ∈ take n rows ↔ checkpoints d !! x.1 = Some x.2 ∧ auto_of s x ∧ more_recent s d x < n.
Proof.
  rewrite elem_of_take. split.
  - intros (k & Hk & Hlt). rewrite (auto_rows_rank k x Hk).
    apply list_elem_of_lookup_2, auto_rows_elem_of in Hk. tauto.
  - intros (Hx & Hauto & Hlt).
    assert (x ∈ rows) as (k & Hk)%list_elem_of_lookup_1 by (by apply auto_rows_elem_of).
    exists k. split; [done |]. by rewrite <- (auto_rows_rank k x Hk).
Qed.

(** The two ways of saying which rows go: by the listing of the code, and
    by the number of more recent auto-checkpoints. *)
Lemma pruned_by_listing n x :
  checkpoints d !! x.1 = Some x.2 →
  (auto_of s x ∧ x.1 ∉ (take n rows).*1) ↔ pruned s n d x.
Proof.
  intros Hx. unfold pruned.
  assert (x.1 ∈ (take n rows).*1 ↔ x ∈ take n rows) as ->.
  { split; [| apply list_elem_of_fmap_2].
    intros ([i r] & Hi & Hy)%list_elem_of_fmap. cbn in Hi.
    pose proof Hy as Hy'. apply auto_rows_take in Hy' as [Hr _]. cbn in Hr.
    destruct x as [j r']. cbn in Hi, Hx. subst j. by simplify_eq. }
  rewrite auto_rows_take. split.
  - intros [Hauto Hout]. split; [done |].
    destruct (decide (n ≤ more_recent s d x)); [done |]. destruct Hout. split_and!; [done.. | lia].
  - intros [Hauto Hle]. split; [done |]. intros (_ & _ & Hlt). lia.
Qed.

End rank.

(** Both branches of [delete_auto_checkpoints] delete the same rows. *)
Lemma delete_auto_checkpoints_no_fault s n w :
  next_fault w = false →
  delete_auto_checkpoints s n w
  = (Ok (delete_checkpoints (pruned s n (db w)) (db w)).1,
     mkWorld (delete_checkpoints (pruned s n (db w)) (db w)).2 (tail (faults w))
       (log w ++ [Commit; Close])).
Proof.
  intros Hfault. unfold delete_auto_checkpoints, get_db_connection.
  rewrite Hfault. cbv zeta. unfold limit. case_bool_decide as Hkeep.
  - rewrite (delete_checkpoints_ext _ (pruned s n (db w))); [done |].
    intros i r Hr. rewrite <- (pruned_by_listing s (db w) n (i, r) Hr).
    unfold auto_of. cbn. tauto.
  - rewrite (delete_checkpoints_ext _ (pruned s n (db w))); [done |].
    intros i r Hr. rewrite <- (pruned_by_listing s (db w) n (i, r) Hr).
    rewrite Hkeep. unfold auto_of. cbn. rewrite elem_of_nil. tauto.
Qed.

(** The auto-checkpoints of [s] that stay are its [n] most recent. *)
Lemma kept_auto_checkpoints s n d :
  size (filter (λ x, auto_of s x ∧ more_recent s d x < n) (checkpoints d))
  = n `min` size (auto_checkpoints s d).
Proof.
  rewrite <- auto_rows_length, <- length_take. symmetry. apply length_rows_size.
  - apply NoDup_fst. eapply sublist_NoDup; [apply rows_by_internal_session_NoDup |].
    apply fmap_sublist, sublist_take.
  - intros x. rewrite auto_rows_take. tauto.
Qed.

Lemma null_if_gone_empty {A} (ref : option Z) : null_if_gone (∅ : gmap Z A) ref = ref.
Proof.
  destruct ref as [k|]; [| done]. cbn.
  rewrite bool_decide_eq_false_2; [done |]. rewrite lookup_empty. by intros [? ?].
Qed.

Lemma set_null_empty {A} (m : gmap Z InternalSessionModel.t) :
  (λ r, InternalSessionModel.set_branch_point_checkpoint_id
          (null_if_gone (∅ : gmap Z A) (InternalSessionModel.branch_point_checkpoint_id r)) r)
    <$> m = m.
Proof.
  rewrite <- (map_fmap_id m) at 2. apply map_fmap_ext. intros i r _.
  rewrite null_if_gone_empty. by destruct r.
Qed.

(** C6.  Without a store failure [delete_auto_checkpoints(s, keep_latest=n)]
    returns the number of rows it deletes, and these are exactly the
    auto-checkpoints of [s] other than its [n] most recent by
    [(created_at DESC, id DESC)], that is, those with [n] or more
    auto-checkpoints of [s] more recent than they are: of the
    auto-checkpoints of [s] the [n] most recent stay, or all of them when
    they are fewer; no manual checkpoint goes; with [n = 0] no
    auto-checkpoint of [s] stays; and with at most [n] auto-checkpoints
    nothing changes. *)
Theorem delete_auto_checkpoints_post (s : Z) (n : nat) (w : World) :
  next_fault w = false →
  let d := db w in
  let gone := filter (pruned s n d) (checkpoints d) in
  let run := delete_auto_checkpoints s n w in
  let d' := db run.2 in
  run.1 = Ok (Z.of_nat (size gone))
  ∧ checkpoints d' = filter (λ x, ¬ pruned s n d x) (checkpoints d)
  ∧ size (checkpoints d) = size (checkpoints d') + size gone
  ∧ (∀ i r, checkpoints d !! i = Some r → is_auto r = false →
       checkpoints d' !! i = Some r)
  ∧ (n = 0 → ∀ i r, checkpoints d' !! i = Some r →
       ¬ (internal_session_id r = s ∧ is_auto r = true))
  ∧ (size (auto_checkpoints s d) ≤ n → d' = d ∧ size gone = 0)
  ∧ (∀ i r, checkpoints d !! i = Some r → auto_of s (i, r) →
       (checkpoints d' !! i = Some r ↔ more_recent s d (i, r) < n))
  ∧ size (auto_checkpoints s d') = n `min` size (auto_checkpoints s d).
Proof.
  intros Hfault d gone run d'.
  assert (run.1 = Ok (Z.of_nat (size gone))
          ∧ d' = (delete_checkpoints (pruned s n d) d).2) as [Hrun Hd'].
  { unfold d', run. by rewrite delete_auto_checkpoints_no_fault. }
  rewrite Hd'. split_and!.
  - done.
  - done.
  - cbn. fold gone.
    rewrite <- (map_filter_union_complement (pruned s n d) (checkpoints d)) at 1.
    rewrite map_size_disj_union by apply map_disjoint_filter_complement. fold gone. lia.
  - intros i r Hr Hmanual. cbn. apply map_lookup_filter_Some. split; [done |].
    unfold pruned, auto_of. cbn. intros [[_ Hauto] _]. congruence.
  - intros -> i r [Hr Hkept]%map_lookup_filter_Some Hauto. apply Hkept.
    split; [done | lia].
  - intros Hshort.
    assert (∀ i r, checkpoints d !! i = Some r → ¬ pruned s n d (i, r)) as Hnone.
    { intros i r Hr [Hauto Hle].
      assert (more_recent s d (i, r) < size (auto_checkpoints s d)); [| lia].
      unfold more_recent.
      apply (map_subset_size (filter _ (auto_checkpoints s d)) (auto_checkpoints s d)).
      apply map_subset_alt. split; [apply map_filter_subseteq |].
      exists i. split.
      - apply map_lookup_filter_None. right. intros r' Hr' Hnewer.
        apply map_lookup_filter_Some in Hr' as [Hr' _]. simplify_eq.
        by apply strictly_newer_irrefl in Hnewer.
      - exists r. by apply map_lookup_filter_Some. }
    assert (gone = ∅) as Hgone.
    { apply map_eq. intros i. rewrite lookup_empty. apply map_lookup_filter_None.
      right. intros r Hr. by apply Hnone. }
    split; [| by rewrite Hgone, map_size_empty].
    unfold delete_checkpoints. fold gone. rewrite Hgone. cbn.
    rewrite set_null_empty, map_filter_id by done. by destruct d.
  - intros i r Hr Hauto. cbn. rewrite map_lookup_filter_Some. unfold pruned. cbn.
    split.
    + intros [_ Hkept]. destruct (decide (more_recent s d (i, r) < n)); [done |].
      destruct Hkept. split; [done | lia].
    + intros Hlt. split; [done |]. intros [_ Hle]. lia.
  - rewrite <- kept_auto_checkpoints. unfold auto_checkpoints at 1. cbn.
    rewrite map_filter_filter. f_equal. apply map_filter_ext.
    intros i r Hr. unfold pruned. cbn. split.
    + intros [Hauto Hkept]. split; [done |].
      destruct (decide (more_recent s d (i, r) < n)); [done |].
      destruct Hkept. split; [done | lia].
    + intros [Hauto Hlt]. split; [done |]. intros [_ Hle]. lia.
Qed.

End facts.

(** The listing of the sample database: the two checkpoints created at 40
    come with the larger id first. *)
Example rows_by_internal_session_sample :
  (rows_by_internal_session 1 false (db RepoSamples.w6)).*1 = [4; 3; 2; 1]%Z
  ∧ (rows_by_internal_session 1 true (db RepoSamples.w6)).*1 = [4; 3; 2]%Z.
Proof. split; by vm_compute. Qed.

(** Keeping the latest auto-checkpoint of the sample database deletes rows
    2 and 3 and leaves the manual row 1 and the automatic row 4. *)
Example delete_auto_checkpoints_sample :
  let run := delete_auto_checkpoints 1 1 RepoSamples.w6 in
  run.1 = Ok 2%Z ∧ dom (checkpoints (db run.2)) = {[1%Z; 4%Z]}.
Proof. split; by vm_compute. Qed.

(** C5.  The ["created_at"] of the payload does not equal the ISO form of
    the [created_at] column for any checkpoint that [create] stores on
    SQLite: the payload carries the ISO form of the aware datetime of the
    flush, with its offset, and the column that a later session loads
    renders without one.  So it is for the first checkpoint of the sample
    database, created at instant 30: ["30+00:00"] against ["30"].  On
    PostgreSQL the two agree. *)
Theorem create_breaks_payload_coherence :
  (∀ (iso : Isoformat) (methods : Checkpoint.Methods) c now w c',
     (create c now w).1 = Ok c' →
     ∃ new_id r,
       Checkpoint.id c' = Some new_id
       ∧ checkpoints (db (create c now w).2) !! new_id = Some r
       ∧ checkpoint_data r !! "created_at" = Some (JStr (isoformat UTC (created_at r)))
       ∧ isoformat (loaded_tzinfo SQLite) (created_at r) ≠ isoformat UTC (created_at r)
       ∧ ¬ payload_coherent SQLite r
       ∧ payload_coherent PostgreSQL r)
  ∧ (let run :=
       @create RepoSamples.sample_isoformat RepoSamples.sample_checkpoint_methods
         (RepoSamples.checkpoint "manual" false) 30 RepoSamples.w2 in
     ∃ c' r,
       run.1 = Ok c'
       ∧ Checkpoint.id c' = Some 1%Z
       ∧ checkpoints (db run.2) !! 1%Z = Some r
       ∧ checkpoint_data r !! "created_at" = Some (JStr "30+00:00")
       ∧ @isoformat RepoSamples.sample_isoformat (loaded_tzinfo SQLite) (created_at r) = "30"
       ∧ ¬ @payload_coherent RepoSamples.sample_isoformat SQLite r).
Proof.
  split.
  - intros iso methods c now w c' Hrun.
    destruct (create_payload c now w) as [_ Hpost].
    destruct (Hpost c' Hrun) as (new_id & r & Hid & Hrow & Hnow & _ & Hdata & Hpg & Hsqlite & _).
    exists new_id, r. split_and!; [done | done | | | done | done].
    + rewrite Hdata, Hnow. apply lookup_insert_eq.
    + apply isoformat_loaded_sqlite.
  - cbv zeta.
    destruct (@create RepoSamples.sample_isoformat RepoSamples.sample_checkpoint_methods
                (RepoSamples.checkpoint "manual" false) 30 RepoSamples.w2).1
      as [c'|e] eqn:Hrun; [| by vm_compute in Hrun].
    destruct (@create_payload RepoSamples.sample_isoformat
                RepoSamples.sample_checkpoint_methods
                (RepoSamples.checkpoint "manual" false) 30 RepoSamples.w2) as [_ Hpost].
    destruct (Hpost c' Hrun) as (new_id & r & Hid & Hrow & Hnow & _ & Hdata & _ & Hsqlite & _).
    assert (new_id = 1%Z) as ->.
    { vm_compute in Hrun. injection Hrun as <-. by injection Hid as <-. }
    exists c', r. split_and!; [done | done | done | | | done].
    + rewrite Hdata. by rewrite lookup_insert_eq.
    + by rewrite Hnow.
Qed.

Lemma delete_auto_checkpoints_post_witness :
  let run := delete_auto_checkpoints 1 1 RepoSamples.w6 in
  next_fault RepoSamples.w6 = false
  ∧ run.1 = Ok 2%Z
  ∧ size (auto_checkpoints 1 (db run.2)) = 1
  ∧ ∃ r, checkpoints (db RepoSamples.w6) !! 4%Z = Some r
         ∧ more_recent 1 (db RepoSamples.w6) (4%Z, r) = 0
         ∧ checkpoints (db run.2) !! 4%Z = Some r.
Proof.
  cbv zeta.
  assert (next_fault RepoSamples.w6 = false) as Hfault by reflexivity.
  destruct (delete_auto_checkpoints_post 1 1 RepoSamples.w6 Hfault)
    as (Hrun & _ & _ & _ & _ & _ & Hkept & Hsize).
  split_and!; [exact Hfault | | |].
  - rewrite Hrun. by vm_compute.
  - rewrite Hsize. by vm_compute.
  - destruct (checkpoints (db RepoSamples.w6) !! 4%Z) as [r|] eqn:Hrow;
      [| by vm_compute in Hrow].
    assert (auto_of 1 (4%Z, r)) as Hauto.
    { vm_compute in Hrow. injection Hrow as <-. by split. }
    assert (more_recent 1 (db RepoSamples.w6) (4%Z, r) = 0) as Hrank.
    { vm_compute in Hrow. injection Hrow as <-. by vm_compute. }
    exists r. split_and!; [done | exact Hrank |].
    apply (Hkept 4%Z r Hrow Hauto). rewrite Hrank. lia.
Defined.

Lemma latest_checkpoint_is_head_witness :
  ∃ cps,
    (@get_by_internal_session RepoSamples.sample_checkpoint_methods 1 false
       RepoSamples.w6).1 = Ok cps
    ∧ cps ≠ []
    ∧ (@get_latest_checkpoint RepoSamples.sample_checkpoint_methods 1 RepoSamples.w6).1
      ≠ Ok None.
Proof.
  destruct (@get_by_internal_session RepoSamples.sample_checkpoint_methods 1 false
              RepoSamples.w6).1 as [cps|e] eqn:Hrun; [| by vm_compute in Hrun].
  assert (cps ≠ []) as Hne.
  { intros ->. by vm_compute in Hrun. }
  exists cps. split_and!; [done | done |].
  intros Hnone. apply Hne.
  by apply (proj2 (@latest_checkpoint_is_head RepoSamples.sample_checkpoint_methods
                     1 RepoSamples.w6) cps Hrun).
Defined.

Lemma listings_sorted_witness :
  next_fault RepoSamples.w6 = false
  ∧ ∃ cps rows,
      (@get_by_internal_session RepoSamples.sample_checkpoint_methods 1 false
         RepoSamples.w6).1 = Ok cps
      ∧ cps = @_row_to_checkpoint RepoSamples.sample_checkpoint_methods <$> rows
      ∧ StronglySorted strictly_newer rows.
Proof.
  assert (next_fault RepoSamples.w6 = false) as Hfault by reflexivity.
  split; [exact Hfault |].
  destruct (@listings_sorted RepoSamples.sample_checkpoint_methods RepoSamples.w6
              1 false 1 None) as (Hreturns & Hsession & _).
  destruct (Hreturns Hfault) as [[cps Hrun] _].
  destruct (Hsession cps Hrun) as (rows & Hcps & _ & Hsorted & _).
  by exists cps, rows.
Defined.

End CheckpointFacts.

(** ** Atomicity *)

Module AtomicityFacts.
Import Transactions TransactionFacts InternalSessionSpec.

Lemma atomic_connection {A} (body : Tx A) : atomic_on_error (get_db_connection body).
Proof. intros w e w'. apply get_db_connection_raise. Qed.

Lemma atomic_ret {A} (a : A) : atomic_on_error (mret a : Repo A).
Proof. intros w e w'. done. Qed.

Lemma read_only_query {A} (f : Database → A) :
  read_only (get_db_connection (λ d, Ok (f d, d))).
Proof. intros w. unfold get_db_connection. by destruct (next_fault w). Qed.

(** A read-only call followed by an atomic one is atomic. *)
Lemma atomic_after_read {A B} (m : Repo A) (f : A → Repo B) :
  read_only m → (∀ a, atomic_on_error (f a)) → atomic_on_error (m ≫= f).
Proof.
  intros Hm Hf w e w'. unfold mbind, repo_bind.
  specialize (Hm w). destruct (m w) as [[a|e'] w1]; cbn in Hm.
  - intros Hrun. apply Hf in Hrun. congruence.
  - intros [= <- <-]. done.
Qed.

Lemma atomic_of_hoare {A} (m : Repo A) (partial : Database → Database → Prop) :
  (∀ d0, hoare (λ d, d = d0) m (λ _ _, True) (λ d, d = d0 ∨ partial d0 d)) →
  atomic_up_to partial m.
Proof.
  intros Hm w e w' Hrun. specialize (Hm (db w) w eq_refl). by rewrite Hrun in Hm.
Qed.

Section repositories.
Context {backend : Backend} `{Isoformat, ExternalSession.Methods, Checkpoint.Methods}.

Lemma external_update_atomic session now :
  atomic_on_error (ExternalSessionRepository.update session now).
Proof.
  unfold ExternalSessionRepository.update.
  destruct (ExternalSession.id session) as [k|]; [| apply atomic_ret].
  destruct (k =? 0)%Z; [apply atomic_ret | apply atomic_connection].
Qed.

Lemma external_sessions_atomic :
  (∀ session now, atomic_on_error (ExternalSessionRepository.create session now))
  ∧ (∀ session now, atomic_on_error (ExternalSessionRepository.update session now))
  ∧ (∀ k, atomic_on_error (ExternalSessionRepository.get_by_id k))
  ∧ (∀ k lg now, atomic_on_error (ExternalSessionRepository.add_internal_session k lg now))
  ∧ (∀ k lg now,
       atomic_on_error (ExternalSessionRepository.set_current_internal_session k lg now))
  ∧ (∀ k now now', atomic_on_error (ExternalSessionRepository.deactivate k now now'))
  ∧ (∀ k, atomic_on_error (ExternalSessionRepository.delete k))
  ∧ (∀ u active_only,
       atomic_on_error (ExternalSessionRepository.count_user_sessions u active_only))
  ∧ (∀ k u, atomic_on_error (ExternalSessionRepository.check_ownership k u)).
Proof.
  split_and!; intros; try apply atomic_connection; try apply external_update_atomic.
  - apply atomic_after_read; [apply read_only_query |].
    intros [session|]; [apply external_update_atomic | apply atomic_ret].
  - apply atomic_after_read; [apply read_only_query |].
    intros [session|]; [| apply atomic_ret].
    destruct (ExternalSession.set_current_internal_session lg session) as [[] session'];
      [apply external_update_atomic | apply atomic_ret].
  - apply atomic_after_read; [apply read_only_query |].
    intros [session|]; [apply external_update_atomic | apply atomic_ret].
Qed.

Lemma checkpoints_atomic :
  (∀ c now, atomic_on_error (CheckpointRepository.create c now))
  ∧ (∀ k, atomic_on_error (CheckpointRepository.get_by_id k))
  ∧ (∀ s auto_only, atomic_on_error (CheckpointRepository.get_by_internal_session s auto_only))
  ∧ (∀ s, atomic_on_error (CheckpointRepository.get_latest_checkpoint s))
  ∧ (∀ u lim, atomic_on_error (CheckpointRepository.get_by_user u lim))
  ∧ (∀ k, atomic_on_error (CheckpointRepository.delete k))
  ∧ (∀ s n, atomic_on_error (CheckpointRepository.delete_auto_checkpoints s n))
  ∧ (∀ k metadata, atomic_on_error (CheckpointRepository.update_checkpoint_metadata k metadata)).
Proof.
  split_and!; intros; try apply atomic_connection.
  apply atomic_after_read; [apply read_only_query |].
  intros [c|]; [apply atomic_connection | apply atomic_ret].
Qed.

(** C2 (amended).  Atomicity holds session by session: a
    [get_db_connection] block that raises, in its body or at the commit,
    leaves the database as it found it.  Hence every operation of the three
    repositories that writes in one session, or reads in a first session and
    writes in a second ([update_checkpoint_metadata],
    [add_internal_session], [set_current_internal_session], [deactivate]),
    leaves the database in its pre-operation state when it raises.  The
    operations of [InternalSessionRepository] that call
    [_mark_all_not_current] ([create] and [update] of a session with
    [is_current] set, and [set_current_session]) may raise after that
    session has committed: the database is then the pre-operation one with
    [is_current] cleared on the siblings. *)
Theorem atomic_per_session :
  (∀ A (body : Tx A),
     atomic_on_error (get_db_connection body)
     ∧ ∀ w, log (get_db_connection body w).2
            = log w ++ [match (get_db_connection body w).1 with
                        | Ok _ => Commit
                        | Raise _ => Rollback
                        end; Close])
  ∧ ((∀ session now, atomic_on_error (ExternalSessionRepository.create session now))
     ∧ (∀ session now, atomic_on_error (ExternalSessionRepository.update session now))
     ∧ (∀ k lg now, atomic_on_error (ExternalSessionRepository.add_internal_session k lg now))
     ∧ (∀ k lg now,
          atomic_on_error (ExternalSessionRepository.set_current_internal_session k lg now))
     ∧ (∀ k now now', atomic_on_error (ExternalSessionRepository.deactivate k now now'))
     ∧ (∀ k, atomic_on_error (ExternalSessionRepository.delete k)))
  ∧ ((∀ c now, atomic_on_error (CheckpointRepository.create c now))
     ∧ (∀ k, atomic_on_error (CheckpointRepository.delete k))
     ∧ (∀ s n, atomic_on_error (CheckpointRepository.delete_auto_checkpoints s n))
     ∧ (∀ k metadata,
          atomic_on_error (CheckpointRepository.update_checkpoint_metadata k metadata)))
  ∧ ((∀ k, atomic_on_error (InternalSessionRepository.delete k))
     ∧ (∀ k increment, atomic_on_error (InternalSessionRepository.update_tool_count k increment))
     ∧ (∀ ext exclude_id,
          atomic_on_error (InternalSessionRepository._mark_all_not_current ext exclude_id)))
  ∧ (∀ session now,
       atomic_up_to
         (λ d d', InternalSession.is_current session = true
                  ∧ siblings_cleared (InternalSession.external_session_id session) None d d')
         (InternalSessionRepository.create session now))
  ∧ (∀ session,
       atomic_up_to
         (λ d d', InternalSession.is_current session = true
                  ∧ siblings_cleared (InternalSession.external_session_id session)
                      (InternalSession.id session) d d')
         (InternalSessionRepository.update session))
  ∧ (∀ k,
       atomic_up_to
         (λ d d', ∃ r0, internal_sessions d !! k = Some r0
                        ∧ siblings_cleared (InternalSessionModel.external_session_id r0)
                            None d d')
         (InternalSessionRepository.set_current_session k)).
Proof.
  destruct external_sessions_atomic as (? & ? & _ & ? & ? & ? & ? & _).
  destruct checkpoints_atomic as (? & _ & _ & _ & _ & ? & ? & ?).
  split_and!; try done; try (intros; apply atomic_connection).
  - intros A body. split; [apply atomic_connection | apply get_db_connection_log].
  - intros session now. apply atomic_of_hoare. intros d0.
    eapply hoare_consequence;
      [apply (InternalSessionFacts.create_spec session now d0) | try done ..].
    intros d [->| ->]; [by left |]. unfold cleared_db.
    destruct (InternalSession.is_current session); [by right | by left].
  - intros session. apply atomic_of_hoare. intros d0.
    eapply hoare_consequence;
      [apply (InternalSessionFacts.update_spec session d0) | try done ..].
    intros d [->|(k & Hk & ->)]; [by left |]. unfold cleared_db.
    destruct (InternalSession.is_current session); [right | by left].
    split; [done |]. unfold updatable in Hk.
    destruct (InternalSession.id session) as [k'|]; [| done].
    destruct (k' =? 0)%Z; by simplify_eq.
  - intros k. apply atomic_of_hoare. intros d0.
    eapply hoare_consequence;
      [apply (InternalSessionFacts.set_current_session_spec k d0) | done ..].
Qed.

End repositories.

(** C2, as stated, fails: [create] of a current session whose
    [langgraph_session_id] is taken raises [IntegrityError] at the flush,
    after [_mark_all_not_current] has committed; row 1 is no longer
    current. *)
Lemma create_not_atomic :
  let session := RepoSamples.session "lg-a" true in
  let run := InternalSessionRepository.create session 30 RepoSamples.w2 in
  run.1 = Raise IntegrityError
  ∧ db run.2 ≠ db RepoSamples.w2
  ∧ InternalSessionModel.is_current <$> internal_sessions (db RepoSamples.w2) !! 1%Z
    = Some true
  ∧ InternalSessionModel.is_current <$> internal_sessions (db run.2) !! 1%Z = Some false.
Proof.
  cbv zeta. split_and!; by vm_compute.
Qed.

Lemma atomic_per_session_witness :
  let session := RepoSamples.session "lg-a" true in
  let run := InternalSessionRepository.create session 30 RepoSamples.w2 in
  run = (Raise IntegrityError, run.2)
  ∧ (db run.2 = db RepoSamples.w2
     ∨ InternalSession.is_current session = true
       ∧ siblings_cleared (InternalSession.external_session_id session) None
           (db RepoSamples.w2) (db run.2)).
Proof.
  cbv zeta.
  assert (InternalSessionRepository.create (RepoSamples.session "lg-a" true) 30 RepoSamples.w2
          = (Raise IntegrityError,
             (InternalSessionRepository.create (RepoSamples.session "lg-a" true) 30
                RepoSamples.w2).2)) as Hrun by (by vm_compute).
  split; [exact Hrun |].
  pose proof (@atomic_per_session SQLite RepoSamples.sample_isoformat
                RepoSamples.sample_external_session_methods
                RepoSamples.sample_checkpoint_methods) as (_ & _ & _ & _ & Hcreate & _).
  exact (Hcreate _ _ _ _ _ Hrun).
Defined.

End AtomicityFacts.

(** ** Tables *)

Module DatabaseFacts.
Import Transactions TransactionFacts.

Lemma lookup_lt_next_id {A} (m : gmap Z A) k : is_Some (m !! k) → (k < next_id m)%Z.
Proof.
  intros [x Hx].
  assert (∀ (l : list Z) k, k ∈ l → (k ≤ foldr Z.max 0 l)%Z) as Hmax.
  { induction l as [|y l IH]; intros j; [by rewrite elem_of_nil |].
    rewrite elem_of_cons. intros [->|Hj]; cbn; [lia |]. specialize (IH j Hj). lia. }
  assert (k ∈ (map_to_list m).*1) as Hin.
  { apply list_elem_of_fmap. exists (k, x). split; [done |]. by apply elem_of_map_to_list. }
  apply Hmax in Hin. unfold next_id. lia.
Qed.

Lemma size_filter_pos {A} (P : Z * A → Prop) `{!∀ x, Decision (P x)} (m : gmap Z A) :
  0 < size (filter P m) ↔ ∃ i r, m !! i = Some r ∧ P (i, r).
Proof.
  split.
  - intros Hpos. destruct (map_choose_or_empty (filter P m)) as [(i & r & Hi)|Hempty].
    + apply map_lookup_filter_Some in Hi. eauto.
    + rewrite Hempty, map_size_empty in Hpos. lia.
  - intros (i & r & Hi & HP). apply Nat.neq_0_lt_0, map_size_non_empty_iff.
    intros Hempty.
    assert (filter P m !! i = Some r) as Hin by (by apply map_lookup_filter_Some).
    by rewrite Hempty, lookup_empty in Hin.
Qed.

Lemma lookup_delete_checkpoints (P : Z * CheckpointModel.t → Prop) `{!∀ x, Decision (P x)} d k :
  checkpoints (delete_checkpoints P d).2 !! k
  = c ← checkpoints d !! k; if decide (P (k, c)) then None else Some c.
Proof.
  cbn. destruct (checkpoints d !! k) as [c|] eqn:Hk; cbn.
  - case_decide.
    + apply map_lookup_filter_None. right. intros c' Hc'. simplify_eq. naive_solver.
    + by apply map_lookup_filter_Some.
  - apply map_lookup_filter_None. by left.
Qed.

End DatabaseFacts.

(** ** diff.py: session states *)

Module StateDiffFacts.
Import Diff StateDiff.

(** *** The order of the paths *)

Lemma ascii_compare_refl c : Ascii.compare c c = Eq.
Proof. unfold Ascii.compare. apply N.compare_refl. Qed.

Lemma ascii_compare_eq c1 c2 : Ascii.compare c1 c2 = Eq → c1 = c2.
Proof. apply Ascii.compare_eq_iff. Qed.

Lemma ascii_compare_lt_trans c1 c2 c3 :
  Ascii.compare c1 c2 = Lt → Ascii.compare c2 c3 = Lt → Ascii.compare c1 c3 = Lt.
Proof. unfold Ascii.compare. rewrite !N.compare_lt_iff. lia. Qed.

Lemma ascii_compare_gt_lt c1 c2 : Ascii.compare c1 c2 = Gt → Ascii.compare c2 c1 = Lt.
Proof. unfold Ascii.compare. rewrite N.compare_gt_iff, N.compare_lt_iff. lia. Qed.

Lemma string_compare_refl s : String.compare s s = Eq.
Proof. induction s as [|c s IH]; [done |]. cbn. by rewrite ascii_compare_refl. Qed.

Lemma str_le_trans_aux a b c :
  String.compare a b ≠ Gt → String.compare b c ≠ Gt → String.compare a c ≠ Gt.
Proof.
  revert b c. induction a as [|x a IH]; intros [|y b] [|z c]; cbn; try done.
  destruct (Ascii.compare x y) eqn:Hxy; [| |done].
  - apply ascii_compare_eq in Hxy as ->.
    destruct (Ascii.compare y z) eqn:Hyz; [apply IH |done |done].
  - destruct (Ascii.compare y z) eqn:Hyz; [| |done].
    + apply ascii_compare_eq in Hyz as <-. by rewrite Hxy.
    + by rewrite (ascii_compare_lt_trans _ _ _ Hxy Hyz).
Qed.

Lemma str_le_alt a b : str_le a b ↔ String.compare a b ≠ Gt.
Proof. unfold str_le, String.leb. by destruct (String.compare a b). Qed.

#[local] Instance str_le_trans : Transitive str_le.
Proof. intros a b c. rewrite !str_le_alt. apply str_le_trans_aux. Qed.

#[local] Instance str_le_total : Total str_le.
Proof. intros a b. apply String.leb_total. Qed.

#[local] Instance str_le_antisym : AntiSymm (=) str_le.
Proof. intros a b. apply String.leb_antisym. Qed.

Lemma sorted_elem_of keys k : k ∈ sorted keys ↔ k ∈ keys.
Proof. unfold sorted. by rewrite merge_sort_Permutation, elem_of_elements. Qed.

Lemma sorted_NoDup keys : NoDup (sorted keys).
Proof. unfold sorted. rewrite merge_sort_Permutation. apply NoDup_elements. Qed.

Lemma sorted_StronglySorted keys : StronglySorted str_le (sorted keys).
Proof. apply (StronglySorted_merge_sort _). Qed.

Section value_ind.
Context {V : Type} (P : value V → Prop).
Hypothesis Hother : ∀ x, P (Other x).
Hypothesis Hnested : ∀ d, Forall (λ kv, P kv.2) d → P (Nested d).

Fixpoint value_ind' (v : value V) : P v :=
  match v with
  | Other x => Hother x
  | Nested d =>
      Hnested d
        ((fix go (d : list (string * value V)) : Forall (λ kv, P kv.2) d :=
            match d with
            | [] => List.Forall_nil _
            | kv :: d => @List.Forall_cons _ _ kv d (value_ind' kv.2) (go d)
            end) d)
  end.
End value_ind.

Section facts.
Context {V : Type}.
Implicit Types (d : list (string * value V)) (items : list (string * V)).

(** *** [dict(items)] *)

Lemma foldl_insert_union items (m : gmap string V) :
  foldl (λ m kv, <[kv.1 := kv.2]> m) m items = dict_of_items items ∪ m.
Proof.
  unfold dict_of_items. revert m.
  induction items as [|[k v] items IH] using rev_ind; intros m; cbn.
  - by rewrite (left_id_L ∅ (∪)).
  - rewrite !foldl_app. cbn. rewrite IH, (IH ∅), (right_id_L ∅ (∪)).
    by rewrite insert_union_l.
Qed.

Lemma dict_of_items_app items1 items2 :
  dict_of_items (items1 ++ items2) = dict_of_items items2 ∪ dict_of_items items1.
Proof. unfold dict_of_items at 1. rewrite foldl_app. apply foldl_insert_union. Qed.

Lemma dict_of_items_singleton k (v : V) : dict_of_items [(k, v)] = {[k := v]}.
Proof. done. Qed.

Lemma dict_of_items_cons k (v : V) items :
  dict_of_items ((k, v) :: items) = dict_of_items items ∪ {[k := v]}.
Proof. apply (dict_of_items_app [(k, v)] items). Qed.

Lemma dict_of_items_NoDup items : NoDup items.*1 → dict_of_items items = list_to_map items.
Proof.
  induction items as [|[k v] items IH]; [done |].
  rewrite fmap_cons, NoDup_cons. intros [Hk Hitems].
  rewrite dict_of_items_cons, IH by done. cbn.
  rewrite insert_union_singleton_l. apply map_union_comm.
  apply map_disjoint_singleton_r. by apply not_elem_of_list_to_map_1.
Qed.

Lemma dict_of_items_to_list (m : gmap string V) : dict_of_items (map_to_list m) = m.
Proof.
  rewrite dict_of_items_NoDup by apply NoDup_fst_map_to_list.
  apply list_to_map_to_list.
Qed.

Lemma dom_dict_of_items items : dom (dict_of_items items) = list_to_set items.*1.
Proof.
  induction items as [|[k v] items IH]; [done |].
  rewrite dict_of_items_cons, dom_union_L, IH, dom_singleton_L.
  rewrite fmap_cons, list_to_set_cons. apply (comm_L (∪)).
Qed.

(** *** [_flatten_dict] *)

Lemma flatten_value_nested d nk sep :
  flatten_value (Nested d) nk sep = map_to_list (_flatten_dict d nk sep).
Proof. reflexivity. Qed.

(** The equations of [_flatten_dict], entry by entry. *)
Lemma flatten_dict_nil p sep : _flatten_dict (V := V) [] p sep = ∅.
Proof. done. Qed.

Lemma flatten_dict_app d1 d2 p sep :
  _flatten_dict (d1 ++ d2) p sep = _flatten_dict d2 p sep ∪ _flatten_dict d1 p sep.
Proof. unfold _flatten_dict. by rewrite flat_map_app, dict_of_items_app. Qed.

Lemma flatten_dict_other k (x : V) p sep :
  _flatten_dict [(k, Other x)] p sep = {[new_key p sep k := x]}.
Proof. done. Qed.

Lemma flatten_dict_nested k d p sep :
  _flatten_dict [(k, Nested d)] p sep = _flatten_dict d (new_key p sep k) sep.
Proof.
  unfold _flatten_dict at 1. cbn [flat_map]. rewrite app_nil_r.
  cbn [snd fst]. rewrite flatten_value_nested. apply dict_of_items_to_list.
Qed.

Lemma flatten_dict_cons kv d p sep :
  _flatten_dict (kv :: d) p sep = _flatten_dict d p sep ∪ _flatten_dict [kv] p sep.
Proof. apply (flatten_dict_app [kv] d). Qed.


(** A dict without nested dicts is its own flattening. *)
Lemma flatten_dict_flat (items : list (string * V)) (sep : string) :
  _flatten_dict ((λ kv, (kv.1, Other kv.2)) <$> items) "" sep = dict_of_items items.
Proof.
  induction items as [|[k x] items IH]; [done |].
  rewrite fmap_cons, flatten_dict_cons, IH, flatten_dict_other, dict_of_items_cons.
  done.
Qed.

Lemma string_app_assoc (a b c : string) : (a +:+ b) +:+ c = a +:+ (b +:+ c).
Proof.
  induction a as [|x a IH]; [done |].
  change (String x ((a +:+ b) +:+ c) = String x (a +:+ (b +:+ c))). by f_equal.
Qed.

#[local] Instance under_inj p sep : Inj (=) (=) (under p sep).
Proof. intros k1 k2 Hk. by do 2 apply String.app_inj in Hk. Qed.

Lemma kmap_under_under p k sep (m : gmap string V) :
  kmap (under p sep) (kmap (under k sep) m : gmap string V)
  =@{gmap string V} kmap (under (under p sep k) sep) m.
Proof.
  apply map_eq. intros i. apply option_eq. intros v.
  rewrite !lookup_kmap_Some by apply _. setoid_rewrite lookup_kmap_Some; [| apply _].
  unfold under. split.
  - intros (? & -> & r & -> & Hr). exists r. by rewrite !string_app_assoc.
  - intros (r & -> & Hr). exists (k +:+ sep +:+ r). rewrite !string_app_assoc. eauto.
Qed.

Lemma new_key_nonempty p sep k : p ≠ "" → new_key p sep k = under p sep k.
Proof. intros Hp. unfold new_key. by rewrite bool_decide_eq_false_2. Qed.

Lemma under_nonempty p sep k : p ≠ "" → under p sep k ≠ "".
Proof. by destruct p. Qed.

Lemma flatten_dict_under_aux (v : value V) sep :
  nonempty_keys v → ∀ d, v = Nested d → ∀ p, p ≠ "" →
  _flatten_dict d p sep = kmap (under p sep) (_flatten_dict d "" sep).
Proof.
  induction v as [x|d0 IH] using value_ind'; [done |].
  intros [Hkeys Hnested] d [= <-] p Hp.
  induction d0 as [|[k v] d IHd]; [by rewrite !flatten_dict_nil, kmap_empty |].
  apply Forall_cons in Hkeys as [Hk Hkeys]. apply Forall_cons in IH as [IHv IH].
  destruct Hnested as [Hv Hnested]. cbn in Hk, IHv, Hv.
  rewrite (flatten_dict_cons _ d p), (flatten_dict_cons _ d ""), kmap_union.
  rewrite IHd by done. f_equal.
  destruct v as [x|d'].
  - rewrite !flatten_dict_other, kmap_singleton. by rewrite new_key_nonempty.
  - rewrite !flatten_dict_nested. rewrite new_key_nonempty by done.
    change (new_key "" sep k) with k.
    rewrite (IHv Hv d' eq_refl (under p sep k)) by by apply under_nonempty.
    rewrite (IHv Hv d' eq_refl k) by done.
    by rewrite kmap_under_under.
  - apply _.
Qed.

(** Under a parent key every path is prefixed with the parent key and the
    separator, provided no key is empty. *)
Theorem flatten_dict_under (d : list (string * value V)) (p sep : string) :
  p ≠ "" → nonempty_keys (Nested d) →
  _flatten_dict d p sep = kmap (under p sep) (_flatten_dict d "" sep).
Proof. intros Hp Hd. by apply (flatten_dict_under_aux (Nested d)). Qed.

(** An entry whose value is an empty dict leaves no trace. *)
Lemma flatten_dict_empty_nested d1 k d2 p sep :
  _flatten_dict (d1 ++ (k, Nested []) :: d2) p sep = _flatten_dict (d1 ++ d2) p sep.
Proof.
  rewrite !flatten_dict_app, (flatten_dict_cons _ d2), flatten_dict_nested.
  by rewrite flatten_dict_nil, (right_id_L ∅ (∪)).
Qed.

(** *** [_compare_dicts] *)

Context `{!PyValue V}.
Implicit Types (c : StateChange V) (old_flat new_flat : gmap string V).

Lemma change_at_path old_flat new_flat key c :
  change_at old_flat new_flat key = Some c → path c = key.
Proof. unfold change_at. repeat case_match; naive_solver. Qed.

Lemma change_at_Some old_flat new_flat key c :
  key ∈ dom old_flat ∪ dom new_flat →
  change_at old_flat new_flat key = Some c ↔
    (old_flat !! key = None ∧ ∃ v, new_flat !! key = Some v
       ∧ c = mkStateChange key ADDED py_none v)
    ∨ (new_flat !! key = None ∧ ∃ v, old_flat !! key = Some v
       ∧ c = mkStateChange key REMOVED v py_none)
    ∨ (∃ v v', old_flat !! key = Some v ∧ new_flat !! key = Some v'
       ∧ py_eq v v' = false ∧ c = mkStateChange key MODIFIED v v').
Proof.
  rewrite elem_of_union, !elem_of_dom. unfold change_at, get. intros Hkey.
  destruct (old_flat !! key) as [v|] eqn:Hold, (new_flat !! key) as [v'|] eqn:Hnew;
    repeat case_bool_decide; try done; cbn.
  4: by destruct Hkey as [[? [=]]|[? [=]]].
  all: try destruct (py_eq v v') eqn:Heq; cbn.
  all: split; [intros [= <-] | intros [(? & ? & ? & ?)|[(? & ? & ? & ?)|(? & ? & ? & ? & ? & ?)]]];
    simplify_eq; eauto 10; congruence.
Qed.

Lemma sorted_paths (f : string → option (StateChange V)) (keys : list string) :
  (∀ key c, f key = Some c → path c = key) →
  StronglySorted str_le keys → NoDup keys →
  StronglySorted str_lt (path <$> omap f keys).
Proof.
  intros Hpath Hsorted. induction Hsorted as [|key keys Hkeys IH Hall]; [constructor |].
  rewrite NoDup_cons. intros [Hkey Hnodup]. cbn.
  destruct (f key) as [c|] eqn:Hc; [| by apply IH].
  cbn. constructor; [by apply IH |].
  rewrite (Hpath _ _ Hc). apply Forall_forall. intros k Hk.
  apply list_elem_of_fmap in Hk as (c' & -> & Hc').
  apply list_elem_of_omap in Hc' as (k' & Hk' & Hfk').
  rewrite (Hpath _ _ Hfk').
  rewrite Forall_forall in Hall. specialize (Hall _ Hk').
  unfold str_lt, String.ltb. apply str_le_alt in Hall.
  destruct (String.compare key k') eqn:Hcmp; [| done | done].
  apply String.compare_eq_iff in Hcmp as ->. done.
Qed.

Lemma omap_ext_elem_of {A B} (f g : A → option B) (l : list A) :
  (∀ x, x ∈ l → f x = g x) → omap f l = omap g l.
Proof.
  induction l as [|x l IH]; [done |]. intros Hfg. cbn.
  rewrite (Hfg x), IH; [done | |]; intros; try apply Hfg; set_solver.
Qed.

Lemma change_at_reverse old_flat new_flat key :
  (∀ v v' : V, py_eq v v' = py_eq v' v) →
  key ∈ dom old_flat ∪ dom new_flat →
  change_at new_flat old_flat key = reverse_change <$> change_at old_flat new_flat key.
Proof.
  intros Hsym. rewrite elem_of_union, !elem_of_dom. unfold change_at, get.
  destruct (old_flat !! key) as [v|] eqn:Hold, (new_flat !! key) as [v'|] eqn:Hnew;
    repeat case_bool_decide; try done; cbn.
  - rewrite (Hsym v' v). by destruct (py_eq v v').
  - by intros [[? [=]]|[? [=]]].
Qed.

(** Every path is reported at most once, and the changes come in the code
    point order of their paths. *)
Theorem compare_dicts_paths_sorted (old new : list (string * value V)) :
  StronglySorted str_lt (path <$> _compare_dicts old new).
Proof.
  unfold _compare_dicts. apply sorted_paths.
  - apply change_at_path.
  - apply sorted_StronglySorted.
  - apply sorted_NoDup.
Qed.

(** The changes reported are exactly the differences between the two
    flattened dicts. *)
Theorem compare_dicts_changes (old new : list (string * value V)) (c : StateChange V) :
  let old_flat := _flatten_dict old "" "." in
  let new_flat := _flatten_dict new "" "." in
  c ∈ _compare_dicts old new ↔
    (old_flat !! path c = None ∧ ∃ v, new_flat !! path c = Some v
       ∧ c = mkStateChange (path c) ADDED py_none v)
    ∨ (new_flat !! path c = None ∧ ∃ v, old_flat !! path c = Some v
       ∧ c = mkStateChange (path c) REMOVED v py_none)
    ∨ (∃ v v', old_flat !! path c = Some v ∧ new_flat !! path c = Some v'
       ∧ py_eq v v' = false ∧ c = mkStateChange (path c) MODIFIED v v').
Proof.
  intros old_flat new_flat. unfold _compare_dicts. fold old_flat new_flat.
  rewrite list_elem_of_omap. split.
  - intros (key & Hkey & Hc). apply sorted_elem_of in Hkey.
    rewrite (change_at_path _ _ _ _ Hc). by apply change_at_Some.
  - intros Hc. exists (path c).
    assert (path c ∈ dom old_flat ∪ dom new_flat) as Hkey.
    { rewrite elem_of_union, !elem_of_dom.
      destruct Hc as [(_ & v & Hv & _)|[(_ & v & Hv & _)|(v & _ & Hv & _)]]; eauto. }
    split; [by apply sorted_elem_of | by apply change_at_Some].
Qed.

Lemma compare_dicts_same_flat (old new : list (string * value V)) :
  _flatten_dict old "" "." = _flatten_dict new "" "." →
  map_Forall (λ _ v, py_eq v v = true) (_flatten_dict old "" ".") →
  _compare_dicts old new = [].
Proof.
  intros Hflat Hrefl. unfold _compare_dicts. rewrite <- Hflat.
  rewrite (omap_ext_elem_of _ (λ _, None)).
  - by induction (sorted _).
  - intros key Hkey. apply sorted_elem_of in Hkey.
    rewrite (idemp_L (∪)) in Hkey. apply elem_of_dom in Hkey as [v Hv].
    unfold change_at, get. rewrite Hv. cbn. by rewrite (Hrefl _ _ Hv).
Qed.

(** A state has no changes against itself, provided [==] holds between each
    value and itself. *)
Theorem compare_dicts_same (d : list (string * value V)) :
  (∀ v : V, py_eq v v = true) → _compare_dicts d d = [].
Proof.
  intros Hrefl. apply compare_dicts_same_flat; [done |].
  intros key v _. apply Hrefl.
Qed.

(** Exchanging the two states exchanges additions and removals, and the old
    and new values, provided [==] does not depend on the order of its
    operands. *)
Theorem compare_dicts_reverse (old new : list (string * value V)) :
  (∀ v v' : V, py_eq v v' = py_eq v' v) →
  _compare_dicts new old = reverse_change <$> _compare_dicts old new.
Proof.
  intros Hsym. unfold _compare_dicts.
  rewrite list_fmap_omap, (comm_L (∪) (dom (_flatten_dict new "" "."))).
  apply omap_ext_elem_of. intros key Hkey. apply sorted_elem_of in Hkey.
  by apply change_at_reverse.
Qed.

(** [_compare_dicts] sees its arguments only through their flattenings. *)
Lemma compare_dicts_flat_ext (old old' new new' : list (string * value V)) :
  _flatten_dict old "" "." = _flatten_dict old' "" "." →
  _flatten_dict new "" "." = _flatten_dict new' "" "." →
  _compare_dicts old new = _compare_dicts old' new'.
Proof. intros Hold Hnew. unfold _compare_dicts. by rewrite Hold, Hnew. Qed.

(** A key whose value is an empty dict leaves no trace in the flattened
    state, so that adding it to either state, or removing it, changes
    nothing in what [_compare_dicts] returns. *)
Theorem compare_dicts_empty_nested (d1 d2 other : list (string * value V)) (k : string) :
  _flatten_dict (d1 ++ (k, Nested []) :: d2) "" "." = _flatten_dict (d1 ++ d2) "" "."
  ∧ _compare_dicts (d1 ++ (k, Nested []) :: d2) other = _compare_dicts (d1 ++ d2) other
  ∧ _compare_dicts other (d1 ++ (k, Nested []) :: d2) = _compare_dicts other (d1 ++ d2)
  ∧ _compare_dicts (d1 ++ d2) (d1 ++ (k, Nested []) :: d2) = _compare_dicts (d1 ++ d2) (d1 ++ d2).
Proof.
  pose proof (flatten_dict_empty_nested d1 k d2 "" ".") as Hflat.
  split_and!.
  - exact Hflat.
  - by apply compare_dicts_flat_ext.
  - by apply compare_dicts_flat_ext.
  - by apply compare_dicts_flat_ext.
Qed.

(** Under a key that is not empty, a nested key and the top-level key that
    spells its path are not told apart: the two states flatten to the same
    dict, and [_compare_dicts] returns the same changes for either, on
    either side.  Under the empty key the path of the nested key is the key
    itself, without separator. *)
Theorem compare_dicts_dotted_key (d1 d2 other : list (string * value V)) (a b : string)
    (x : V) :
  a ≠ "" →
  let nested := d1 ++ (a, Nested [(b, Other x)]) :: d2 in
  let dotted := d1 ++ (a +:+ "." +:+ b, Other x) :: d2 in
  _flatten_dict [(a, Nested [(b, Other x)])] "" "." = {[a +:+ "." +:+ b := x]}
  ∧ _flatten_dict nested "" "." = _flatten_dict dotted "" "."
  ∧ _compare_dicts nested other = _compare_dicts dotted other
  ∧ _compare_dicts other nested = _compare_dicts other dotted
  ∧ _flatten_dict [("", Nested [(b, Other x)])] "" "." = {[b := x]}.
Proof.
  intros Ha nested dotted.
  assert (_flatten_dict [(a, Nested [(b, Other x)])] "" "." = {[a +:+ "." +:+ b := x]}) as Hone.
  { rewrite flatten_dict_nested, flatten_dict_other. unfold new_key. cbn.
    by rewrite bool_decide_eq_false_2. }
  assert (_flatten_dict nested "" "." = _flatten_dict dotted "" ".") as Hflat.
  { unfold nested, dotted.
    rewrite !flatten_dict_app, (flatten_dict_cons _ d2), (flatten_dict_cons (_, Other x) d2).
    by rewrite Hone, flatten_dict_other. }
  split_and!.
  - exact Hone.
  - exact Hflat.
  - by apply compare_dicts_flat_ext.
  - by apply compare_dicts_flat_ext.
  - by rewrite flatten_dict_nested, flatten_dict_other.
Qed.

End facts.
(** *** On sample states *)

Import StateSamples.

Lemma flatten_dict_under_witness :
  "user" ≠ "" ∧ nonempty_keys (Nested (user 7))
  ∧ _flatten_dict (user 7) "user" "."
    = kmap (under "user" ".") (_flatten_dict (user 7) "" ".").
Proof.
  assert ("user" ≠ "") as Hp by done.
  assert (nonempty_keys (Nested (user 7))) as Hkeys.
  { cbn. repeat first [split | constructor | done]. }
  split_and!; [exact Hp | exact Hkeys |].
  exact (flatten_dict_under (user 7) "user" "." Hp Hkeys).
Defined.

Lemma compare_dicts_same_witness :
  (∀ v : option Z, py_eq v v = true) ∧ _compare_dicts new_state new_state = [].
Proof.
  assert (∀ v : option Z, py_eq v v = true) as Hrefl.
  { intros v. cbn. by apply bool_decide_eq_true. }
  split; [exact Hrefl |]. exact (compare_dicts_same new_state Hrefl).
Defined.

Lemma compare_dicts_reverse_witness :
  (∀ v v' : option Z, py_eq v v' = py_eq v' v)
  ∧ _compare_dicts new_state old_state = reverse_change <$> _compare_dicts old_state new_state.
Proof.
  assert (∀ v v' : option Z, py_eq v v' = py_eq v' v) as Hsym.
  { intros v v'. cbn. apply bool_decide_ext. split; congruence. }
  split; [exact Hsym |]. exact (compare_dicts_reverse old_state new_state Hsym).
Defined.

Lemma compare_dicts_empty_nested_witness :
  _compare_dicts (old_state ++ [("scratchpad", Nested [])]) new_state
  = _compare_dicts old_state new_state.
Proof.
  pose proof (proj1 (proj2 (compare_dicts_empty_nested old_state [] new_state "scratchpad")))
    as Hsame.
  by rewrite app_nil_r in Hsame.
Defined.

Lemma compare_dicts_dotted_key_witness :
  "user" ≠ ""
  ∧ _flatten_dict [("user", Nested [("name", Other (Some 7%Z))])] "" "."
    = {["user.name" := Some 7%Z]}
  ∧ _compare_dicts [("user", Nested [("name", Other (Some 7%Z))])] new_state
    = _compare_dicts [("user.name", Other (Some 7%Z))] new_state.
Proof.
  assert ("user" ≠ "") as Hp by done.
  destruct (compare_dicts_dotted_key [] [] new_state "user" "name" (Some 7%Z) Hp)
    as (Hone & _ & Hleft & _).
  split_and!; [exact Hp | exact Hone | exact Hleft].
Defined.

End StateDiffFacts.

(** ** db_config.py *)

Module DbConfigFacts.
Import DbConfig.

Section facts.
Context {Engine SQLAlchemyError : Type}.
Variable create_engine : string → EngineOptions → SQLAlchemyError + Engine.
Variable abspath : string → string.

Lemma normalize_plain_path_url (abs_path : string) :
  contains "://" ("sqlite:///" +:+ abs_path) = true
  ∧ startswith (lower ("sqlite:///" +:+ abs_path)) "sqlite://" = true.
Proof. split; reflexivity. Qed.




(** A path or URL that [_normalize_db_url] accepts is normalized to a URL
    that it leaves as it is, with the same type. *)
Theorem normalize_db_url_idempotent (db_path url db_type : string) :
  _normalize_db_url abspath db_path = inr (url, db_type) →
  _normalize_db_url abspath url = inr (url, db_type).
Proof.
  unfold _normalize_db_url at 1.
  destruct (contains "://" db_path) eqn:Hurl; cbv zeta.
  - destruct (startswith _ "sqlite://") eqn:Hsqlite.
    { intros [= <- <-]. unfold _normalize_db_url. by rewrite Hurl, Hsqlite. }
    destruct (_ || _) eqn:Hpostgres; [| done].
    intros [= <- <-]. unfold _normalize_db_url. by rewrite Hurl, Hsqlite, Hpostgres.
  - intros [= <- <-]. unfold _normalize_db_url.
    destruct (normalize_plain_path_url (abspath db_path)) as [-> ->]. done.
Qed.

Variable strip : string → string.
Variable getenv : string → option string.
Variable default_database_path : string.
Variable makedirs_raises : bool.

Lemma index_cons_is_Some sub c s :
  is_Some (String.index 0 sub s) → is_Some (String.index 0 sub (String c s)).
Proof.
  intros [i Hi]. cbn [String.index].
  destruct (String.prefix sub (String c s)); [done |]. by rewrite Hi.
Qed.

Lemma lower_char_colon c : String (lower_char c) "" = ":" → String c "" = ":".
Proof. destruct c as [[] [] [] [] [] [] [] []]; vm_compute; by intros [=]. Qed.

Lemma lower_char_slash c : String (lower_char c) "" = "/" → String c "" = "/".
Proof. destruct c as [[] [] [] [] [] [] [] []]; vm_compute; by intros [=]. Qed.

Lemma prefix_cons_inv a p b s :
  String.prefix (String a p) (String b s) = true → a = b ∧ String.prefix p s = true.
Proof. cbn. by destruct (Ascii.ascii_dec a b). Qed.

(** A URL whose scheme is [sqlite], in any case, has a ["://"]. *)
Lemma sqlite_url_has_separator db_url :
  startswith (lower db_url) "sqlite://" = true → is_Some (after_first "://" db_url).
Proof.
  unfold startswith, after_first. intros Hstart.
  enough (is_Some (String.index 0 "://" db_url)) as [i ->] by (by eexists).
  do 6 (destruct db_url as [|? db_url]; [by cbn in Hstart |];
        cbn [lower] in Hstart; apply prefix_cons_inv in Hstart as [_ Hstart];
        apply index_cons_is_Some).
  destruct db_url as [|c7 [|c8 [|c9 s]]]; try (by cbn in Hstart).
  - cbn [lower] in Hstart. apply prefix_cons_inv in Hstart as [_ Hstart]. by cbn in Hstart.
  - cbn [lower] in Hstart. do 2 apply prefix_cons_inv in Hstart as [_ Hstart].
    by cbn in Hstart.
  - cbn [lower] in Hstart.
    apply prefix_cons_inv in Hstart as [H7 Hstart].
    apply prefix_cons_inv in Hstart as [H8 Hstart].
    apply prefix_cons_inv in Hstart as [H9 _].
    assert (String c7 "" = ":") as [= ->] by (apply lower_char_colon; by rewrite <- H7).
    assert (String c8 "" = "/") as [= ->] by (apply lower_char_slash; by rewrite <- H8).
    assert (String c9 "" = "/") as [= ->] by (apply lower_char_slash; by rewrite <- H9).
    exists 0. by destruct s.
Qed.

(** What [get_database_path()] raises is the [OSError] of [os.makedirs]:
    the [split] always finds its separator. *)
Lemma get_database_path_raises e :
  get_database_path (SQLAlchemyError := SQLAlchemyError)
    strip getenv default_database_path makedirs_raises None = inl e →
  e = OSError ∧ makedirs_raises = true.
Proof.
  unfold get_database_path. cbv zeta.
  case_bool_decide; [done |].
  destruct (bool_decide _ && startswith _ "sqlite://") eqn:Hurl.
  - destruct (startswith _ "sqlite:///"); [done |].
    apply andb_prop in Hurl as [_ Hurl].
    by destruct (sqlite_url_has_separator _ Hurl) as [path ->].
  - destruct makedirs_raises; [| done]. by intros [= <-].
Qed.

(** [_get_engine] returns the engine of [_engine] when there is one.
    Otherwise it calls [create_engine]: for [DATABASE=postgres] on
    [DATABASE_URL] with the PostgreSQL options, and for a [DATABASE_URL] of
    the form [sqlite:///path] on that very URL with the SQLite options; what
    [create_engine] raises is passed on.  It raises nothing else but the
    [OSError] of [os.makedirs]: no [ValueError] and no [IndexError]. *)
Theorem get_engine_from_environment (_engine : option Engine) :
  let db_url := strip (default "" (getenv "DATABASE_URL")) in
  let get_engine :=
    _get_engine create_engine strip getenv default_database_path makedirs_raises _engine in
  (∀ engine, _engine = Some engine → get_engine = inr engine)
  ∧ (_engine = None → database_type strip getenv = "postgres" →
       get_engine = call_create_engine create_engine db_url PostgresOptions)
  ∧ (∀ path, _engine = None → database_type strip getenv ≠ "postgres" →
       db_url = "sqlite:///" +:+ path →
       get_engine = call_create_engine create_engine db_url SqliteOptions)
  ∧ (∀ e, get_engine = inl e →
       (∃ e', e = RaisedByCreateEngine e') ∨ (e = OSError ∧ makedirs_raises = true)).
Proof.
  intros db_url get_engine.
  assert (∀ url, _create_db_engine create_engine url "sqlite"
                 = call_create_engine create_engine url SqliteOptions) as Hsqlite by done.
  assert (∀ url, _create_db_engine create_engine url "postgres"
                 = call_create_engine create_engine url PostgresOptions) as Hpostgres by done.
  assert (∀ url options e, call_create_engine create_engine url options = inl e →
                           ∃ e', e = RaisedByCreateEngine e') as Hcall.
  { intros url options e. unfold call_create_engine.
    destruct (create_engine url options) as [e'|engine]; [| done].
    intros [= <-]. by eexists. }
  unfold get_engine. split_and!.
  - by intros engine ->.
  - intros -> Htype. unfold _get_engine, get_database_path. cbv zeta. fold db_url.
    rewrite !bool_decide_eq_true_2 by done. by rewrite Hpostgres.
  - intros path -> Htype Hpath. unfold _get_engine, get_database_path. cbv zeta.
    fold db_url. rewrite !bool_decide_eq_false_2 by done. rewrite Hpath.
    destruct (normalize_plain_path_url path) as [_ Hstart].
    assert (startswith (lower ("sqlite:///" +:+ path)) "sqlite:///" = true) as ->
      by (by destruct path).
    rewrite Hstart. rewrite bool_decide_eq_true_2 by done. cbn [andb].
    change (slice_from _ ("sqlite:///" +:+ path)) with path. by rewrite Hsqlite.
  - intros e. destruct _engine as [engine|]; [done |]. unfold _get_engine. cbv zeta.
    destruct (get_database_path _ _ _ _ None) as [e'|path_or_dsn] eqn:Hpath.
    { intros [= <-]. right. by eapply get_database_path_raises. }
    case_bool_decide.
    + rewrite Hpostgres. intros He. left. by eapply Hcall.
    + rewrite Hsqlite. intros He. left. by eapply Hcall.
Qed.

End facts.

(** *** On sample paths *)


Lemma normalize_db_url_idempotent_witness :
  _normalize_db_url EnvironmentSamples.sample_abspath "a.db"
  = inr ("sqlite:////srv/agentgit/a.db", "sqlite")
  ∧ _normalize_db_url EnvironmentSamples.sample_abspath "sqlite:////srv/agentgit/a.db"
    = inr ("sqlite:////srv/agentgit/a.db", "sqlite").
Proof.
  assert (_normalize_db_url EnvironmentSamples.sample_abspath "a.db"
          = inr ("sqlite:////srv/agentgit/a.db", "sqlite")) as Hurl by reflexivity.
  split; [exact Hurl |].
  exact (normalize_db_url_idempotent EnvironmentSamples.sample_abspath "a.db" _ _ Hurl).
Defined.

Lemma get_engine_from_environment_witness :
  database_type EnvironmentSamples.sample_strip EnvironmentSamples.sample_getenv = "postgres"
  ∧ _get_engine EnvironmentSamples.sample_create_engine EnvironmentSamples.sample_strip
      EnvironmentSamples.sample_getenv "/srv/agentgit/data/rollback_agent.db" false None
    = inl (RaisedByCreateEngine EnvironmentSamples.ArgumentError).
Proof.
  assert (database_type EnvironmentSamples.sample_strip EnvironmentSamples.sample_getenv
          = "postgres") as Htype by reflexivity.
  split; [exact Htype |].
  destruct (get_engine_from_environment EnvironmentSamples.sample_create_engine
              EnvironmentSamples.sample_strip EnvironmentSamples.sample_getenv
              "/srv/agentgit/data/rollback_agent.db" false None) as (_ & Hpostgres & _).
  rewrite (Hpostgres eq_refl Htype). reflexivity.
Defined.

End DbConfigFacts.

(** ** internal_session_repository.py: queries, lineage and deletion *)

Module InternalSessionQueryFacts.
#[local] Set Warnings "-clear-no-such-hyp".
Import InternalSessionModel InternalSessionRepository.
Import Transactions TransactionFacts InternalSessionSpec InternalSessionQuerySpec.
Import InternalSessionFacts DatabaseFacts.

Section rows.
Context (P : Z * InternalSessionModel.t → Prop) `{!∀ x, Decision (P x)}.

Lemma rows_where_elem_of d x :
  x ∈ rows_where P d ↔ internal_sessions d !! x.1 = Some x.2 ∧ P x.
Proof.
  unfold rows_where. rewrite list_elem_of_filter, elem_of_map_to_list'. tauto.
Qed.

Lemma rows_where_NoDup d : NoDup (rows_where P d).
Proof. apply NoDup_filter, NoDup_map_to_list. Qed.

Lemma rows_where_Permutation d :
  rows_where P d ≡ₚ map_to_list (filter P (internal_sessions d)).
Proof.
  apply NoDup_Permutation; [apply rows_where_NoDup | apply NoDup_map_to_list |].
  intros x. rewrite rows_where_elem_of, elem_of_map_to_list', map_lookup_filter_Some.
  destruct x. tauto.
Qed.

Lemma rows_where_length d :
  length (rows_where P d) = size (filter P (internal_sessions d)).
Proof. by rewrite rows_where_Permutation, length_map_to_list. Qed.

(** The first row of the query when at most one row satisfies it. *)
Lemma rows_where_head_unique d i r :
  internal_sessions d !! i = Some r → P (i, r) →
  (∀ j rj, internal_sessions d !! j = Some rj → P (j, rj) → j = i) →
  head (rows_where P d) = Some (i, r).
Proof.
  intros Hi HP Hunique.
  assert ((i, r) ∈ rows_where P d) as Hin by (by apply rows_where_elem_of).
  destruct (rows_where P d) as [|x rows] eqn:Hrows; [by apply elem_of_nil in Hin |].
  cbn. f_equal.
  assert (x ∈ rows_where P d) as Hx by (rewrite Hrows; left).
  apply rows_where_elem_of in Hx as [Hx HPx]. destruct x as [j rj]. cbn in Hx.
  assert (j = i) as -> by (by eapply Hunique). congruence.
Qed.

Lemma rows_where_head_None d :
  head (rows_where P d) = None →
  ∀ i r, internal_sessions d !! i = Some r → ¬ P (i, r).
Proof.
  intros Hhead i r Hi HP.
  assert ((i, r) ∈ rows_where P d) as Hin by (by apply rows_where_elem_of).
  destruct (rows_where P d); [by apply elem_of_nil in Hin | done].
Qed.

Lemma rows_where_head_Some d x :
  head (rows_where P d) = Some x → internal_sessions d !! x.1 = Some x.2 ∧ P x.
Proof. intros Hx%head_Some_elem_of. by apply rows_where_elem_of. Qed.

End rows.

#[local] Instance created_at_desc_total : Total created_at_desc.
Proof. intros x y. unfold created_at_desc. lia. Qed.

#[local] Instance created_at_desc_trans : Transitive created_at_desc.
Proof. intros x y z. unfold created_at_desc. lia. Qed.

(** A query that runs in one session: what it returns, and that it leaves
    the database alone. *)
Lemma query_run {A} (f : Database → A) w :
  db (get_db_connection (λ d, Ok (f d, d)) w).2 = db w
  ∧ (get_db_connection (λ d, Ok (f d, d)) w).1
    = if next_fault w then Raise OperationalError else Ok (f (db w)).
Proof. unfold get_db_connection. by destruct (next_fault w). Qed.

(** [get_current_session] returns a current session of the external
    session when there is one, and [None] only when there is none; it fails
    only when the store does. *)
Theorem get_current_session_spec (e : Z) (w : World) :
  db (get_current_session e w).2 = db w
  ∧ match (get_current_session e w).1 with
    | Ok (Some session) =>
        ∃ i r, internal_sessions (db w) !! i = Some r
               ∧ external_session_id r = e ∧ is_current r = true
               ∧ session = _row_to_session i r
    | Ok None =>
        ∀ i r, internal_sessions (db w) !! i = Some r →
               external_session_id r = e → is_current r = false
    | Raise exn => exn = OperationalError ∧ next_fault w = true
    end.
Proof.
  unfold get_current_session. destruct (query_run
    (λ d, uncurry _row_to_session
            <$> head (rows_where (λ x, external_session_id x.2 = e ∧ is_current x.2 = true) d))
    w) as [Hdb ->].
  split; [done |]. destruct (next_fault w); [done |].
  destruct (head _) as [[i r]|] eqn:Hhead; cbn.
  - apply rows_where_head_Some in Hhead as (Hi & He & Hc). eauto 10.
  - intros i r Hi He. pose proof (rows_where_head_None _ _ Hhead i r Hi) as Hnot.
    cbn in Hnot. destruct (is_current r); [| done]. by destruct Hnot.
Qed.

(** After [set_current_session(id)] has returned [True],
    [get_current_session] on the external session of [id] returns the
    session [id], with [is_current] set. *)
Theorem set_current_session_then_get (session_id : Z) (w : World)
    (r0 : InternalSessionModel.t) :
  internal_sessions (db w) !! session_id = Some r0 →
  (set_current_session session_id w).1 = Ok true →
  let w' := (set_current_session session_id w).2 in
  next_fault w' = false →
  (get_current_session (external_session_id r0) w').1
  = Ok (Some (_row_to_session session_id (set_is_current true r0))).
Proof.
  intros Hrow Hok w' Hfault.
  destruct (set_current_session_makes_current _ _ _ Hrow Hok) as [Hid Hothers].
  fold w' in Hid, Hothers. unfold get_current_session.
  destruct (query_run
    (λ d, uncurry _row_to_session
            <$> head (rows_where (λ x, external_session_id x.2 = external_session_id r0
                                       ∧ is_current x.2 = true) d))
    w') as [_ ->].
  rewrite Hfault. f_equal.
  erewrite rows_where_head_unique; [done | exact Hid | done |].
  intros j rj Hj [Hext Hcur]. by eapply Hothers.
Qed.

(** *** Listings *)

Lemma order_by_created_at_desc_sorted rows :
  StronglySorted created_at_desc (order_by_created_at_desc rows).
Proof. apply (StronglySorted_merge_sort _). Qed.

Lemma order_by_created_at_desc_Permutation rows : order_by_created_at_desc rows ≡ₚ rows.
Proof. apply merge_sort_Permutation. Qed.

Lemma listing_rows (P : Z * InternalSessionModel.t → Prop) `{!∀ x, Decision (P x)} d :
  let rows := order_by_created_at_desc (rows_where P d) in
  StronglySorted created_at_desc rows ∧ NoDup rows.*1
  ∧ (∀ x, x ∈ rows ↔ internal_sessions d !! x.1 = Some x.2 ∧ P x)
  ∧ length rows = size (filter P (internal_sessions d)).
Proof.
  intros rows. unfold rows. split_and!.
  - apply order_by_created_at_desc_sorted.
  - rewrite order_by_created_at_desc_Permutation. unfold rows_where.
    eapply sublist_NoDup; [apply (NoDup_fst_map_to_list (internal_sessions d)) |].
    apply fmap_sublist, sublist_filter.
  - intros x. rewrite order_by_created_at_desc_Permutation. apply rows_where_elem_of.
  - rewrite order_by_created_at_desc_Permutation. apply rows_where_length.
Qed.

(** [get_by_external_session] and [get_branch_sessions] return the
    conversion, row by row, of the rows of the external session (of the
    parent session) sorted by [created_at], newest first, each row once;
    [count_sessions] returns the length of the first listing. *)
Theorem internal_session_listings (w : World) (e p : Z) (sessions : list InternalSession.t) :
  ((get_by_external_session e w).1 = Ok sessions →
     (∃ rows, sessions = uncurry _row_to_session <$> rows
        ∧ StronglySorted created_at_desc rows ∧ NoDup rows.*1
        ∧ ∀ x, x ∈ rows ↔ internal_sessions (db w) !! x.1 = Some x.2
                           ∧ external_session_id x.2 = e)
     ∧ (count_sessions e w).1 = Ok (Z.of_nat (length sessions)))
  ∧ ((get_branch_sessions p w).1 = Ok sessions →
     ∃ rows, sessions = uncurry _row_to_session <$> rows
        ∧ StronglySorted created_at_desc rows ∧ NoDup rows.*1
        ∧ ∀ x, x ∈ rows ↔ internal_sessions (db w) !! x.1 = Some x.2
                           ∧ parent_session_id x.2 = Some p).
Proof.
  split.
  - intros Hrun. unfold get_by_external_session in Hrun.
    apply get_db_connection_returns in Hrun as [[= <- _] Hfault].
    destruct (listing_rows (λ x, external_session_id x.2 = e) (db w))
      as (Hsorted & Hdup & Hin & Hlen).
    split; [eauto 10 |].
    unfold count_sessions. rewrite get_db_connection_no_fault by done. cbn.
    by rewrite length_fmap, Hlen.
  - intros Hrun. unfold get_branch_sessions in Hrun.
    apply get_db_connection_returns in Hrun as [[= <- _] Hfault].
    destruct (listing_rows (λ x, parent_session_id x.2 = Some p) (db w))
      as (Hsorted & Hdup & Hin & Hlen).
    eauto 10.
Qed.

(** *** The lineage of a session *)

Lemma get_by_id_no_fault session_id w :
  faults w = [] →
  get_by_id session_id w
  = (Ok (_row_to_session session_id <$> internal_sessions (db w) !! session_id),
     mkWorld (db w) [] (log w ++ [Commit; Close])).
Proof.
  intros Hfaults. unfold get_by_id.
  rewrite get_db_connection_no_fault by (unfold next_fault; by rewrite Hfaults).
  by rewrite Hfaults.
Qed.

Lemma parents_older_alt d :
  parents_older d
  ↔ ∀ i r p, internal_sessions d !! i = Some r → parent_session_id r = Some p → (p < i)%Z.
Proof.
  unfold parents_older, older_parent. split.
  - intros Hall i r p Hi Hp. specialize (Hall i r Hi). cbn in Hall. by rewrite Hp in Hall.
  - intros Hall i r Hi. destruct (parent_session_id r) as [p|] eqn:Hp; [| done].
    cbn. by eapply Hall.
Qed.

Lemma rows_up_to_parent m i r :
  m !! i = Some r → (∀ p, parent_session_id r = Some p → (p < i)%Z) →
  rows_up_to m (parent_session_id r) < rows_up_to m (Some i).
Proof.
  intros Hi Hp. unfold rows_up_to.
  assert (0 < size (filter (λ x : Z * InternalSessionModel.t, (x.1 ≤ i)%Z) m)) as Hpos.
  { apply Nat.neq_0_lt_0, map_size_non_empty_iff. intros Hempty.
    assert (filter (λ x : Z * InternalSessionModel.t, (x.1 ≤ i)%Z) m !! i = Some r) as Hin.
    { apply map_lookup_filter_Some. split; [done | cbn; lia]. }
    by rewrite Hempty, lookup_empty in Hin. }
  destruct (parent_session_id r) as [p|]; [| done].
  specialize (Hp p eq_refl).
  apply map_subset_size. apply map_subset_alt. split.
  - apply map_subseteq_spec. intros j rj.
    rewrite !map_lookup_filter_Some. cbn. intros [? ?]. split; [done | lia].
  - exists i. split.
    + apply map_lookup_filter_None. right. intros r' _. cbn. lia.
    + apply (is_Some_alt (_ !! i)). erewrite (proj2 (map_lookup_filter_Some _ _ _ _)); [done |].
      split; [done | cbn; lia].
Qed.

Lemma lineage_loop_run fuel lineage current_id w :
  faults w = [] → parents_older (db w) →
  rows_up_to (internal_sessions (db w)) current_id < fuel →
  ∃ w', lineage_loop fuel lineage current_id w
        = (Ok (Some (lineage ++ (uncurry _row_to_session
                                   <$> visited fuel (internal_sessions (db w)) current_id))),
           w')
        ∧ db w' = db w.
Proof.
  revert lineage current_id w.
  induction fuel as [|fuel IH]; intros lineage current_id w Hfaults Hparents' Hfuel; [lia |].
  pose proof (proj1 (parents_older_alt _) Hparents') as Hparents.
  cbn [lineage_loop visited].
  destruct (truthy_id current_id) eqn:Htruthy; [| rewrite app_nil_r; by eexists].
  destruct current_id as [i|]; [| done]. change (default 0%Z (Some i)) with i.
  unfold mbind, repo_bind. rewrite get_by_id_no_fault by done.
  destruct (internal_sessions (db w) !! i) as [r|] eqn:Hi; cbn [fmap option_fmap option_map].
  - set (w1 := mkWorld _ _ _).
    change (InternalSession.parent_session_id (_row_to_session i r))
      with (parent_session_id r).
    destruct (IH (lineage ++ [_row_to_session i r]) (parent_session_id r) w1)
      as (w' & -> & Hdb); [done | done | |].
    { cbn. pose proof (rows_up_to_parent (internal_sessions (db w)) i r Hi (λ p, Hparents i r p Hi)). lia. }
    exists w'. split; [| done]. cbn. by rewrite <- app_assoc.
  - rewrite app_nil_r. by eexists.
Qed.

Lemma truthy_id_Some i : truthy_id (Some i) = true ↔ i ≠ 0%Z.
Proof. unfold truthy_id. destruct (Z.eqb_spec i 0); naive_solver. Qed.

Lemma visited_head fuel m current_id x :
  head (visited fuel m current_id) = Some x →
  current_id = Some x.1 ∧ x.1 ≠ 0%Z ∧ m !! x.1 = Some x.2.
Proof.
  destruct fuel as [|fuel]; [done |]. cbn.
  destruct (truthy_id current_id) eqn:Htruthy; [| done].
  destruct current_id as [i|]; [| done]. apply truthy_id_Some in Htruthy. cbn.
  destruct (m !! i) as [r|] eqn:Hi; [| done]. by intros [= <-].
Qed.

Lemma visited_elem_of fuel m current_id x :
  x ∈ visited fuel m current_id → m !! x.1 = Some x.2.
Proof.
  revert current_id. induction fuel as [|fuel IH]; intros current_id; cbn;
    [by rewrite elem_of_nil |].
  destruct (truthy_id current_id); [| by rewrite elem_of_nil].
  destruct (m !! default 0%Z current_id) as [r|] eqn:Hi; [| by rewrite elem_of_nil].
  rewrite elem_of_cons. intros [->|Hx]; [done | by eapply IH].
Qed.

Lemma visited_adjacent fuel m current_id v1 x y v2 :
  visited fuel m current_id = v1 ++ x :: y :: v2 → parent_session_id x.2 = Some y.1.
Proof.
  revert current_id v1. induction fuel as [|fuel IH]; intros current_id v1; cbn;
    [by destruct v1 |].
  destruct (truthy_id current_id); [| by destruct v1].
  destruct (m !! default 0%Z current_id) as [r|] eqn:Hi; [| by destruct v1].
  destruct v1 as [|x' v1]; cbn.
  - intros [= <- Hrest]. cbn.
    assert (head (visited fuel m (parent_session_id r)) = Some y) as Hhead
      by (by rewrite Hrest).
    by apply visited_head in Hhead as [-> _].
  - intros [= _ Hrest]. by eapply IH.
Qed.

Lemma visited_last fuel m current_id x :
  (∀ i r p, m !! i = Some r → parent_session_id r = Some p → (p < i)%Z) →
  rows_up_to m current_id < fuel →
  last (visited fuel m current_id) = Some x →
  ∀ p, parent_session_id x.2 = Some p → p = 0%Z ∨ m !! p = None.
Proof.
  intros Hparents. revert current_id.
  induction fuel as [|fuel IH]; intros current_id Hfuel; [lia |]. cbn.
  destruct (truthy_id current_id) eqn:Htruthy; [| done].
  destruct current_id as [i|]; [| done]. cbn.
  destruct (m !! i) as [r|] eqn:Hi; [| done].
  pose proof (rows_up_to_parent m i r Hi (λ p, Hparents i r p Hi)) as Hlt.
  destruct (visited fuel m (parent_session_id r)) as [|y v] eqn:Hv.
  - intros [= <-] p Hp. cbn in Hp.
    destruct fuel as [|fuel]; [lia |]. cbn in Hv. rewrite Hp in Hv. cbn in Hv.
    unfold truthy_id in Hv. destruct (Z.eqb_spec p 0) as [|_]; [by left | right].
    cbn in Hv. by destruct (m !! p).
  - rewrite last_cons_cons. rewrite <- Hv. apply IH. lia.
Qed.

(** [get_session_lineage] returns when no store failure occurs and every
    branch is younger than its parent, in at most as many turns as there
    are sessions, plus one.  The lineage it returns consists of stored
    sessions, each the parent of the next; it ends with the session asked
    for and starts with a session that has no stored parent; it is empty
    when the session asked for is not stored. *)
Theorem get_session_lineage_spec (fuel : nat) (session_id : Z) (w : World) :
  faults w = [] → parents_older (db w) → size (internal_sessions (db w)) < fuel →
  ∃ lineage,
    (get_session_lineage fuel session_id w).1 = Ok (Some lineage)
    ∧ db (get_session_lineage fuel session_id w).2 = db w
    ∧ (∀ session, session ∈ lineage → stored (db w) session)
    ∧ (∀ l1 a b l2, lineage = l1 ++ a :: b :: l2 →
         InternalSession.parent_session_id b = InternalSession.id a)
    ∧ (∀ r, session_id ≠ 0%Z → internal_sessions (db w) !! session_id = Some r →
         last lineage = Some (_row_to_session session_id r))
    ∧ (∀ root p, head lineage = Some root →
         InternalSession.parent_session_id root = Some p →
         p = 0%Z ∨ internal_sessions (db w) !! p = None)
    ∧ (internal_sessions (db w) !! session_id = None → lineage = []).
Proof.
  intros Hfaults Hparents Hfuel. set (m := internal_sessions (db w)).
  assert (rows_up_to m (Some session_id) < fuel) as Hfuel'.
  { cbn. pose proof (map_size_filter (λ x : Z * InternalSessionModel.t, (x.1 ≤ session_id)%Z) m).
    fold m in Hfuel. lia. }
  destruct (lineage_loop_run fuel [] (Some session_id) w Hfaults Hparents Hfuel')
    as (w' & Hrun & Hdb).
  fold m in Hrun. set (v := visited fuel m (Some session_id)) in *.
  exists (reverse (uncurry _row_to_session <$> v)).
  unfold get_session_lineage, mbind, repo_bind. rewrite Hrun. cbn.
  split_and!; [done | done | ..].
  - intros session. rewrite elem_of_reverse, list_elem_of_fmap.
    intros ([i r] & -> & Hx). apply visited_elem_of in Hx. by exists i, r.
  - intros l1 a b l2 Hl. apply (f_equal reverse) in Hl.
    rewrite reverse_involutive, reverse_app, !reverse_cons, <- !app_assoc in Hl. cbn in Hl.
    apply fmap_app_inv in Hl as (v1 & v2' & _ & Hv2 & Hv).
    destruct v2' as [|[ib rb] [|[ia ra] v2]]; [done.. |]. cbn in Hv2.
    injection Hv2 as -> -> _. apply visited_adjacent in Hv. done.
  - intros r Hid Hrow. rewrite last_reverse.
    destruct fuel as [|fuel']; [lia |]. unfold v. cbn [visited].
    rewrite (proj2 (truthy_id_Some _) Hid). cbn [default from_option id].
    fold m in Hrow. by rewrite Hrow.
  - intros root p. rewrite head_reverse, fmap_last.
    intros ([i r] & Hlast & ->)%fmap_Some. cbn.
    apply (visited_last fuel m (Some session_id) (i, r)); [| done..].
    by apply parents_older_alt.
  - intros Hrow. destruct fuel as [|fuel']; [done |]. unfold v. cbn [visited].
    destruct (truthy_id (Some session_id)); [| done]. cbn [default from_option id].
    fold m in Hrow. by rewrite Hrow.
Qed.

(** *** What [create] stores can be read back *)

Lemma row_to_session_row_of new_id session now :
  _row_to_session new_id (row_of session now)
  = InternalSession.set_id_created_at (Some new_id) (Some now) session.
Proof. by destruct session. Qed.

Lemma add_flush_unique row d new_id d' :
  add_flush row d = Ok (new_id, d') →
  ∀ j rj, internal_sessions d !! j = Some rj →
    langgraph_session_id rj ≠ langgraph_session_id row.
Proof.
  unfold add_flush. case_match eqn:Hchecks; [| done]. intros _.
  apply andb_prop in Hchecks as [[[_ Hlg]%andb_prop _]%andb_prop _].
  apply bool_decide_eq_true in Hlg. intros j rj Hj. by apply (Hlg j rj).
Qed.

(** After [create] has returned, [get_by_id] on the new id and
    [get_by_langgraph_session_id] on the LangGraph id load one and the same
    session: it has the new id and every other attribute of the session
    passed to [create] but [created_at], which it takes from the column,
    where the instant of the flush is stored.  (Of the [created_at] of the
    session loaded and of the session returned nothing is said: on SQLite
    the first is naive and the second aware.) *)
Theorem create_then_get (session session' : InternalSession.t) (now : datetime) (w : World) :
  (create session now w).1 = Ok session' →
  let w' := (create session now w).2 in
  next_fault w' = false →
  ∃ new_id r loaded,
    InternalSession.id session' = Some new_id
    ∧ internal_sessions (db w') !! new_id = Some r
    ∧ created_at r = now
    ∧ (get_by_id new_id w').1 = Ok (Some loaded)
    ∧ (get_by_langgraph_session_id (InternalSession.langgraph_session_id session) w').1
      = Ok (Some loaded)
    ∧ InternalSession.id loaded = Some new_id
    ∧ InternalSession.set_id_created_at None None loaded
      = InternalSession.set_id_created_at None None session.
Proof.
  intros Hok w' Hfault.
  pose proof (hoare_run _ _ _ w (create_spec session now (db w))) as Hrun.
  rewrite Hok in Hrun. destruct Hrun as (new_id & Hadd & ->). fold w' in Hadd.
  pose proof (add_flush_internal_sessions _ _ _ _ Hadd) as Hrows.
  pose proof (add_flush_unique _ _ _ _ Hadd) as Hunique.
  pose proof (next_id_fresh (internal_sessions (cleared_db session None (db w)))) as Hfresh.
  assert (new_id = next_id (internal_sessions (cleared_db session None (db w)))) as Hnew.
  { revert Hadd. unfold add_flush. case_match; [| done]. by intros [= <- _]. }
  rewrite <- Hnew in Hfresh.
  exists new_id, (row_of session now), (_row_to_session new_id (row_of session now)).
  split_and!.
  - by destruct session.
  - by rewrite Hrows, lookup_insert_eq.
  - done.
  - unfold get_by_id. rewrite get_db_connection_no_fault by done. cbn [fst].
    by rewrite Hrows, lookup_insert_eq.
  - unfold get_by_langgraph_session_id. rewrite get_db_connection_no_fault by done.
    cbn [fst].
    erewrite rows_where_head_unique; [done | | done |].
    + by rewrite Hrows, lookup_insert_eq.
    + intros j rj. rewrite Hrows. cbn.
      destruct (decide (j = new_id)) as [|Hne]; [done |].
      rewrite lookup_insert_ne by done. intros Hj Hlg. by destruct (Hunique j rj Hj).
  - done.
  - by destruct session.
Qed.

(** *** When [create] returns *)









(** *** Branches are younger than their parents *)








(** *** [update_tool_count] *)

Lemma update_tool_count_no_fault session_id increment w :
  next_fault w = false →
  update_tool_count session_id increment w
  = (Ok (bool_decide (is_Some (internal_sessions (db w) !! session_id))),
     mkWorld
       (match internal_sessions (db w) !! session_id with
        | Some r =>
            with_internal_sessions
              (<[session_id := set_tool_invocation_count
                                 (tool_invocation_count r + increment) r]>
                 (internal_sessions (db w))) (db w)
        | None => db w
        end)
       (tail (faults w)) (log w ++ [Commit; Close])).
Proof.
  intros Hfault. unfold update_tool_count. rewrite get_db_connection_no_fault by done.
  by destruct (internal_sessions (db w) !! session_id).
Qed.

(** Two increments add up, and the result tells whether the session is
    stored. *)
Lemma update_tool_count_adds (session_id a b : Z) (w : World) :
  faults w = [] →
  let w1 := (update_tool_count session_id a w).2 in
  (update_tool_count session_id b w1).1
  = Ok (bool_decide (is_Some (internal_sessions (db w) !! session_id)))
  ∧ db (update_tool_count session_id b w1).2
    = db (update_tool_count session_id (a + b) w).2.
Proof.
  intros Hfaults w1.
  assert (next_fault w = false) as Hfault by (unfold next_fault; by rewrite Hfaults).
  unfold w1. rewrite (update_tool_count_no_fault _ a w) by done. cbn [snd].
  rewrite !update_tool_count_no_fault
    by (done || (unfold next_fault; cbn; by rewrite Hfaults)).
  cbn [fst snd db].
  destruct (internal_sessions (db w) !! session_id) as [r|] eqn:Hr; cbn.
  - rewrite lookup_insert_eq. cbn. split; [done |].
    rewrite insert_insert_eq. unfold with_internal_sessions. cbn.
    by rewrite Z.add_assoc.
  - by rewrite Hr.
Qed.

(** *** [delete] *)

(** [delete] of a stored session removes it together with its checkpoints,
    and with them only; no session that stays names it as its parent. *)
Theorem delete_cascades (session_id : Z) (w : World) :
  (InternalSessionRepository.delete session_id w).1 = Ok true →
  let d' := db (InternalSessionRepository.delete session_id w).2 in
  dom (internal_sessions d') = dom (internal_sessions (db w)) ∖ {[session_id]}
  ∧ (∀ k c, checkpoints d' !! k = Some c
            ↔ checkpoints (db w) !! k = Some c
              ∧ CheckpointModel.internal_session_id c ≠ session_id)
  ∧ (∀ j r, internal_sessions d' !! j = Some r → parent_session_id r ≠ Some session_id)
  ∧ external_sessions d' = external_sessions (db w).
Proof.
  intros Hok d'. unfold InternalSessionRepository.delete in Hok, d'.
  apply get_db_connection_returns in Hok as [Hbody _]. subst d'. revert Hbody.
  destruct (internal_sessions (db w) !! session_id) as [r0|] eqn:Hrow; [| done].
  intros [= <-].
  set (gone := filter (λ x : Z * InternalSessionModel.t, x.1 = session_id)
                 (internal_sessions (db w))).
  assert (∀ j, is_Some (gone !! j) ↔ j = session_id) as Hgone.
  { intros j. unfold gone. split.
    - intros [r Hr]. by apply map_lookup_filter_Some in Hr as [_ ?].
    - intros ->. exists r0. by apply map_lookup_filter_Some. }
  split_and!.
  - apply set_eq. intros j. unfold delete_internal_sessions.
    rewrite elem_of_difference, elem_of_singleton, !elem_of_dom. cbn.
    rewrite lookup_fmap, fmap_is_Some. split.
    + intros [r1 Hr1]. apply map_lookup_filter_Some in Hr1 as [Hr1 Hne].
      rewrite lookup_fmap in Hr1. apply fmap_Some in Hr1 as (r & Hr & _). eauto.
    + intros [[r Hr] Hne]. eexists.
      apply map_lookup_filter_Some. split; [| done]. by rewrite lookup_fmap, Hr.
  - intros k c. unfold delete_internal_sessions.
    change (checkpoints (with_internal_sessions ?m ?d)) with (checkpoints d).
    rewrite lookup_delete_checkpoints. fold gone.
    destruct (checkpoints (db w) !! k) as [c'|] eqn:Hk; cbn; [| naive_solver].
    case_decide as Hc; cbn in Hc; rewrite Hgone in Hc; naive_solver.
  - intros j r. unfold delete_internal_sessions. cbn. rewrite lookup_fmap.
    intros (r1 & _ & ->)%fmap_Some. cbn. fold gone.
    destruct (parent_session_id r1) as [p|] eqn:Hp; [| done]. cbn.
    case_bool_decide as Hin; [done |]. rewrite Hgone in Hin. congruence.
  - done.
Qed.

(** *** On the sample database *)

Lemma set_current_session_then_get_witness :
  ∃ r0,
    internal_sessions (db RepoSamples.w2) !! 2%Z = Some r0
    ∧ (set_current_session 2 RepoSamples.w2).1 = Ok true
    ∧ next_fault (set_current_session 2 RepoSamples.w2).2 = false
    ∧ (get_current_session (external_session_id r0) (set_current_session 2 RepoSamples.w2).2).1
      = Ok (Some (_row_to_session 2 (set_is_current true r0))).
Proof.
  destruct (internal_sessions (db RepoSamples.w2) !! 2%Z) as [r0|] eqn:Hrow;
    [| by vm_compute in Hrow].
  assert ((set_current_session 2 RepoSamples.w2).1 = Ok true) as Hrun by reflexivity.
  assert (next_fault (set_current_session 2 RepoSamples.w2).2 = false) as Hfault
    by reflexivity.
  exists r0. split_and!; [reflexivity | exact Hrun | exact Hfault |].
  exact (set_current_session_then_get 2 RepoSamples.w2 r0 Hrow Hrun Hfault).
Defined.

Lemma get_session_lineage_spec_witness :
  faults BranchSamples.w3 = []
  ∧ parents_older (db BranchSamples.w3)
  ∧ size (internal_sessions (db BranchSamples.w3)) < 4
  ∧ ∃ lineage,
      (get_session_lineage 4 3 BranchSamples.w3).1 = Ok (Some lineage)
      ∧ ∀ session, session ∈ lineage → stored (db BranchSamples.w3) session.
Proof.
  assert (faults BranchSamples.w3 = []) as Hfaults by reflexivity.
  assert (parents_older (db BranchSamples.w3)) as Hparents.
  { apply (bool_decide_unpack _). by vm_compute. }
  assert (size (internal_sessions (db BranchSamples.w3)) < 4) as Hfuel.
  { apply (bool_decide_unpack _). by vm_compute. }
  split_and!; [exact Hfaults | exact Hparents | exact Hfuel |].
  destruct (get_session_lineage_spec 4 3 BranchSamples.w3 Hfaults Hparents Hfuel)
    as (lineage & Hrun & _ & Hstored & _).
  exists lineage. split; [exact Hrun | exact Hstored].
Defined.

Lemma create_then_get_witness :
  ∃ session' new_id loaded,
    (create BranchSamples.branch 30 RepoSamples.w2).1 = Ok session'
    ∧ next_fault (create BranchSamples.branch 30 RepoSamples.w2).2 = false
    ∧ InternalSession.id session' = Some new_id
    ∧ (get_by_id new_id (create BranchSamples.branch 30 RepoSamples.w2).2).1
      = Ok (Some loaded)
    ∧ InternalSession.parent_session_id loaded = Some 2%Z.
Proof.
  destruct (create BranchSamples.branch 30 RepoSamples.w2).1 as [session'|e] eqn:Hrun;
    [| by vm_compute in Hrun].
  assert (next_fault (create BranchSamples.branch 30 RepoSamples.w2).2 = false) as Hfault
    by reflexivity.
  destruct (create_then_get BranchSamples.branch session' 30 RepoSamples.w2 Hrun Hfault)
    as (new_id & r & loaded & Hid & _ & _ & Hget & _ & _ & Hrest).
  exists session', new_id, loaded.
  split_and!; [reflexivity | exact Hfault | exact Hid | exact Hget |].
  by apply (f_equal InternalSession.parent_session_id) in Hrest.
Defined.



Lemma delete_cascades_witness :
  (InternalSessionRepository.delete 1 RepoSamples.w6).1 = Ok true
  ∧ dom (internal_sessions (db (InternalSessionRepository.delete 1 RepoSamples.w6).2))
    = dom (internal_sessions (db RepoSamples.w6)) ∖ {[1%Z]}.
Proof.
  assert ((InternalSessionRepository.delete 1 RepoSamples.w6).1 = Ok true) as Hrun
    by reflexivity.
  split; [exact Hrun |].
  exact (proj1 (delete_cascades 1 RepoSamples.w6 Hrun)).
Defined.

End InternalSessionQueryFacts.

(** ** external_session_repository.py *)

Module ExternalSessionFacts.
#[local] Set Warnings "-clear-no-such-hyp".
Import ExternalSessionModel ExternalSessionRepository.
Import Transactions DatetimeFacts TransactionFacts ExternalSessionSpec DatabaseFacts.

#[local] Instance external_created_at_desc_total : Total created_at_desc.
Proof. intros x y. unfold created_at_desc. lia. Qed.

#[local] Instance external_created_at_desc_trans : Transitive created_at_desc.
Proof. intros x y z. unfold created_at_desc. lia. Qed.

Section facts.
Context {backend : Backend} `{Isoformat, ExternalSession.Methods}.

(** [create] returns exactly when the user is stored (and the store does
    not fail).  The row it stores has the instant of the flush as its
    [created_at] column and, as payload, the dict of the session with
    ["created_at"] set to the ISO form of the aware datetime of the flush,
    which is also the [created_at] of the session returned.  A later
    session renders the column like that on PostgreSQL, and otherwise on
    SQLite, which gives the column back without its offset. *)
Theorem create_external_payload (session : ExternalSession.t) (now : datetime)
    (w : World) :
  let run := create session now w in
  (next_fault w = false →
     ((∃ session', run.1 = Ok session') ↔ ExternalSession.user_id session ∈ users (db w))
     ∧ ((∀ session', run.1 ≠ Ok session') → run.1 = Raise IntegrityError ∧ db run.2 = db w))
  ∧ ∀ session', run.1 = Ok session' →
      ∃ new_id r,
        ExternalSession.id session' = Some new_id
        ∧ external_sessions (db w) !! new_id = None
        ∧ external_sessions (db run.2) = <[new_id := r]> (external_sessions (db w))
        ∧ created_at r = now
        ∧ ExternalSession.created_at session' = Some now
        ∧ data r = <["created_at" := JStr (isoformat UTC now)]>
                     (ExternalSession.to_dict session)
        ∧ payload_coherent PostgreSQL r
        ∧ ¬ payload_coherent SQLite r.
Proof.
  intros run. split.
  - intros Hfault. unfold run, create. rewrite get_db_connection_no_fault by done.
    unfold add_flush. cbn. case_bool_decide as Huser; cbn.
    + split; [split; by eauto |]. intros Hno. by destruct (Hno _ eq_refl).
    + split; [| done]. split; [by intros [? [=]] | done].
  - intros session' Hrun. unfold run in *. clear run.
    remember (db (create session now w).2) as d' eqn:Hd'.
    unfold create in Hrun. apply get_db_connection_returns in Hrun as [Hbody _].
    change (db (get_db_connection _ w).2) with (db (create session now w).2) in Hbody.
    rewrite <- Hd' in Hbody. clear Hd'. revert Hbody.
    unfold add_flush. cbn. case_bool_decide as Huser; [| done]. cbn.
    intros [= <- <-]. cbn. rewrite alter_insert_eq. cbn.
    eexists _, _.
    split_and!; [done | apply next_id_fresh | done | done | done | done | |].
    + unfold payload_coherent. cbn. apply lookup_insert_eq.
    + unfold payload_coherent. cbn. rewrite lookup_insert_eq. intros [= Heq].
      by apply (isoformat_aware_naive now).
Qed.

Lemma row_to_session_id x : ExternalSession.id (_row_to_session x) = Some x.1.
Proof. unfold _row_to_session. by destruct (ExternalSession.from_dict _). Qed.

(** [get_user_sessions] returns the conversion, row by row, of the
    sessions of the user (the active ones with [active_only]) sorted by
    [created_at], newest first, each once; [count_user_sessions] returns
    its length; and [check_ownership] tells whether the listing of all the
    user's sessions has the session. *)
Theorem user_sessions_agree (w : World) (u : Z) (active_only : bool)
    (sessions : list ExternalSession.t) :
  (get_user_sessions u active_only w).1 = Ok sessions →
  (∃ rows, sessions = _row_to_session <$> rows
     ∧ ExternalSession.id <$> sessions = Some <$> rows.*1
     ∧ StronglySorted created_at_desc rows ∧ NoDup rows.*1
     ∧ ∀ x, x ∈ rows ↔ external_sessions (db w) !! x.1 = Some x.2 ∧ of_user u active_only x)
  ∧ (count_user_sessions u active_only w).1 = Ok (Z.of_nat (length sessions))
  ∧ ∀ session_id, active_only = false →
      (check_ownership session_id u w).1
      = Ok (bool_decide (Some session_id ∈ ExternalSession.id <$> sessions)).
Proof.
  intros Hrun. unfold get_user_sessions in Hrun.
  apply get_db_connection_returns in Hrun as [[= <- _] Hfault].
  set (rows := merge_sort created_at_desc
                 (filter (of_user u active_only) (map_to_list (external_sessions (db w))))).
  assert (∀ x, x ∈ rows ↔ external_sessions (db w) !! x.1 = Some x.2 ∧ of_user u active_only x)
    as Hin.
  { intros x. unfold rows.
    rewrite merge_sort_Permutation, list_elem_of_filter, elem_of_map_to_list'. tauto. }
  assert (NoDup rows.*1) as Hdup.
  { unfold rows. rewrite merge_sort_Permutation.
    eapply sublist_NoDup; [apply (NoDup_fst_map_to_list (external_sessions (db w))) |].
    apply fmap_sublist, sublist_filter. }
  assert (ExternalSession.id <$> (_row_to_session <$> rows) = Some <$> rows.*1) as Hids.
  { rewrite <- !list_fmap_compose. apply list_fmap_ext. intros _ x _. cbn.
    apply row_to_session_id. }
  split_and!.
  - exists rows. split_and!; try done. apply (StronglySorted_merge_sort _).
  - unfold count_user_sessions. rewrite get_db_connection_no_fault by done. cbn.
    do 2 f_equal. rewrite length_fmap. unfold rows. rewrite merge_sort_Permutation.
    rewrite <- length_map_to_list. apply Permutation_length.
    apply NoDup_Permutation; [apply NoDup_map_to_list | apply NoDup_filter, NoDup_map_to_list |].
    intros [i r]. rewrite list_elem_of_filter, !elem_of_map_to_list, map_lookup_filter_Some.
    unfold of_user. cbn. tauto.
  - intros session_id ->. unfold check_ownership.
    rewrite get_db_connection_no_fault by done. cbn. f_equal.
    apply bool_decide_ext. rewrite Hids, size_filter_pos. split.
    + intros (i & r & Hi & [Hid Hu]). cbn in *. subst i.
      apply list_elem_of_fmap. exists session_id. split; [done |].
      apply list_elem_of_fmap. exists (session_id, r). split; [done |]. apply Hin. by split.
    + intros (i & [= <-] & Hi)%list_elem_of_fmap.
      apply list_elem_of_fmap in Hi as ([j r] & -> & Hx). apply Hin in Hx as [Hx [Hu _]].
      cbn in *. eauto.
Qed.

(** [delete] of a stored external session removes it together with its
    internal sessions and their checkpoints, and with them only. *)
Theorem external_delete_cascades (session_id : Z) (w : World) :
  (delete session_id w).1 = Ok true →
  let d' := db (delete session_id w).2 in
  external_sessions d' = base.delete session_id (external_sessions (db w))
  ∧ (∀ j, is_Some (internal_sessions d' !! j)
          ↔ ∃ r, internal_sessions (db w) !! j = Some r
                 ∧ InternalSessionModel.external_session_id r ≠ session_id)
  ∧ (∀ k c, checkpoints d' !! k = Some c
            ↔ checkpoints (db w) !! k = Some c
              ∧ ∀ r, internal_sessions (db w) !! CheckpointModel.internal_session_id c = Some r →
                     InternalSessionModel.external_session_id r ≠ session_id).
Proof.
  intros Hok d'. unfold delete in Hok, d'.
  apply get_db_connection_returns in Hok as [Hbody _]. subst d'. revert Hbody.
  destruct (external_sessions (db w) !! session_id) as [r0|] eqn:Hrow; [| done].
  intros [= <-].
  set (gone := filter (λ x : Z * InternalSessionModel.t,
                         InternalSessionModel.external_session_id x.2 = session_id)
                 (internal_sessions (db w))).
  split_and!.
  - done.
  - intros j. unfold delete_external_session, delete_internal_sessions. cbn.
    rewrite lookup_fmap, fmap_is_Some. split.
    + intros [r1 Hr1]. apply map_lookup_filter_Some in Hr1 as [Hr1 Hne].
      rewrite lookup_fmap in Hr1. apply fmap_Some in Hr1 as (r & Hr & ->). eauto.
    + intros (r & Hr & Hne). eexists.
      apply map_lookup_filter_Some. split; [by rewrite lookup_fmap, Hr | done].
  - intros k c. unfold delete_external_session, delete_internal_sessions.
    change (checkpoints (with_external_sessions ?m ?d)) with (checkpoints d).
    change (checkpoints (with_internal_sessions ?m ?d)) with (checkpoints d).
    rewrite lookup_delete_checkpoints. fold gone.
    destruct (checkpoints (db w) !! k) as [c'|] eqn:Hk; cbn; [| naive_solver].
    assert (is_Some (gone !! CheckpointModel.internal_session_id c')
            ↔ ∃ r, internal_sessions (db w) !! CheckpointModel.internal_session_id c' = Some r
                   ∧ InternalSessionModel.external_session_id r = session_id) as Hgone.
    { unfold gone. split.
      - intros [r Hr]. apply map_lookup_filter_Some in Hr. eauto.
      - intros (r & Hr & He). exists r. by apply map_lookup_filter_Some. }
    case_decide as Hc; cbn in Hc; rewrite Hgone in Hc.
    + split; [done |]. intros [[= <-] Hno]. destruct Hc as (r & Hr & He).
      by destruct (Hno r Hr).
    + split; [| naive_solver]. intros [= <-]. split; [done |]. intros r Hr He.
      apply Hc. eauto.
Qed.

(** [deactivate] of a stored session clears [is_active] and stamps
    [updated_at] with the time read in [update]; it leaves the owner and
    the creation time of the session, and every other session, as they
    were. *)
Theorem deactivate_spec (session_id : Z) (now now' : datetime) (w : World) :
  (deactivate session_id now now' w).1 = Ok true →
  let d' := db (deactivate session_id now now' w).2 in
  ∃ r r',
    external_sessions (db w) !! session_id = Some r
    ∧ external_sessions d' = <[session_id := r']> (external_sessions (db w))
    ∧ is_active r' = false ∧ updated_at r' = Some now' ∧ identity_kept r r'
    ∧ internal_sessions d' = internal_sessions (db w)
    ∧ checkpoints d' = checkpoints (db w).
Proof.
  intros Hok d'. subst d'. revert Hok.
  unfold deactivate, mbind, repo_bind.
  destruct (get_by_id session_id w) as [[o|e] w1] eqn:Hget; [| done].
  assert (db w1 = db w ∧ o = (λ r, _row_to_session (session_id, r))
                                <$> external_sessions (db w) !! session_id) as [Hdb ->].
  { unfold get_by_id in Hget.
    pose proof (get_db_connection_ok _ _ _ _ Hget) as [[= -> Hdb] _]. done. }
  destruct (external_sessions (db w) !! session_id) as [r|] eqn:Hrow; [| done].
  cbn [fmap option_fmap option_map].
  set (session := ExternalSession.set_updated_at _ _).
  assert (ExternalSession.id session = Some session_id) as Hid.
  { unfold session, _row_to_session. by destruct (ExternalSession.from_dict _). }
  assert (ExternalSession.is_active session = false) as Hactive.
  { unfold session, _row_to_session. by destruct (ExternalSession.from_dict _). }
  unfold update. rewrite Hid. destruct (session_id =? 0)%Z; [done |].
  intros Hok. apply get_db_connection_returns in Hok as [Hbody _]. revert Hbody.
  rewrite Hdb, Hrow. intros [= <-]. cbn.
  eexists r, _. by split_and!.
Qed.

(** [get_by_internal_session] returns a stored session that lists the
    LangGraph session when there is one, and [None] only when there is
    none; it fails only when the store does, and writes nothing. *)
Theorem get_by_internal_session_spec (langgraph_session_id : string) (w : World) :
  db (get_by_internal_session langgraph_session_id w).2 = db w
  ∧ match (get_by_internal_session langgraph_session_id w).1 with
    | Ok (Some session) =>
        langgraph_session_id ∈ ExternalSession.internal_session_ids session
        ∧ ∃ i r, external_sessions (db w) !! i = Some r ∧ session = _row_to_session (i, r)
    | Ok None =>
        ∀ i r, external_sessions (db w) !! i = Some r →
          langgraph_session_id ∉ ExternalSession.internal_session_ids (_row_to_session (i, r))
    | Raise exn => exn = OperationalError ∧ next_fault w = true
    end.
Proof.
  unfold get_by_internal_session, get_db_connection. cbn.
  destruct (next_fault w); cbn; [done |]. split; [done |].
  destruct (head _) as [session|] eqn:Hhead.
  - apply head_Some_elem_of, list_elem_of_filter in Hhead as [Hlists Hin].
    split; [done |]. apply list_elem_of_fmap in Hin as ([i r] & -> & Hin).
    apply elem_of_map_to_list in Hin. eauto.
  - intros i r Hi Hlists.
    assert (_row_to_session (i, r)
            ∈ filter (λ session,
                        langgraph_session_id ∈ ExternalSession.internal_session_ids session)
                (_row_to_session <$> map_to_list (external_sessions (db w)))) as Hin.
    { apply list_elem_of_filter. split; [done |].
      apply list_elem_of_fmap. exists (i, r). split; [done |]. by apply elem_of_map_to_list. }
    destruct (filter _ _); [by apply elem_of_nil in Hin | done].
Qed.

End facts.
Lemma create_external_payload_witness :
  let run :=
    @create RepoSamples.sample_isoformat RepoSamples.sample_external_session_methods
      BranchSamples.notes 5 RepoSamples.w0 in
  next_fault RepoSamples.w0 = false
  ∧ ExternalSession.user_id BranchSamples.notes ∈ users (db RepoSamples.w0)
  ∧ ∃ session' new_id r,
      run.1 = Ok session'
      ∧ ExternalSession.id session' = Some new_id
      ∧ external_sessions (db run.2) = <[new_id := r]> (external_sessions (db RepoSamples.w0))
      ∧ data r !! "created_at" = Some (JStr "5+00:00")
      ∧ @isoformat RepoSamples.sample_isoformat (loaded_tzinfo SQLite) (created_at r) = "5"
      ∧ ¬ @payload_coherent RepoSamples.sample_isoformat SQLite r.
Proof.
  cbv zeta.
  assert (next_fault RepoSamples.w0 = false) as Hfault by reflexivity.
  assert (ExternalSession.user_id BranchSamples.notes ∈ users (db RepoSamples.w0)) as Huser.
  { apply (bool_decide_unpack _). by vm_compute. }
  split_and!; [exact Hfault | exact Huser |].
  destruct (@create_external_payload RepoSamples.sample_isoformat
              RepoSamples.sample_external_session_methods BranchSamples.notes 5 RepoSamples.w0)
    as [Hreturns Hpost].
  destruct (proj2 (proj1 (Hreturns Hfault)) Huser) as [session' Hrun].
  destruct (Hpost session' Hrun)
    as (new_id & r & Hid & _ & Hrows & Hnow & _ & Hdata & _ & Hsqlite).
  exists session', new_id, r.
  split_and!; [exact Hrun | exact Hid | exact Hrows | | | exact Hsqlite].
  - rewrite Hdata. by rewrite lookup_insert_eq.
  - by rewrite Hnow.
Defined.

Lemma user_sessions_agree_witness :
  ∃ sessions,
    (@get_user_sessions SQLite RepoSamples.sample_isoformat
       RepoSamples.sample_external_session_methods
       1 true RepoSamples.w0).1 = Ok sessions
    ∧ (count_user_sessions 1 true RepoSamples.w0).1 = Ok (Z.of_nat (length sessions)).
Proof.
  destruct (@get_user_sessions SQLite RepoSamples.sample_isoformat
              RepoSamples.sample_external_session_methods 1 true RepoSamples.w0).1
    as [sessions|e] eqn:Hrun; [| by vm_compute in Hrun].
  exists sessions. split; [reflexivity |].
  exact (proj1 (proj2 (@user_sessions_agree SQLite RepoSamples.sample_isoformat
                         RepoSamples.sample_external_session_methods
                         RepoSamples.w0 1 true sessions Hrun))).
Defined.

Lemma external_delete_cascades_witness :
  (delete 1 RepoSamples.w6).1 = Ok true
  ∧ external_sessions (db (delete 1 RepoSamples.w6).2)
    = base.delete 1%Z (external_sessions (db RepoSamples.w6)).
Proof.
  assert ((delete 1 RepoSamples.w6).1 = Ok true) as Hrun by reflexivity.
  split; [exact Hrun |].
  exact (proj1 (external_delete_cascades 1 RepoSamples.w6 Hrun)).
Defined.

Lemma deactivate_spec_witness :
  let run :=
    @deactivate SQLite RepoSamples.sample_isoformat
      RepoSamples.sample_external_session_methods
      2 40 41 RepoSamples.w6 in
  run.1 = Ok true
  ∧ ∃ r r',
      external_sessions (db RepoSamples.w6) !! 2%Z = Some r
      ∧ external_sessions (db run.2) = <[2%Z := r']> (external_sessions (db RepoSamples.w6))
      ∧ is_active r' = false ∧ updated_at r' = Some 41%Z.
Proof.
  cbv zeta.
  assert ((@deactivate SQLite RepoSamples.sample_isoformat
             RepoSamples.sample_external_session_methods
             2 40 41 RepoSamples.w6).1 = Ok true) as Hrun by reflexivity.
  split; [exact Hrun |].
  destruct (@deactivate_spec SQLite RepoSamples.sample_isoformat
              RepoSamples.sample_external_session_methods 2 40 41 RepoSamples.w6 Hrun)
    as (r & r' & Hrow & Hrows & Hactive & Hupdated & _).
  exists r, r'. split_and!; [exact Hrow | exact Hrows | exact Hactive | exact Hupdated].
Defined.

End ExternalSessionFacts.

(** ** checkpoint_repository.py: counts, latest checkpoint and metadata *)

Module CheckpointQueryFacts.
#[local] Set Warnings "-clear-no-such-hyp".
Import CheckpointModel CheckpointRepository.
Import Transactions TransactionFacts CheckpointSpec CheckpointFacts DatabaseFacts.

Section facts.
Context `{Isoformat, Checkpoint.Methods}.

Lemma rows_by_internal_session_length s auto_only d :
  length (rows_by_internal_session s auto_only d)
  = size (filter (of_session s auto_only) (checkpoints d)).
Proof.
  unfold rows_by_internal_session. rewrite order_by_length.
  rewrite <- length_map_to_list. apply Permutation_length.
  apply NoDup_Permutation; [apply NoDup_filter, NoDup_map_to_list | apply NoDup_map_to_list |].
  intros [i r]. rewrite list_elem_of_filter, !elem_of_map_to_list, map_lookup_filter_Some.
  tauto.
Qed.

(** The counts of [count_checkpoints] are the lengths of the two listings
    of the session, and ["manual"] is the number of its checkpoints that
    are not automatic. *)
Theorem count_checkpoints_agree (s : Z) (w : World) (counts : dict) :
  (count_checkpoints s w).1 = Ok counts →
  ∃ cps cps_auto,
    (get_by_internal_session s false w).1 = Ok cps
    ∧ (get_by_internal_session s true w).1 = Ok cps_auto
    ∧ counts = <["total" := JInt (Z.of_nat (length cps))]>
               (<["auto" := JInt (Z.of_nat (length cps_auto))]>
               (<["manual" := JInt (Z.of_nat (size (filter
                    (λ x, internal_session_id x.2 = s ∧ is_auto x.2 = false)
                    (checkpoints (db w)))))]> ∅)).
Proof.
  intros Hrun. unfold count_checkpoints in Hrun.
  apply get_db_connection_returns in Hrun as [[= <- _] Hfault].
  unfold get_by_internal_session. rewrite !get_db_connection_no_fault by done. cbn.
  eexists _, _. split_and!; [done | done |].
  rewrite !length_fmap, !rows_by_internal_session_length.
  set (all := filter (λ x : Z * CheckpointModel.t, internal_session_id x.2 = s) (checkpoints (db w))).
  assert (filter (of_session s false) (checkpoints (db w)) = all) as ->.
  { apply map_filter_ext. intros i r _. unfold of_session. cbn. naive_solver. }
  assert (filter (of_session s true) (checkpoints (db w))
          = filter (λ x, internal_session_id x.2 = s ∧ is_auto x.2 = true) (checkpoints (db w)))
    as ->.
  { apply map_filter_ext. intros i r _. unfold of_session. cbn. naive_solver. }
  assert (size all
          = size (filter (λ x, internal_session_id x.2 = s ∧ is_auto x.2 = true)
                         (checkpoints (db w)))
            + size (filter (λ x, internal_session_id x.2 = s ∧ is_auto x.2 = false)
                           (checkpoints (db w)))) as Hsum.
  { rewrite <- map_size_disj_union.
    - f_equal. apply map_eq. intros i. apply option_eq. intros r.
      rewrite lookup_union_Some_raw, !map_lookup_filter_Some, map_lookup_filter_None.
      unfold all. rewrite map_lookup_filter_Some. cbn.
      destruct (is_auto r) eqn:Hauto; split.
      + intros [Hi Hs]. by left.
      + by intros [(? & ? & ?)|(_ & ? & ? & ?)].
      + intros [Hi Hs]. right. split; [right | done].
        intros x Hx [_ Hx']. congruence.
      + by intros [(? & ? & ?)|(_ & ? & ? & ?)].
    - apply map_disjoint_spec. intros i r r'.
      rewrite !map_lookup_filter_Some. cbn. intros (? & ? & ?) (? & ? & ?). congruence. }
  do 4 f_equal. lia.
Qed.

Lemma strictly_sorted_head rows x :
  StronglySorted strictly_newer rows → NoDup rows.*1 → x ∈ rows →
  (∀ y, y ∈ rows → y.1 ≠ x.1 → strictly_newer x y) →
  head rows = Some x.
Proof.
  intros Hsorted Hdup Hx Hmax. destruct rows as [|h rows]; [by apply elem_of_nil in Hx |].
  cbn. f_equal. rewrite fmap_cons in Hdup. apply NoDup_cons in Hdup as [Hh _].
  apply elem_of_cons in Hx as [->|Hx]; [done | exfalso].
  assert (h.1 ≠ x.1) as Hne.
  { intros Heq. apply Hh. rewrite Heq. by apply list_elem_of_fmap_2. }
  apply StronglySorted_inv in Hsorted as [_ Hall].
  rewrite Forall_forall in Hall. specialize (Hall x Hx).
  assert (strictly_newer x h) as Hxh by (apply Hmax; [left | done]).
  unfold strictly_newer in *. lia.
Qed.

(** When the clock has not gone backwards, the checkpoint that [create]
    has just stored is the latest checkpoint of its session. *)
Theorem create_then_latest (c c' : Checkpoint.t) (now : datetime) (s : Z) (w : World) :
  (create c now w).1 = Ok c' →
  Checkpoint.internal_session_id c = Some s →
  (∀ k r, checkpoints (db w) !! k = Some r → internal_session_id r = s →
          (created_at r ≤ now)%Z) →
  let w' := (create c now w).2 in
  next_fault w' = false →
  ∃ new_id r,
    Checkpoint.id c' = Some new_id
    ∧ checkpoints (db w') !! new_id = Some r
    ∧ (get_latest_checkpoint s w').1 = Ok (Some (_row_to_checkpoint (new_id, r))).
Proof.
  intros Hrun Hs Hclock w' Hfault.
  assert (∃ r, db w' = with_checkpoints
                         (<[next_id (checkpoints (db w)) := r]> (checkpoints (db w))) (db w)
               ∧ internal_session_id r = s ∧ created_at r = now
               ∧ Checkpoint.id c' = Some (next_id (checkpoints (db w)))) as (r & Hdb & Hrs & Hrt & Hid).
  { unfold w'. remember (db (create c now w).2) as d' eqn:Hd'. unfold create in Hrun.
    apply get_db_connection_returns in Hrun as [Hbody _].
    change (db (get_db_connection _ w).2) with (db (create c now w).2) in Hbody.
    rewrite <- Hd' in Hbody. clear Hd'. revert Hbody. rewrite Hs.
    destruct (add_flush _ (db w)) as [[new_id d1]|] eqn:Hadd; [| done].
    pose proof Hadd as Hadd'. apply add_flush_checkpoints in Hadd' as ->.
    assert (new_id = next_id (checkpoints (db w))) as ->.
    { revert Hadd. unfold add_flush. case_match; [| done]. by intros [= <- _]. }
    intros [= <- <-]. cbn. rewrite alter_insert_eq. cbn. eexists. by split_and!. }
  set (new_id := next_id (checkpoints (db w))) in *.
  exists new_id, r. split_and!; [done | by rewrite Hdb; cbn; rewrite lookup_insert_eq |].
  unfold get_latest_checkpoint. rewrite get_db_connection_no_fault by done. cbn.
  do 2 f_equal. unfold first, limit.
  assert (head (rows_by_internal_session s false (db w')) = Some (new_id, r)) as Hhead.
  { apply strictly_sorted_head.
    - apply rows_by_internal_session_sorted.
    - apply rows_by_internal_session_NoDup.
    - apply rows_by_internal_session_elem_of. rewrite Hdb. cbn.
      rewrite lookup_insert_eq. unfold of_session. by split_and!.
    - intros [k rk]. rewrite rows_by_internal_session_elem_of, Hdb. cbn.
      intros [Hk [Hks _]] Hne. cbn in Hne.
      rewrite lookup_insert_ne in Hk by done.
      pose proof (Hclock k rk Hk Hks) as Hle.
      assert (k < new_id)%Z as Hlt by (apply lookup_lt_next_id; eauto).
      unfold strictly_newer. cbn. lia. }
  destruct (rows_by_internal_session s false (db w')) as [|x rows]; [done |].
  cbn in Hhead |- *. congruence.
Qed.

(** [delete] of a stored checkpoint removes that checkpoint and no other;
    the sessions that branched from it lose their branch point and nothing
    else; afterwards [get_by_id] does not find it. *)
Theorem delete_checkpoint_spec (checkpoint_id : Z) (w : World) :
  (delete checkpoint_id w).1 = Ok true →
  let w' := (delete checkpoint_id w).2 in
  checkpoints (db w') = base.delete checkpoint_id (checkpoints (db w))
  ∧ internal_sessions (db w')
    = (λ r, if decide (InternalSessionModel.branch_point_checkpoint_id r = Some checkpoint_id)
            then InternalSessionModel.set_branch_point_checkpoint_id None r else r)
        <$> internal_sessions (db w)
  ∧ external_sessions (db w') = external_sessions (db w)
  ∧ (next_fault w' = false → (get_by_id checkpoint_id w').1 = Ok None).
Proof.
  intros Hok w'.
  assert (∃ c0, checkpoints (db w) !! checkpoint_id = Some c0
                ∧ db w' = (delete_checkpoints (λ x, x.1 = checkpoint_id) (db w)).2)
    as (c0 & Hrow & Hdb).
  { unfold w'. unfold delete in Hok |- *.
    apply get_db_connection_returns in Hok as [Hbody _]. revert Hbody.
    destruct (checkpoints (db w) !! checkpoint_id) as [c0|] eqn:Hrow; [| done].
    intros [= Heq]. exists c0. split; [done |]. symmetry. exact Heq. }
  rewrite Hdb.
  assert (checkpoints (delete_checkpoints (λ x, x.1 = checkpoint_id) (db w)).2
          = base.delete checkpoint_id (checkpoints (db w))) as Hcps.
  { apply map_eq. intros k. rewrite lookup_delete_checkpoints.
    destruct (decide (k = checkpoint_id)) as [->|Hne].
    - rewrite lookup_delete_eq, Hrow. cbn [mbind option_bind].
      by rewrite decide_True.
    - rewrite lookup_delete_ne by done. destruct (checkpoints (db w) !! k); [| done].
      cbn [mbind option_bind]. by rewrite decide_False. }
  split_and!; [done | | done |].
  - cbn. apply map_fmap_ext. intros j r _.
    destruct (InternalSessionModel.branch_point_checkpoint_id r) as [k|] eqn:Hbp; cbn.
    + case_bool_decide as Hgone; case_decide as Hk; try done.
      * destruct Hgone as [c Hc]. apply map_lookup_filter_Some in Hc as [_ Hc]. cbn in Hc.
        congruence.
      * destruct Hgone. injection Hk as ->. exists c0. by apply map_lookup_filter_Some.
      * destruct r; cbn in *; by subst.
    + rewrite decide_False by done. destruct r; cbn in *; by subst.
  - intros Hfault. unfold get_by_id. rewrite get_db_connection_no_fault by done.
    rewrite Hdb, Hcps, lookup_delete_eq. done.
Qed.

(** [update_checkpoint_metadata] on a stored checkpoint replaces the
    payload of its row, and nothing else, by the dict of a checkpoint that
    is the checkpoint read back but for its metadata: there the keys given
    take the values given and the other keys keep theirs. *)
Theorem update_checkpoint_metadata_merges (checkpoint_id : Z) (metadata : dict) (w : World) :
  (update_checkpoint_metadata checkpoint_id metadata w).1 = Ok true →
  let w' := (update_checkpoint_metadata checkpoint_id metadata w).2 in
  ∃ r checkpoint',
    checkpoints (db w) !! checkpoint_id = Some r
    ∧ db w' = with_checkpoints
                (<[checkpoint_id := set_checkpoint_data (Checkpoint.to_dict checkpoint') r]>
                   (checkpoints (db w))) (db w)
    ∧ Checkpoint.id checkpoint' = Some checkpoint_id
    ∧ (∀ key v, metadata !! key = Some v → Checkpoint.metadata checkpoint' !! key = Some v)
    ∧ (∀ key, metadata !! key = None →
         Checkpoint.metadata checkpoint' !! key
         = Checkpoint.metadata (_row_to_checkpoint (checkpoint_id, r)) !! key)
    ∧ Checkpoint.set_metadata ∅ checkpoint'
      = Checkpoint.set_metadata ∅ (_row_to_checkpoint (checkpoint_id, r)).
Proof.
  intros Hok w'. subst w'. revert Hok.
  unfold update_checkpoint_metadata, mbind, repo_bind.
  destruct (get_by_id checkpoint_id w) as [[o|e] w1] eqn:Hget; [| done].
  assert (db w1 = db w ∧ o = (λ r, _row_to_checkpoint (checkpoint_id, r))
                                <$> checkpoints (db w) !! checkpoint_id) as [Hdb ->].
  { unfold get_by_id in Hget.
    pose proof (get_db_connection_ok _ _ _ _ Hget) as [[= -> Hdb] _]. done. }
  destruct (checkpoints (db w) !! checkpoint_id) as [r|] eqn:Hrow; [| done].
  cbn [fmap option_fmap option_map].
  intros Hok. apply get_db_connection_returns in Hok as [Hbody _]. revert Hbody.
  rewrite Hdb, Hrow. intros [= Heq].
  eexists r, _. split_and!; [done | symmetry; exact Heq | ..].
  - unfold _row_to_checkpoint. by destruct (Checkpoint.from_dict _).
  - intros key v Hkey. cbn. by apply lookup_union_Some_l.
  - intros key Hkey. cbn. by rewrite lookup_union_r.
  - done.
Qed.

End facts.
(** *** On the sample database *)

Lemma count_checkpoints_agree_witness :
  ∃ counts cps,
    (count_checkpoints 1 RepoSamples.w6).1 = Ok counts
    ∧ (@get_by_internal_session RepoSamples.sample_checkpoint_methods 1 false
         RepoSamples.w6).1 = Ok cps
    ∧ counts !! "total" = Some (JInt (Z.of_nat (length cps))).
Proof.
  assert (∃ counts, (count_checkpoints 1 RepoSamples.w6).1 = Ok counts) as [counts Hrun]
    by (eexists; reflexivity).
  destruct (@count_checkpoints_agree RepoSamples.sample_checkpoint_methods
              1 RepoSamples.w6 counts Hrun) as (cps & cps_auto & Hcps & _ & Hcounts).
  exists counts, cps. split_and!; [exact Hrun | exact Hcps |].
  rewrite Hcounts. apply lookup_insert_eq.
Defined.

Lemma create_then_latest_witness :
  let create := @create RepoSamples.sample_isoformat RepoSamples.sample_checkpoint_methods in
  let w' := (create (RepoSamples.checkpoint "manual-2" false) 60%Z RepoSamples.w6).2 in
  ∃ c' new_id r,
    (create (RepoSamples.checkpoint "manual-2" false) 60%Z RepoSamples.w6).1 = Ok c'
    ∧ (∀ k r, checkpoints (db RepoSamples.w6) !! k = Some r → internal_session_id r = 1%Z →
              (created_at r ≤ 60)%Z)
    ∧ next_fault w' = false
    ∧ Checkpoint.id c' = Some new_id
    ∧ checkpoints (db w') !! new_id = Some r
    ∧ (@get_latest_checkpoint RepoSamples.sample_checkpoint_methods 1 w').1
      = Ok (Some (@_row_to_checkpoint RepoSamples.sample_checkpoint_methods (new_id, r))).
Proof.
  cbv zeta.
  destruct (@create RepoSamples.sample_isoformat RepoSamples.sample_checkpoint_methods
              (RepoSamples.checkpoint "manual-2" false) 60%Z RepoSamples.w6).1
    as [c'|e] eqn:Hrun; [| by vm_compute in Hrun].
  assert (∀ k r, checkpoints (db RepoSamples.w6) !! k = Some r → internal_session_id r = 1%Z →
                 (created_at r ≤ 60)%Z) as Holder.
  { intros k r Hk _. revert k r Hk.
    apply (bool_decide_unpack (map_Forall (λ _ r, (created_at r ≤ 60)%Z)
                                 (checkpoints (db RepoSamples.w6)))).
    by vm_compute. }
  assert (next_fault (@create RepoSamples.sample_isoformat RepoSamples.sample_checkpoint_methods
                        (RepoSamples.checkpoint "manual-2" false) 60%Z RepoSamples.w6).2
          = false) as Hfault by reflexivity.
  destruct (@create_then_latest RepoSamples.sample_isoformat
              RepoSamples.sample_checkpoint_methods
              (RepoSamples.checkpoint "manual-2" false) c' 60 1 RepoSamples.w6
              Hrun eq_refl Holder Hfault) as (new_id & r & Hid & Hrow & Hlatest).
  exists c', new_id, r.
  split_and!; [reflexivity | exact Holder | exact Hfault | exact Hid | exact Hrow | exact Hlatest].
Defined.

Lemma delete_checkpoint_spec_witness :
  (delete 2 RepoSamples.w6).1 = Ok true
  ∧ checkpoints (db (delete 2 RepoSamples.w6).2)
    = base.delete 2%Z (checkpoints (db RepoSamples.w6))
  ∧ (@get_by_id RepoSamples.sample_checkpoint_methods 2 (delete 2 RepoSamples.w6).2).1
    = Ok None.
Proof.
  assert ((delete 2 RepoSamples.w6).1 = Ok true) as Hrun by reflexivity.
  destruct (@delete_checkpoint_spec RepoSamples.sample_checkpoint_methods 2 RepoSamples.w6 Hrun)
    as (Hrows & _ & _ & Hget).
  split_and!; [exact Hrun | exact Hrows | by apply Hget].
Defined.

Lemma update_checkpoint_metadata_merges_witness :
  let metadata : dict := <["note" := JStr "kept"]> ∅ in
  let update :=
    @update_checkpoint_metadata RepoSamples.sample_checkpoint_methods 2 metadata
      RepoSamples.w6 in
  update.1 = Ok true
  ∧ ∃ r checkpoint',
      checkpoints (db RepoSamples.w6) !! 2%Z = Some r
      ∧ checkpoints (db update.2) !! 2%Z
        = Some (set_checkpoint_data
                  (@Checkpoint.to_dict RepoSamples.sample_checkpoint_methods checkpoint') r)
      ∧ Checkpoint.metadata checkpoint' !! "note" = Some (JStr "kept")
      ∧ Checkpoint.checkpoint_name checkpoint' = Some "auto-1"
      ∧ Checkpoint.is_auto checkpoint' = true.
Proof.
  cbv zeta.
  assert ((@update_checkpoint_metadata RepoSamples.sample_checkpoint_methods 2
             (<["note" := JStr "kept"]> ∅) RepoSamples.w6).1 = Ok true) as Hrun by reflexivity.
  split; [exact Hrun |].
  destruct (@update_checkpoint_metadata_merges RepoSamples.sample_checkpoint_methods 2
              (<["note" := JStr "kept"]> ∅) RepoSamples.w6 Hrun)
    as (r & checkpoint' & Hrow & Hdb & _ & Hnew & _ & Hrest).
  exists r, checkpoint'. split_and!; [exact Hrow | | | |].
  - rewrite Hdb. cbn. apply lookup_insert_eq.
  - apply Hnew. apply lookup_insert_eq.
  - apply (f_equal Checkpoint.checkpoint_name) in Hrest. cbn in Hrest. rewrite Hrest.
    vm_compute in Hrow. injection Hrow as <-. reflexivity.
  - apply (f_equal Checkpoint.is_auto) in Hrest. cbn in Hrest. rewrite Hrest.
    vm_compute in Hrow. injection Hrow as <-. reflexivity.
Defined.

End CheckpointQueryFacts.

(** ** Referential integrity *)

Module IntegrityFacts.
Import Transactions TransactionFacts IntegritySpec.

Lemma keeps_ret {A} (I : Database → Prop) (a : A) : keeps I (mret a : Repo A).
Proof. by apply hoare_ret. Qed.

Lemma keeps_bind {A B} (I : Database → Prop) (m : Repo A) (f : A → Repo B) :
  keeps I m → (∀ a, keeps I (f a)) → keeps I (m ≫= f).
Proof. intros Hm Hf. eapply hoare_bind; [exact Hm | exact Hf]. Qed.

Lemma keeps_connection {A} (I : Database → Prop) (body : Tx A) :
  (∀ d a d', I d → body d = Ok (a, d') → I d') → keeps I (get_db_connection body).
Proof. intros Hbody. apply hoare_connection; [done |]. intros d a d'. apply Hbody. Qed.

Lemma keeps_query {A} (I : Database → Prop) (f : Database → A) :
  keeps I (get_db_connection (λ d, Ok (f d, d))).
Proof. apply keeps_connection. by intros d a d' Hd [= _ <-]. Qed.

(** *** Rows inserted, rewritten and deleted *)

Lemma fk_ok_dom {A B} (ref : option Z) (m : gmap Z A) (m' : gmap Z B) :
  (∀ k, is_Some (m !! k) → is_Some (m' !! k)) → fk_ok ref m = true → fk_ok ref m' = true.
Proof.
  intros Hdom. destruct ref as [k|]; [| done]. cbn.
  rewrite !bool_decide_eq_true. apply Hdom.
Qed.

(** Internal sessions rewritten in place, their references kept. *)
Lemma integrity_internal_rewritten d (m' : gmap Z InternalSessionModel.t) :
  (∀ j r', m' !! j = Some r' →
     ∃ r, internal_sessions d !! j = Some r
          ∧ InternalSessionModel.external_session_id r' = InternalSessionModel.external_session_id r
          ∧ InternalSessionModel.parent_session_id r' = InternalSessionModel.parent_session_id r
          ∧ InternalSessionModel.branch_point_checkpoint_id r'
            = InternalSessionModel.branch_point_checkpoint_id r) →
  (∀ j, is_Some (internal_sessions d !! j) → is_Some (m' !! j)) →
  referential_integrity d → referential_integrity (with_internal_sessions m' d).
Proof.
  intros Hrows Hdom (Hext & Hint & Hcp). split_and!; [done | |].
  - intros j r' Hj. cbn in *. destruct (Hrows j r' Hj) as (r & Hr & -> & -> & ->).
    destruct (Hint j r Hr) as (? & Hparent & ?). split_and!; [done | | done].
    by eapply fk_ok_dom.
  - intros k c Hk. cbn in *. destruct (Hcp k c Hk) as [Hs Hu]. split; [| done].
    by apply Hdom.
Qed.

Lemma integrity_internal_inserted d k r :
  is_Some (external_sessions d !! InternalSessionModel.external_session_id r) →
  fk_ok (InternalSessionModel.parent_session_id r) (internal_sessions d) = true →
  fk_ok (InternalSessionModel.branch_point_checkpoint_id r) (checkpoints d) = true →
  internal_sessions d !! k = None →
  referential_integrity d →
  referential_integrity (with_internal_sessions (<[k := r]> (internal_sessions d)) d).
Proof.
  intros Hr1 Hr2 Hr3 Hfresh (Hext & Hint & Hcp).
  assert (∀ j, is_Some (internal_sessions d !! j)
               → is_Some (<[k := r]> (internal_sessions d) !! j)) as Hdom.
  { intros j Hj. destruct (decide (j = k)) as [->|Hne].
    - rewrite lookup_insert_eq. eauto.
    - by rewrite lookup_insert_ne. }
  split_and!; [done | |].
  - cbn. apply map_Forall_insert_2.
    + split_and!; [done | by eapply fk_ok_dom | done].
    + intros j rj Hj. destruct (Hint j rj Hj) as (? & Hparent & ?).
      split_and!; [done | by eapply fk_ok_dom | done].
  - intros j c Hj. cbn in *. destruct (Hcp j c Hj) as [Hs Hu]. split; [| done].
    by apply Hdom.
Qed.

Lemma integrity_checkpoints_deleted (P : Z * CheckpointModel.t → Prop)
    `{!∀ x, Decision (P x)} d :
  referential_integrity d → referential_integrity (delete_checkpoints P d).2.
Proof.
  intros (Hext & Hint & Hcp). split_and!; [done | |].
  - intros j r'. cbn. rewrite lookup_fmap. intros (r & Hr & ->)%fmap_Some. cbn.
    destruct (Hint j r Hr) as (? & Hparent & Hbranch). split_and!; [done | |].
    + eapply fk_ok_dom; [| exact Hparent]. intros k. by rewrite lookup_fmap, fmap_is_Some.
    + destruct (InternalSessionModel.branch_point_checkpoint_id r) as [k|]; [| done]. cbn.
      case_bool_decide as Hgone; [done |]. cbn. apply bool_decide_eq_true.
      cbn in Hbranch. apply bool_decide_eq_true in Hbranch as [c Hc]. exists c.
      apply map_lookup_filter_Some. split; [done |]. intros HP. apply Hgone. exists c.
      by apply map_lookup_filter_Some.
  - intros k c. cbn. intros [Hk _]%map_lookup_filter_Some.
    destruct (Hcp k c Hk) as [Hs Hu]. split; [| done].
    by rewrite lookup_fmap, fmap_is_Some.
Qed.

Lemma integrity_internal_sessions_deleted (P : Z * InternalSessionModel.t → Prop)
    `{!∀ x, Decision (P x)} d :
  (∀ j r c, P (j, InternalSessionModel.set_branch_point_checkpoint_id c r) ↔ P (j, r)) →
  referential_integrity d → referential_integrity (delete_internal_sessions P d).
Proof.
  intros HP Hd. unfold delete_internal_sessions.
  set (gone := filter P (internal_sessions d)).
  set (Pc := λ x : Z * CheckpointModel.t,
               is_Some (gone !! CheckpointModel.internal_session_id x.2)).
  pose proof (integrity_checkpoints_deleted Pc d Hd) as (Hext & Hint & Hcp).
  set (d1 := (delete_checkpoints Pc d).2) in *.
  assert (∀ j r1, internal_sessions d1 !! j = Some r1 →
                  (is_Some (gone !! j) ↔ P (j, r1))) as Hgone.
  { intros j r1. unfold d1. cbn. rewrite lookup_fmap.
    intros (r & Hr & ->)%fmap_Some. rewrite HP. unfold gone. split.
    - intros [r' Hr']. apply map_lookup_filter_Some in Hr' as [Hr' HPr]. congruence.
    - intros HPr. exists r. by apply map_lookup_filter_Some. }
  split_and!; [done | |].
  - intros j r'. cbn. rewrite lookup_fmap. intros (r1 & Hr1 & ->)%fmap_Some.
    apply map_lookup_filter_Some in Hr1 as [Hr1 HnP]. cbn.
    destruct (Hint j r1 Hr1) as (? & Hparent & Hbranch). split_and!; [done | | done].
    destruct (InternalSessionModel.parent_session_id r1) as [p|]; [| done]. cbn.
    case_bool_decide as Hp; [done |]. cbn. apply bool_decide_eq_true.
    cbn in Hparent. apply bool_decide_eq_true in Hparent as [rp Hrp].
    rewrite lookup_fmap, fmap_is_Some. exists rp.
    apply map_lookup_filter_Some. split; [done |]. intros HPp. apply Hp.
    by apply (Hgone p rp).
  - intros k c. cbn. intros Hk. destruct (Hcp k c Hk) as [[r1 Hr1] Hu]. split; [| done].
    rewrite lookup_fmap, fmap_is_Some. exists r1.
    apply map_lookup_filter_Some. split; [done |]. intros HPs.
    apply (Hgone _ r1 Hr1) in HPs.
    unfold d1 in Hk. cbn in Hk. apply map_lookup_filter_Some in Hk as [_ Hk].
    by apply Hk.
Qed.

Lemma integrity_external_session_deleted k d :
  referential_integrity d → referential_integrity (delete_external_session k d).
Proof.
  intros Hd. unfold delete_external_session.
  set (P := λ x : Z * InternalSessionModel.t,
              InternalSessionModel.external_session_id x.2 = k).
  assert (∀ j r c, P (j, InternalSessionModel.set_branch_point_checkpoint_id c r) ↔ P (j, r))
    as HP by done.
  pose proof (integrity_internal_sessions_deleted P d HP Hd) as (Hext & Hint & Hcp).
  set (d1 := delete_internal_sessions P d) in *.
  assert (external_sessions d1 = external_sessions d) as Hsame by done.
  split_and!.
  - intros j r. cbn. intros [_ Hj]%lookup_delete_Some. by apply (Hext j r).
  - intros j r Hj. change (internal_sessions d1 !! j = Some r) in Hj.
    destruct (Hint j r Hj) as (Hr & ? & ?).
    split_and!; [| done | done]. cbn.
    rewrite lookup_delete_ne; [done |]. intros Heq.
    unfold d1, delete_internal_sessions in Hj. cbn in Hj. rewrite lookup_fmap in Hj.
    apply fmap_Some in Hj as (r1 & Hr1 & ->).
    apply map_lookup_filter_Some in Hr1 as [_ HnP]. apply HnP. unfold P. by cbn in *.
  - done.
Qed.

Lemma integrity_external_inserted d k r :
  ExternalSessionModel.user_id r ∈ users d →
  referential_integrity d →
  referential_integrity (with_external_sessions (<[k := r]> (external_sessions d)) d).
Proof.
  intros Hr (Hext & Hint & Hcp). split_and!; [| | done].
  - by apply map_Forall_insert_2.
  - intros j rj Hj. cbn in *. destruct (Hint j rj Hj) as ([e He] & ? & ?).
    split_and!; [| done | done].
    destruct (decide (InternalSessionModel.external_session_id rj = k)) as [->|Hne].
    + rewrite lookup_insert_eq. eauto.
    + rewrite lookup_insert_ne by done. eauto.
Qed.

Lemma integrity_checkpoint_inserted d k c :
  is_Some (internal_sessions d !! CheckpointModel.internal_session_id c) →
  from_option (λ u, u ∈ users d) True (CheckpointModel.user_id c) →
  referential_integrity d →
  referential_integrity (with_checkpoints (<[k := c]> (checkpoints d)) d).
Proof.
  intros Hc1 Hc2 (Hext & Hint & Hcp). split_and!; [done | |].
  - intros j r Hj. cbn in *. destruct (Hint j r Hj) as (? & ? & Hbranch).
    split_and!; [done | done |]. eapply fk_ok_dom; [| exact Hbranch].
    intros i Hi. destruct (decide (i = k)) as [->|Hne].
    + rewrite lookup_insert_eq. eauto.
    + by rewrite lookup_insert_ne.
  - by apply map_Forall_insert_2.
Qed.

(** *** internal_session_repository.py *)

Section internal.
Import InternalSessionModel InternalSessionRepository InternalSessionFacts.

Lemma keeps_mark_all_not_current ext exclude_id :
  keeps referential_integrity (_mark_all_not_current ext exclude_id).
Proof.
  apply keeps_connection. intros d [] d' Hd [= <-].
  apply integrity_internal_rewritten; [| | done].
  - intros j r'. rewrite lookup_mark_rows. intros (r & Hr & ->)%fmap_Some.
    exists r. by destruct (marked _ _ _ _).
  - intros j. by rewrite lookup_mark_rows, fmap_is_Some.
Qed.

Lemma keeps_row_assigned (k : Z) (f : InternalSessionModel.t → InternalSessionModel.t) :
  (∀ r, external_session_id (f r) = external_session_id r
        ∧ parent_session_id (f r) = parent_session_id r
        ∧ branch_point_checkpoint_id (f r) = branch_point_checkpoint_id r) →
  keeps referential_integrity
    (get_db_connection (λ d,
       match internal_sessions d !! k with
       | Some r => Ok (true, with_internal_sessions (<[k := f r]> (internal_sessions d)) d)
       | None => Ok (false, d)
       end)).
Proof.
  intros Hf. apply keeps_connection. intros d b d' Hd.
  destruct (internal_sessions d !! k) as [r|] eqn:Hk; intros [= _ <-]; [| done].
  apply integrity_internal_rewritten; [| | done].
  - intros j r'. destruct (decide (j = k)) as [->|Hne].
    + rewrite lookup_insert_eq. intros [= <-]. exists r. split; [done | apply Hf].
    + rewrite lookup_insert_ne by done. eauto.
  - intros j Hj. destruct (decide (j = k)) as [->|Hne].
    + rewrite lookup_insert_eq. eauto.
    + by rewrite lookup_insert_ne.
Qed.

(** Every operation of [InternalSessionRepository] that writes keeps the
    foreign keys valid, whether it returns or raises. *)
Theorem internal_sessions_keep_integrity :
  (∀ session now, keeps referential_integrity (create session now))
  ∧ (∀ session, keeps referential_integrity (update session))
  ∧ (∀ session_id, keeps referential_integrity (set_current_session session_id))
  ∧ (∀ session_id, keeps referential_integrity (InternalSessionRepository.delete session_id))
  ∧ (∀ session_id increment,
       keeps referential_integrity (update_tool_count session_id increment)).
Proof.
  split_and!.
  - intros session now. unfold create. apply keeps_bind.
    { destruct (InternalSession.is_current session);
        [apply keeps_mark_all_not_current | apply keeps_ret]. }
    intros _. apply keeps_connection. intros d session' d' Hd.
    destruct (add_flush (row_of session now) d) as [[new_id d1]|] eqn:Hadd; [| done].
    intros [= _ <-]. revert Hadd. unfold add_flush. case_match eqn:Hchecks; [| done].
    intros [= _ <-].
    apply andb_prop in Hchecks as [[[Hext _]%andb_prop Hparent]%andb_prop Hbranch].
    apply bool_decide_eq_true in Hext.
    apply integrity_internal_inserted; try done. apply next_id_fresh.
  - intros session. unfold update.
    destruct (InternalSession.id session) as [k|]; [| apply keeps_ret].
    destruct (k =? 0)%Z; [apply keeps_ret |]. apply keeps_bind.
    { destruct (InternalSession.is_current session);
        [apply keeps_mark_all_not_current | apply keeps_ret]. }
    intros _. by apply keeps_row_assigned.
  - intros session_id. unfold set_current_session. apply keeps_bind.
    { apply keeps_query. }
    intros [session|]; [| apply keeps_ret]. apply keeps_bind.
    { apply keeps_mark_all_not_current. }
    intros _. by apply (keeps_row_assigned session_id (set_is_current true)).
  - intros session_id. apply keeps_connection. intros d b d' Hd.
    destruct (internal_sessions d !! session_id); intros [= _ <-]; [| done].
    by apply integrity_internal_sessions_deleted.
  - intros session_id increment. apply keeps_connection. intros d b d' Hd.
    destruct (internal_sessions d !! session_id) as [r|] eqn:Hk; intros [= _ <-]; [| done].
    apply integrity_internal_rewritten; [| | done].
    + intros j r'. destruct (decide (j = session_id)) as [->|Hne].
      * rewrite lookup_insert_eq. intros [= <-]. by exists r.
      * rewrite lookup_insert_ne by done. eauto.
    + intros j Hj. destruct (decide (j = session_id)) as [->|Hne].
      * rewrite lookup_insert_eq. eauto.
      * by rewrite lookup_insert_ne.
Qed.

End internal.

(** *** external_session_repository.py and checkpoint_repository.py *)

Section repositories.
Context {backend : Backend} `{Isoformat, ExternalSession.Methods, Checkpoint.Methods}.

Lemma keeps_external_update session now :
  keeps referential_integrity (ExternalSessionRepository.update session now).
Proof.
  unfold ExternalSessionRepository.update.
  destruct (ExternalSession.id session) as [k|]; [| apply keeps_ret].
  destruct (k =? 0)%Z; [apply keeps_ret |].
  apply keeps_connection. intros d b d' Hd.
  destruct (external_sessions d !! k) as [r|] eqn:Hk; intros [= _ <-]; [| done].
  apply integrity_external_inserted; [| done]. cbn.
  destruct Hd as (Hext & _). by apply (Hext k r).
Qed.

(** Every operation of [ExternalSessionRepository] that writes keeps the
    foreign keys valid, whether it returns or raises. *)
Theorem external_sessions_keep_integrity :
  (∀ session now, keeps referential_integrity (ExternalSessionRepository.create session now))
  ∧ (∀ session now, keeps referential_integrity (ExternalSessionRepository.update session now))
  ∧ (∀ k lg now,
       keeps referential_integrity (ExternalSessionRepository.add_internal_session k lg now))
  ∧ (∀ k lg now,
       keeps referential_integrity
         (ExternalSessionRepository.set_current_internal_session k lg now))
  ∧ (∀ k now now', keeps referential_integrity (ExternalSessionRepository.deactivate k now now'))
  ∧ (∀ k, keeps referential_integrity (ExternalSessionRepository.delete k)).
Proof.
  split_and!.
  - intros session now. apply keeps_connection. intros d session' d' Hd.
    unfold ExternalSessionRepository.add_flush. case_bool_decide as Huser; [| done].
    intros [= _ <-]. cbn. rewrite alter_insert_eq.
    by apply (integrity_external_inserted d).
  - apply keeps_external_update.
  - intros k lg now. apply keeps_bind; [apply keeps_query |].
    intros [session|]; [apply keeps_external_update | apply keeps_ret].
  - intros k lg now. apply keeps_bind; [apply keeps_query |].
    intros [session|]; [| apply keeps_ret].
    destruct (ExternalSession.set_current_internal_session lg session) as [[] session'];
      [apply keeps_external_update | apply keeps_ret].
  - intros k now now'. apply keeps_bind; [apply keeps_query |].
    intros [session|]; [apply keeps_external_update | apply keeps_ret].
  - intros k. apply keeps_connection. intros d b d' Hd.
    destruct (external_sessions d !! k); intros [= _ <-]; [| done].
    by apply integrity_external_session_deleted.
Qed.

Lemma integrity_checkpoint_rewritten d k c c' :
  checkpoints d !! k = Some c →
  CheckpointModel.internal_session_id c' = CheckpointModel.internal_session_id c →
  CheckpointModel.user_id c' = CheckpointModel.user_id c →
  referential_integrity d →
  referential_integrity (with_checkpoints (<[k := c']> (checkpoints d)) d).
Proof.
  intros Hk Hs Hu Hd. pose proof Hd as (_ & _ & Hcp). destruct (Hcp k c Hk) as [? ?].
  apply integrity_checkpoint_inserted; [by rewrite Hs | by rewrite Hu | done].
Qed.

(** Every operation of [CheckpointRepository] that writes keeps the
    foreign keys valid, whether it returns or raises. *)
Theorem checkpoints_keep_integrity :
  (∀ c now, keeps referential_integrity (CheckpointRepository.create c now))
  ∧ (∀ k, keeps referential_integrity (CheckpointRepository.delete k))
  ∧ (∀ s n, keeps referential_integrity (CheckpointRepository.delete_auto_checkpoints s n))
  ∧ (∀ k metadata,
       keeps referential_integrity (CheckpointRepository.update_checkpoint_metadata k metadata)).
Proof.
  split_and!.
  - intros c now. apply keeps_connection. intros d c' d' Hd.
    destruct (Checkpoint.internal_session_id c) as [s|]; [| done]. cbv beta zeta.
    match goal with
    | |- context [CheckpointRepository.add_flush ?row d] =>
        destruct (CheckpointRepository.add_flush row d) as [[new_id d1]|] eqn:Hadd; [| done]
    end.
    intros [= _ <-]. revert Hadd. unfold CheckpointRepository.add_flush.
    case_match eqn:Hchecks; [| done]. intros [= <- <-]. cbn. rewrite alter_insert_eq. cbn.
    apply andb_prop in Hchecks as [Hs Hu]. apply bool_decide_eq_true in Hs.
    apply (integrity_checkpoint_inserted d); [done | | done]. cbn in Hu |- *.
    destruct (Checkpoint.user_id c) as [u|]; [| done]. by apply bool_decide_eq_true in Hu.
  - intros k. apply keeps_connection. intros d b d' Hd.
    destruct (checkpoints d !! k); intros [= _ <-]; [| done].
    by apply integrity_checkpoints_deleted.
  - intros s n. apply keeps_connection. intros d deleted d' Hd. cbv zeta.
    case_bool_decide; intros [= _ <-]; by apply integrity_checkpoints_deleted.
  - intros k metadata. apply keeps_bind; [apply keeps_query |].
    intros [checkpoint|]; [| apply keeps_ret].
    apply keeps_connection. intros d b d' Hd.
    destruct (checkpoints d !! k) as [c|] eqn:Hk; intros [= _ <-]; [| done].
    by eapply integrity_checkpoint_rewritten.
Qed.

End repositories.

(** *** On the sample database *)

Lemma keeps_run {A} (I : Database → Prop) (m : Repo A) w :
  keeps I m → I (db w) → I (db (m w).2).
Proof. intros Hm Hw. specialize (Hm w Hw). by destruct (m w) as [[a|e] w']. Qed.

Lemma internal_sessions_keep_integrity_witness :
  referential_integrity (db RepoSamples.w6)
  ∧ referential_integrity (db (InternalSessionRepository.delete 1 RepoSamples.w6).2)
  ∧ referential_integrity
      (db (InternalSessionRepository.create BranchSamples.branch 30 RepoSamples.w6).2).
Proof.
  assert (referential_integrity (db RepoSamples.w6)) as Hw.
  { apply (bool_decide_unpack _). by vm_compute. }
  destruct internal_sessions_keep_integrity as (Hcreate & _ & _ & Hdelete & _).
  split_and!; [exact Hw | |].
  - exact (keeps_run _ _ _ (Hdelete 1%Z) Hw).
  - exact (keeps_run _ _ _ (Hcreate BranchSamples.branch 30%Z) Hw).
Defined.

Lemma external_sessions_keep_integrity_witness :
  referential_integrity (db RepoSamples.w6)
  ∧ referential_integrity (db (ExternalSessionRepository.delete 1 RepoSamples.w6).2)
  ∧ referential_integrity
      (db (@ExternalSessionRepository.create RepoSamples.sample_isoformat
             RepoSamples.sample_external_session_methods BranchSamples.notes 60
             RepoSamples.w6).2).
Proof.
  assert (referential_integrity (db RepoSamples.w6)) as Hw.
  { apply (bool_decide_unpack _). by vm_compute. }
  destruct (@external_sessions_keep_integrity SQLite RepoSamples.sample_isoformat
              RepoSamples.sample_external_session_methods)
    as (Hcreate & _ & _ & _ & _ & Hdelete).
  split_and!; [exact Hw | |].
  - exact (keeps_run _ _ _ (Hdelete 1%Z) Hw).
  - exact (keeps_run _ _ _ (Hcreate BranchSamples.notes 60%Z) Hw).
Defined.

Lemma checkpoints_keep_integrity_witness :
  referential_integrity (db RepoSamples.w6)
  ∧ referential_integrity (db (CheckpointRepository.delete_auto_checkpoints 1 1 RepoSamples.w6).2)
  ∧ referential_integrity
      (db (@CheckpointRepository.create RepoSamples.sample_isoformat
             RepoSamples.sample_checkpoint_methods (RepoSamples.checkpoint "manual-2" false) 60
             RepoSamples.w6).2).
Proof.
  assert (referential_integrity (db RepoSamples.w6)) as Hw.
  { apply (bool_decide_unpack _). by vm_compute. }
  destruct (@checkpoints_keep_integrity RepoSamples.sample_isoformat
              RepoSamples.sample_checkpoint_methods)
    as (Hcreate & _ & Hprune & _).
  split_and!; [exact Hw | |].
  - exact (keeps_run _ _ _ (Hprune 1%Z 1) Hw).
  - exact (keeps_run _ _ _ (Hcreate (RepoSamples.checkpoint "manual-2" false) 60%Z) Hw).
Defined.

End IntegrityFacts.
